(** * The scorecard loader of IPL-Stats-MCP-Server (src/data_loader.py)

    A shallow embedding of [process_and_load_data]: the parsed JSON documents
    are Python values, every Python operation that can raise returns a
    [result], the two in-memory caches are insertion-ordered dictionaries of
    ORM objects, and the SQLAlchemy session is a store with pending rows.

    Idealisations, stated once:
    - JSON numbers are integers (the scorecards carry no fractions); the
      float [Delivery.over] is a binary64 number, computed with the rounding
      of the Standard Library's [SpecFloat];
    - a row read back from the store equals the row written;
    - [pd.to_datetime(..).date()] and the database's verdict on a commit are
      section variables: the claims hold whatever they answer. *)

From Stdlib Require Import List String Ascii ZArith Bool Lia Sorted.
From Stdlib Require Import SpecFloat.
Import ListNotations.
Open Scope string_scope.
Open Scope list_scope.

(** ** Python values and exceptions *)

#[local] Set Warnings "-register-all".

Inductive value : Type :=
| VNone
| VBool (b : bool)
| VInt (z : Z)
| VStr (s : string)
| VList (l : list value)
| VDict (d : list (string * value)).

Inductive exn : Type :=
| KeyError
| IndexError
| TypeError
| AttributeError
| StopIteration
| ValueError
| OverflowError
| ZeroDivisionError
| JSONDecodeError
| DateError
| CommitError (msg : string).

Inductive result (A : Type) : Type :=
| Ok (a : A)
| Raise (e : exn).
Arguments Ok {A} a.
Arguments Raise {A} e.

Definition bind {A B : Type} (m : result A) (k : A -> result B) : result B :=
  match m with
  | Ok a => k a
  | Raise e => Raise e
  end.

Declare Scope py_scope.
Delimit Scope py_scope with py.
Notation "x <- m ;; k" := (bind m (fun x => k))
  (at level 61, m at next level, right associativity) : py_scope.
Notation "' p <- m ;; k" := (bind m (fun p => k))
  (at level 61, p pattern, m at next level, right associativity) : py_scope.
Open Scope py_scope.

(** A JSON object keeps its keys in document order; a lookup takes the entry
    of the key. *)
Fixpoint assoc {A : Type} (k : string) (d : list (string * A)) : option A :=
  match d with
  | [] => None
  | (k', a) :: r => if String.eqb k' k then Some a else assoc k r
  end.

(** Python's [==] on parsed JSON: [True == 1], lists pointwise, dictionaries
    as sets of items whatever their order. *)
Fixpoint py_eq (a b : value) {struct a} : bool :=
  match a, b with
  | VNone, VNone => true
  | VBool x, VBool y => Bool.eqb x y
  | VBool x, VInt y => Z.eqb (Z.b2z x) y
  | VInt x, VBool y => Z.eqb x (Z.b2z y)
  | VInt x, VInt y => Z.eqb x y
  | VStr x, VStr y => String.eqb x y
  | VList xs, VList ys =>
      (fix all2 (xs ys : list value) {struct xs} : bool :=
         match xs, ys with
         | [], [] => true
         | x :: xs', y :: ys' => py_eq x y && all2 xs' ys'
         | _, _ => false
         end) xs ys
  | VDict d1, VDict d2 =>
      Nat.eqb (List.length d1) (List.length d2) &&
      (fix sub (d : list (string * value)) {struct d} : bool :=
         match d with
         | [] => true
         | (k, v) :: r =>
             match assoc k d2 with
             | Some w => py_eq v w
             | None => false
             end && sub r
         end) d1
  | _, _ => false
  end.

(** [bool(v)], the test of [if v] and of [x if v else y]. *)
Definition truthy (v : value) : bool :=
  match v with
  | VNone => false
  | VBool b => b
  | VInt z => negb (Z.eqb z 0)
  | VStr s => negb (String.eqb s "")
  | VList l => match l with [] => false | _ => true end
  | VDict d => match d with [] => false | _ => true end
  end.

Definition chars (s : string) : list value :=
  map (fun c => VStr (String c EmptyString)) (list_ascii_of_string s).

(** [v[k]] for a string [k]. *)
Definition getitem (v : value) (k : string) : result value :=
  match v with
  | VDict d => match assoc k d with Some x => Ok x | None => Raise KeyError end
  | _ => Raise TypeError
  end.

(** [v[n]] for an integer literal [n]; a JSON object has string keys only. *)
Definition getidx (v : value) (n : nat) : result value :=
  match v with
  | VList l => match nth_error l n with Some x => Ok x | None => Raise IndexError end
  | VStr s => match nth_error (chars s) n with Some x => Ok x | None => Raise IndexError end
  | VDict _ => Raise KeyError
  | _ => Raise TypeError
  end.

(** [v.get(k, dflt)]: only dictionaries have the method. *)
Definition get (v : value) (k : string) (dflt : value) : result value :=
  match v with
  | VDict d => Ok (match assoc k d with Some x => x | None => dflt end)
  | _ => Raise AttributeError
  end.

(** [k in v]. *)
Definition contains (k : string) (v : value) : result bool :=
  match v with
  | VDict d => Ok (match assoc k d with Some _ => true | None => false end)
  | VList l => Ok (existsb (fun x => py_eq x (VStr k)) l)
  | VStr s => Ok (match String.index 0 k s with Some _ => true | None => false end)
  | _ => Raise TypeError
  end.

(** [for x in v]. *)
Definition iter (v : value) : result (list value) :=
  match v with
  | VList l => Ok l
  | VStr s => Ok (chars s)
  | VDict d => Ok (map (fun kv => VStr (fst kv)) d)
  | _ => Raise TypeError
  end.

(** [v.items()], [list(v.keys())], [list(v.values())]. *)
Definition items (v : value) : result (list (string * value)) :=
  match v with
  | VDict d => Ok d
  | _ => Raise AttributeError
  end.

Definition keys (v : value) : result value :=
  match v with
  | VDict d => Ok (VList (map (fun kv => VStr (fst kv)) d))
  | _ => Raise AttributeError
  end.

Definition values (v : value) : result value :=
  match v with
  | VDict d => Ok (VList (map snd d))
  | _ => Raise AttributeError
  end.

(** [l.index(x)] where [x] is the object at position [p] of [l] itself: the
    first position whose element is [x] or equals it (CPython compares
    identity before [==]). *)
Fixpoint index_from (x : value) (p : nat) (l : list value) (i : nat) : result nat :=
  match l with
  | [] => Raise ValueError
  | y :: r => if Nat.eqb i p || py_eq y x then Ok i else index_from x p r (S i)
  end.

Definition index (v : value) (p : nat) (x : value) : result nat :=
  match v with
  | VList l => index_from x p l 0
  | _ => Raise AttributeError
  end.

(** The conversion of an integer to a float: the nearest binary64 number,
    ties to even, and OverflowError where that is beyond the largest one. *)
Definition float_of_int (z : Z) : result spec_float :=
  match binary_normalize 53 1024 z 0 false with
  | S754_infinity _ => Raise OverflowError
  | f => Ok f
  end.

(** The literal [10.0]. *)
Definition ten : spec_float := S754_finite false 5629499534213120 (-49).

(** [n / f] for an integer [n] and a float [f]. *)
Definition div_float (n : Z) (f : spec_float) : result spec_float :=
  x <- float_of_int n ;;
  match f with
  | S754_zero _ => Raise ZeroDivisionError
  | _ => Ok (SFdiv 53 1024 x f)
  end.

(** [a + f] for a float [f]: integers and booleans are numbers, converted
    to floats before the binary64 addition. *)
Definition add_float (a : value) (f : spec_float) : result spec_float :=
  match a with
  | VInt z => x <- float_of_int z ;; Ok (SFadd 53 1024 x f)
  | VBool b => x <- float_of_int (Z.b2z b) ;; Ok (SFadd 53 1024 x f)
  | _ => Raise TypeError
  end.

(** ** Dictionaries keyed by a Python value (the two caches) *)

Definition hashable (v : value) : bool :=
  match v with
  | VList _ | VDict _ => false
  | _ => true
  end.

Definition pydict (A : Type) : Type := list (value * A).

Fixpoint pyd_find {A : Type} (k : value) (d : pydict A) : option A :=
  match d with
  | [] => None
  | (k', a) :: r => if py_eq k' k then Some a else pyd_find k r
  end.

Definition pyd_mem {A : Type} (k : value) (d : pydict A) : bool :=
  match pyd_find k d with Some _ => true | None => false end.

(** [k not in d], which hashes [k] first. *)
Definition not_in {A : Type} (k : value) (d : pydict A) : result bool :=
  if hashable k then Ok (negb (pyd_mem k d)) else Raise TypeError.

Definition pyd_values {A : Type} (d : pydict A) : list A := map snd d.

(** [next((f(x) for x in xs if cond(x)), None)] and [next(f(x) for ...)]: the
    condition is evaluated once per element, so what it raises is raised only
    when an element is reached. *)
Fixpoint next_where {A : Type} (cond : A -> result bool) (xs : list A)
  : result (option A) :=
  match xs with
  | [] => Ok None
  | x :: r =>
      c <- cond x ;;
      if c then Ok (Some x) else next_where cond r
  end.

(** ** File names *)

Definition dot : ascii := "."%char.

Definition endswith (f suffix : string) : bool :=
  let n := String.length f in
  let k := String.length suffix in
  Nat.leb k n && String.eqb (substring (n - k) k f) suffix.

Fixpoint last_dot (cs : list ascii) (i : nat) (found : option nat) : option nat :=
  match cs with
  | [] => found
  | c :: r => last_dot r (S i) (if Ascii.eqb c dot then Some i else found)
  end.

(** [os.path.splitext(f)[0]] for a directory entry (no separator in it): cut
    at the last dot unless only dots come before it. *)
Definition splitext_root (f : string) : string :=
  let cs := list_ascii_of_string f in
  match last_dot cs 0 None with
  | Some d =>
      if existsb (fun c => negb (Ascii.eqb c dot)) (firstn d cs)
      then string_of_list_ascii (firstn d cs)
      else f
  | None => f
  end.

(** ** ORM objects (the schema of lines 21-79) *)

Inductive inst_state : Type := Transient | Pending | Persistent.

Record Team : Type := mkTeam {
  team_id : value;
  team_name : value;
  team_state : inst_state }.

Record Player : Type := mkPlayer {
  player_id : value;
  player_name : string;
  player_state : inst_state }.

Record date : Type := mkDate { year : Z; month : Z; day : Z }.

Record Delivery : Type := mkDelivery {
  over : spec_float;
  batter_id : value;
  bowler_id : value;
  non_striker_id : value;
  runs_batter : value;
  runs_extras : value;
  runs_total : value;
  extras_type : value;
  is_wicket : Z;
  player_out_id : value;
  wicket_kind : value;
  wicket_fielders : value }.

Record Inning : Type := mkInning {
  inning_number : Z;
  batting_team_id : value;
  deliveries : list Delivery }.

Record Match : Type := mkMatch {
  match_id : string;
  season : value;
  venue : value;
  city : value;
  match_date : date;
  match_type : value;
  balls_per_over : value;
  team1_id : value;
  team2_id : value;
  toss_winner_id : value;
  toss_decision : value;
  winner_id : value;
  outcome_result : value;
  outcome_margin : value;
  player_of_match_id : value;
  officials : value;
  innings : list Inning }.

(** The store: the three tables the loader fills (innings and deliveries are
    kept under their match, as the relationships hold them). *)
Record Store : Type := mkStore {
  tbl_teams : list (Z * value);
  tbl_players : list (value * string);
  tbl_matches : list Match }.

(** The locals of [process_and_load_data]: both caches, the session's pending
    matches, the store behind the session, and what was printed. *)
Record State : Type := mkState {
  player_cache : pydict Player;
  team_cache : pydict Team;
  session_new : list Match;
  db : Store;
  stdout : list string }.

Definition empty_store : Store := mkStore [] [] [].

(** [create_database]: the old file is removed and the tables are created. *)
Definition create_database : Store := empty_store.

(** ** The session *)

(** [session.add_all(cache.values())]: a transient object becomes pending, an
    object the session already holds is left as it is. *)
Definition add_team (t : Team) : Team :=
  match team_state t with
  | Transient => mkTeam (team_id t) (team_name t) Pending
  | _ => t
  end.

Definition add_player (p : Player) : Player :=
  match player_state p with
  | Transient => mkPlayer (player_id p) (player_name p) Pending
  | _ => p
  end.

Definition add_all {A : Type} (f : A -> A) (d : pydict A) : pydict A :=
  map (fun kv => (fst kv, f (snd kv))) d.

(** SQLite's next integer primary key: one more than the largest in use. *)
Definition next_rowid (rows : list (Z * value)) : Z :=
  (fold_right Z.max 0 (map fst rows) + 1)%Z.

(** The flush of a successful commit, teams in the order they were added:
    each pending team is inserted under the next key and takes it as id. *)
Fixpoint flush_teams (tc : pydict Team) (rows : list (Z * value))
  : pydict Team * list (Z * value) :=
  match tc with
  | [] => ([], rows)
  | (k, t) :: r =>
      match team_state t with
      | Pending =>
          let i := next_rowid rows in
          let (r', rows') := flush_teams r (rows ++ [(i, team_name t)]) in
          ((k, mkTeam (VInt i) (team_name t) Persistent) :: r', rows')
      | _ =>
          let (r', rows') := flush_teams r rows in
          ((k, t) :: r', rows')
      end
  end.

Fixpoint flush_players (pc : pydict Player) (rows : list (value * string))
  : pydict Player * list (value * string) :=
  match pc with
  | [] => ([], rows)
  | (k, p) :: r =>
      match player_state p with
      | Pending =>
          let (r', rows') := flush_players r (rows ++ [(player_id p, player_name p)]) in
          ((k, mkPlayer (player_id p) (player_name p) Persistent) :: r', rows')
      | _ =>
          let (r', rows') := flush_players r rows in
          ((k, p) :: r', rows')
      end
  end.

Definition flush (st : State) : State :=
  let (tc, trows) := flush_teams (team_cache st) (tbl_teams (db st)) in
  let (pc, prows) := flush_players (player_cache st) (tbl_players (db st)) in
  mkState pc tc []
    (mkStore trows prows (tbl_matches (db st) ++ session_new st))
    (stdout st).

(** [session.rollback()]: pending objects leave the session, the store keeps
    what earlier commits wrote. *)
Definition expunge_team (t : Team) : Team :=
  match team_state t with
  | Pending => mkTeam (team_id t) (team_name t) Transient
  | _ => t
  end.

Definition expunge_player (p : Player) : Player :=
  match player_state p with
  | Pending => mkPlayer (player_id p) (player_name p) Transient
  | _ => p
  end.

Definition rollback (st : State) : State :=
  mkState (add_all expunge_player (player_cache st))
    (add_all expunge_team (team_cache st)) [] (db st) (stdout st).

(** ** Lines 105-113: players and teams into the caches *)

Fixpoint register_people (pc : pydict Player) (people : list (string * value))
  : result (pydict Player) :=
  match people with
  | [] => Ok pc
  | (name, pid) :: r =>
      fresh <- not_in pid pc ;;
      register_people
        (if fresh then pc ++ [(pid, mkPlayer pid name Transient)] else pc) r
  end.

Fixpoint register_teams (tc : pydict Team) (names : list value)
  : result (pydict Team) :=
  match names with
  | [] => Ok tc
  | team_name :: r =>
      fresh <- not_in team_name tc ;;
      register_teams
        (if fresh then tc ++ [(team_name, mkTeam VNone team_name Transient)] else tc) r
  end.

(** Lines 100-113. [content] is what [json.load] makes of the file, [None]
    when it raises. *)
Definition resolve_entities (pc : pydict Player) (tc : pydict Team)
    (content : option value) : result (value * pydict Player * pydict Team) :=
  data <- match content with Some d => Ok d | None => Raise JSONDecodeError end ;;
  info <- getitem data "info" ;;
  has_registry <- contains "registry" info ;;
  pc' <- (if has_registry
          then registry <- getitem info "registry" ;;
               has_people <- contains "people" registry ;;
               if has_people
               then registry <- getitem info "registry" ;;
                    people <- getitem registry "people" ;;
                    its <- items people ;;
                    register_people pc its
               else Ok pc
          else Ok pc) ;;
  teams <- getitem info "teams" ;;
  names <- iter teams ;;
  tc' <- register_teams tc names ;;
  Ok (data, pc', tc').

(** ** Lookups by name in the caches *)

(** [next(t.id for t in team_cache.values() if t.name == rhs)]. *)
Definition team_id_where (tc : pydict Team) (rhs : result value) : result value :=
  r <- next_where (fun t => x <- rhs ;; Ok (py_eq (team_name t) x)) (pyd_values tc) ;;
  match r with
  | Some t => Ok (team_id t)
  | None => Raise StopIteration
  end.

(** [next((t.id for t in team_cache.values() if t.name == rhs), None)]. *)
Definition team_id_or_none (tc : pydict Team) (rhs : result value) : result value :=
  r <- next_where (fun t => x <- rhs ;; Ok (py_eq (team_name t) x)) (pyd_values tc) ;;
  match r with
  | Some t => Ok (team_id t)
  | None => Ok VNone
  end.

(** [next((p.id for p in player_cache.values() if p.name == rhs), None)]. *)
Definition player_id_or_none (pc : pydict Player) (rhs : result value) : result value :=
  r <- next_where (fun p => x <- rhs ;; Ok (py_eq (VStr (player_name p)) x))
         (pyd_values pc) ;;
  match r with
  | Some p => Ok (player_id p)
  | None => Ok VNone
  end.

(** ** Lines 151-171: one delivery, one over, one innings *)

(** [[f['name'] for f in fielders]]. *)
Fixpoint fielder_names (fs : list value) : result (list value) :=
  match fs with
  | [] => Ok []
  | f :: r =>
      n <- getitem f "name" ;;
      ns <- fielder_names r ;;
      Ok (n :: ns)
  end.

(** Lines 153-170 for the delivery at position [p] (from 0) of its over. *)
Definition new_delivery (pc : pydict Player) (over_data : value) (p : nat)
    (delivery_data : value) : result Delivery :=
  wickets <- get delivery_data "wickets" (VList [VDict []]) ;;
  wicket_info <- getidx wickets 0 ;;
  batter <- player_id_or_none pc (getitem delivery_data "batter") ;;
  bowler <- player_id_or_none pc (getitem delivery_data "bowler") ;;
  non_striker <- player_id_or_none pc (getitem delivery_data "non_striker") ;;
  player_out <- player_id_or_none pc (get wicket_info "player_out" VNone) ;;
  declared <- getitem over_data "over" ;;
  listed <- getitem over_data "deliveries" ;;
  i <- index listed p delivery_data ;;
  frac <- div_float (Z.of_nat i + 1) ten ;;
  ov <- add_float declared frac ;;
  runs <- getitem delivery_data "runs" ;;
  rb <- getitem runs "batter" ;;
  runs <- getitem delivery_data "runs" ;;
  re <- getitem runs "extras" ;;
  runs <- getitem delivery_data "runs" ;;
  rt <- getitem runs "total" ;;
  has_extras <- contains "extras" delivery_data ;;
  et <- (if has_extras
         then extras <- get delivery_data "extras" (VDict []) ;;
              ks <- keys extras ;;
              getidx ks 0
         else Ok VNone) ;;
  kind <- get wicket_info "kind" VNone ;;
  fielders <- get wicket_info "fielders" VNone ;;
  wf <- (if truthy fielders
         then fielders <- get wicket_info "fielders" (VList []) ;;
              fs <- iter fielders ;;
              ns <- fielder_names fs ;;
              Ok (VList ns)
         else Ok VNone) ;;
  Ok {| over := ov;
        batter_id := batter; bowler_id := bowler; non_striker_id := non_striker;
        runs_batter := rb; runs_extras := re; runs_total := rt;
        extras_type := et;
        is_wicket := if truthy wicket_info then 1%Z else 0%Z;
        player_out_id := player_out;
        wicket_kind := kind;
        wicket_fielders := wf |}.

(** The inner loop of line 152, from position [p] on. *)
Fixpoint deliveries_from (pc : pydict Player) (over_data : value) (p : nat)
    (ds : list value) : result (list Delivery) :=
  match ds with
  | [] => Ok []
  | delivery_data :: r =>
      d <- new_delivery pc over_data p delivery_data ;;
      rest <- deliveries_from pc over_data (S p) r ;;
      Ok (d :: rest)
  end.

Definition over_deliveries (pc : pydict Player) (over_data : value)
  : result (list Delivery) :=
  listed <- getitem over_data "deliveries" ;;
  ds <- iter listed ;;
  deliveries_from pc over_data 0 ds.

(** The loop of line 151: the deliveries of all overs, appended in order. *)
Fixpoint overs_deliveries (pc : pydict Player) (overs : list value)
  : result (list Delivery) :=
  match overs with
  | [] => Ok []
  | over_data :: r =>
      ds <- over_deliveries pc over_data ;;
      rest <- overs_deliveries pc r ;;
      Ok (ds ++ rest)
  end.

(** Lines 148-171 for the innings at position [i] (from 0). *)
Definition new_inning (tc : pydict Team) (pc : pydict Player) (i : nat)
    (inning_data : value) : result Inning :=
  team <- team_id_where tc (getitem inning_data "team") ;;
  overs <- getitem inning_data "overs" ;;
  overs <- iter overs ;;
  ds <- overs_deliveries pc overs ;;
  Ok {| inning_number := Z.of_nat i + 1;
        batting_team_id := team;
        deliveries := ds |}.

Fixpoint innings_from (tc : pydict Team) (pc : pydict Player) (i : nat)
    (inns : list value) : result (list Inning) :=
  match inns with
  | [] => Ok []
  | inning_data :: r =>
      x <- new_inning tc pc i inning_data ;;
      rest <- innings_from tc pc (S i) r ;;
      Ok (x :: rest)
  end.

(** What a document step leaves: the next state, or the exception with what
    outlives the call (the store and the output). *)
Inductive step : Type :=
| Next (st : State)
| Failed (e : exn) (d : Store) (out : list string).

(** What a run leaves. *)
Inductive run_result : Type :=
| Returned (d : Store) (out : list string)
| Raised (e : exn) (d : Store) (out : list string).

Section Loader.

(** [pd.to_datetime(v).date()]. *)
Variable to_date : value -> result date.

(** The database's answer to a commit of the session in this state: the
    message of the exception, or [None] when it accepts. *)
Variable commit_error : State -> option string.

Definition commit (st : State) : result State :=
  match commit_error st with
  | Some msg => Raise (CommitError msg)
  | None => Ok (flush st)
  end.

(** Lines 122-144: the match row, its innings still empty. *)
Definition new_match (tc : pydict Team) (pc : pydict Player) (info : value)
    (file_name : string) : result Match :=
  outcome <- get info "outcome" (VDict []) ;;
  pom <- get info "player_of_match" (VList [VNone]) ;;
  player_of_match_name <- getidx pom 0 ;;
  player <- player_id_or_none pc (Ok player_of_match_name) ;;
  winner_team <- team_id_or_none tc (get outcome "winner" VNone) ;;
  season_ <- get info "season" VNone ;;
  venue_ <- get info "venue" VNone ;;
  city_ <- get info "city" VNone ;;
  dates <- getitem info "dates" ;;
  d0 <- getidx dates 0 ;;
  date_ <- to_date d0 ;;
  match_type_ <- get info "match_type" VNone ;;
  balls <- get info "balls_per_over" VNone ;;
  t1 <- team_id_where tc (teams <- getitem info "teams" ;; getidx teams 0) ;;
  t2 <- team_id_where tc (teams <- getitem info "teams" ;; getidx teams 1) ;;
  tw <- team_id_where tc (toss <- getitem info "toss" ;; getitem toss "winner") ;;
  toss <- getitem info "toss" ;;
  decision <- getitem toss "decision" ;;
  by1 <- get outcome "by" VNone ;;
  result_ <- (if truthy by1
              then by_ <- get outcome "by" (VDict []) ;;
                   ks <- keys by_ ;;
                   getidx ks 0
              else Ok VNone) ;;
  by2 <- get outcome "by" VNone ;;
  margin <- (if truthy by2
             then by_ <- get outcome "by" (VDict []) ;;
                  vs <- values by_ ;;
                  getidx vs 0
             else Ok VNone) ;;
  officials_ <- get info "officials" VNone ;;
  Ok {| match_id := splitext_root file_name;
        season := season_; venue := venue_; city := city_;
        match_date := date_;
        match_type := match_type_; balls_per_over := balls;
        team1_id := t1; team2_id := t2; toss_winner_id := tw;
        toss_decision := decision;
        winner_id := winner_team;
        outcome_result := result_; outcome_margin := margin;
        player_of_match_id := player;
        officials := officials_;
        innings := [] |}.

Definition with_innings (m : Match) (inns : list Inning) : Match :=
  mkMatch (match_id m) (season m) (venue m) (city m) (match_date m)
    (match_type m) (balls_per_over m) (team1_id m) (team2_id m)
    (toss_winner_id m) (toss_decision m) (winner_id m) (outcome_result m)
    (outcome_margin m) (player_of_match_id m) (officials m) inns.

(** Lines 121-172: the match of one document with its innings. *)
Definition assemble (tc : pydict Team) (pc : pydict Player) (data : value)
    (file_name : string) : result Match :=
  info <- getitem data "info" ;;
  m <- new_match tc pc info file_name ;;
  inns <- getitem data "innings" ;;
  inns <- iter inns ;;
  rows <- innings_from tc pc 0 inns ;;
  Ok (with_innings m rows).

(** Lines 99-174, the body of the loop over the files. *)
Definition process_document (st : State) (file : string * option value) : step :=
  let out := stdout st ++ [String.append "Processing " (String.append (fst file) "...")] in
  match resolve_entities (player_cache st) (team_cache st) (snd file) with
  | Raise e => Failed e (db st) out
  | Ok (data, pc, tc) =>
      let st1 := mkState (add_all add_player pc) (add_all add_team tc)
                   (session_new st) (db st) out in
      match commit st1 with
      | Raise e => Failed e (db st) out
      | Ok st2 =>
          match assemble (team_cache st2) (player_cache st2) data (fst file) with
          | Raise e => Failed e (db st2) out
          | Ok m =>
              Next (mkState (player_cache st2) (team_cache st2)
                      (session_new st2 ++ [m]) (db st2) out)
          end
      end
  end.

Fixpoint process_files (st : State) (files : list (string * option value)) : step :=
  match files with
  | [] => Next st
  | f :: r =>
      match process_document st f with
      | Next st' => process_files st' r
      | Failed e d out => Failed e d out
      end
  end.

(** Lines 176-183: the final commit. *)
Definition final_commit (st : State) : run_result :=
  match commit st with
  | Ok st' =>
      Returned (db st')
        (stdout st' ++ ["Successfully committed all data to the database."%string])
  | Raise e =>
      let msg := match e with CommitError m => m | _ => ""%string end in
      let st' := rollback st in
      Returned (db st')
        (stdout st' ++ [String.append "An error occurred during final commit: " msg])
  end.

Definition initial_state (d : Store) : State := mkState [] [] [] d [].

(** [process_and_load_data] on the entries of the data directory, each with
    what [json.load] makes of it, over the store [d]. *)
Definition process_and_load_data (d : Store) (dir : list (string * option value))
  : run_result :=
  let json_files := filter (fun f => endswith (fst f) ".json") dir in
  match process_files (initial_state d) json_files with
  | Next st => final_commit st
  | Failed e d' out => Raised e d' out
  end.

(** The script: [create_database()] then [process_and_load_data()]. *)
Definition main (dir : list (string * option value)) : run_result :=
  process_and_load_data create_database dir.

End Loader.

(** ** Sample scorecards *)

Definition ball (batter bowler non_striker : string) (rb re rt : Z)
    (more : list (string * value)) : value :=
  VDict ([("batter", VStr batter); ("bowler", VStr bowler);
          ("non_striker", VStr non_striker);
          ("runs", VDict [("batter", VInt rb); ("extras", VInt re);
                          ("total", VInt rt)])] ++ more).

Definition over_of (n : Z) (balls : list value) : value :=
  VDict [("over", VInt n); ("deliveries", VList balls)].

Definition scorecard (people : list (string * value)) (outcome : list (string * value))
    (overs : list value) : value :=
  VDict [("info",
          VDict [("teams", VList [VStr "Mumbai Indians"; VStr "Chennai Super Kings"]);
                 ("dates", VList [VStr "2008-04-23"]);
                 ("season", VStr "2008");
                 ("toss", VDict [("winner", VStr "Mumbai Indians");
                                 ("decision", VStr "bat")]);
                 ("outcome", VDict outcome);
                 ("registry", VDict [("people", VDict people)])]);
         ("innings",
          VList [VDict [("team", VStr "Mumbai Indians"); ("overs", VList overs)]])].

Definition squad : list (string * value) :=
  [("ST Jayasuriya", VStr "p1"); ("L Ronchi", VStr "p2"); ("MS Gony", VStr "p3")].

(** The scenario of two deliveries (4 and 0 off the bat) in over 1. *)
Definition two_balls : value :=
  scorecard squad [("winner", VStr "Mumbai Indians"); ("by", VDict [("runs", VInt 9)])]
    [over_of 1 [ball "ST Jayasuriya" "MS Gony" "L Ronchi" 4 0 4 [];
                ball "ST Jayasuriya" "MS Gony" "L Ronchi" 0 0 0 []]].

(** A date reader and two databases to run the loader with. *)
Definition iso_date (v : value) : result date :=
  match v with
  | VStr _ => Ok (mkDate 2008 4 23)
  | _ => Raise DateError
  end.

Definition accepting (st : State) : option string := None.

Definition refusing_matches (st : State) : option string :=
  match session_new st with
  | [] => None
  | _ => Some "database is locked"%string
  end.

(** An over of two identical dot balls. *)
Definition dot_ball : value := ball "ST Jayasuriya" "MS Gony" "L Ronchi" 0 0 0 [].

Definition two_dot_balls : value := over_of 0 [dot_ball; dot_ball].

(** Over 0 with twelve deliveries, no two of them equal, then over 1 with
    one. *)
Definition twelve_balls : list value :=
  map (fun k => ball "ST Jayasuriya" "MS Gony" "L Ronchi" k 0 k [])
    [0; 1; 2; 3; 4; 5; 6; 7; 8; 9; 10; 11]%Z.

Definition long_innings : value :=
  VDict [("team", VStr "Mumbai Indians");
         ("overs", VList [over_of 0 twelve_balls; over_of 1 [dot_ball]])].

Definition tidy_innings : value :=
  VDict [("team", VStr "Mumbai Indians");
         ("overs", VList [over_of 0 (firstn 6 twelve_balls); over_of 1 [dot_ball]])].

Definition mumbai_cache : pydict Team :=
  [(VStr "Mumbai Indians", mkTeam (VInt 1) (VStr "Mumbai Indians") Persistent)].

Definition both_teams : pydict Team :=
  [(VStr "Mumbai Indians", mkTeam (VInt 1) (VStr "Mumbai Indians") Persistent);
   (VStr "Chennai Super Kings",
    mkTeam (VInt 2) (VStr "Chennai Super Kings") Persistent)].

Definition squad_cache : pydict Player :=
  [(VStr "p1", mkPlayer (VStr "p1") "ST Jayasuriya" Persistent);
   (VStr "p2", mkPlayer (VStr "p2") "L Ronchi" Persistent);
   (VStr "p3", mkPlayer (VStr "p3") "MS Gony" Persistent)].


Definition bowled : value :=
  ball "ST Jayasuriya" "MS Gony" "L Ronchi" 0 0 0
    [("wickets", VList [VDict [("player_out", VStr "ST Jayasuriya");
                               ("kind", VStr "bowled")]])].

Definition empty_extras : value :=
  ball "ST Jayasuriya" "MS Gony" "L Ronchi" 0 0 0 [("extras", VDict [])].

Definition wide : value :=
  ball "ST Jayasuriya" "MS Gony" "L Ronchi" 0 1 1
    [("extras", VDict [("wides", VInt 1)])].

Definition empty_wickets : value :=
  ball "ST Jayasuriya" "MS Gony" "L Ronchi" 0 0 0 [("wickets", VList [])].

(** Scorecards built from them. *)
Definition second_match : value :=
  scorecard squad [] [over_of 0 [dot_ball; wide; bowled]].

Definition unregistered_batter : value :=
  scorecard squad [] [over_of 0 [ball "A Newcomer" "MS Gony" "L Ronchi" 1 0 1 []]].

Definition with_empty_wickets : value :=
  scorecard squad [] [over_of 0 [dot_ball; empty_wickets]].

(** ** Notions the properties are stated with *)

(** The value of an optional entry, [dflt] when it is missing. *)
Definition or_default (o : option value) (dflt : value) : value :=
  match o with Some x => x | None => dflt end.

(** The value the positional scheme gives position [k] (from 0) of the over
    declared [z]: the binary64 result of [z + (k + 1) / 10.0]. *)
Definition positional_over (z : Z) (k : nat) : result spec_float :=
  frac <- div_float (Z.of_nat k + 1) ten ;;
  add_float (VInt z) frac.

(** No element equals an earlier one. *)
Fixpoint distinct (ds : list value) : bool :=
  match ds with
  | [] => true
  | y :: r => forallb (fun x => negb (py_eq y x)) r && distinct r
  end.

(** Python's [x < y] on floats holds of every earlier and later element. *)
Definition strictly_increasing (fs : list spec_float) : Prop :=
  forall i j x y, (i < j)%nat ->
    nth_error fs i = Some x -> nth_error fs j = Some y -> SFltb x y = true.

Definition declared_over (over_data : value) : option Z :=
  match getitem over_data "over" with
  | Ok (VInt z) => Some z
  | _ => None
  end.

(** An over that lists at most ten deliveries, no two of them equal. *)
Definition positional (over_data : value) : bool :=
  match getitem over_data "deliveries" with
  | Ok (VList ds) => Nat.leb (List.length ds) 10 && distinct ds
  | _ => false
  end.

(** The declared over indices below which the order of the positional values
    is checked by computation. *)
Definition over_bound : Z := 1000.

(** A non-negative finite binary64 number in canonical form (mantissa below
    2^53) is ordered as the pair of its exponent and mantissa, which this key
    packs into one integer. *)
Definition float_key (f : spec_float) : option Z :=
  match f with
  | S754_finite false m e =>
      if (Z.pos m <? 9007199254740992)%Z
      then Some (e * 9007199254740992 + Z.pos m)%Z
      else None
  | _ => None
  end.

Definition over_key (z : nat) (k : nat) : option Z :=
  match positional_over (Z.of_nat z) k with
  | Ok f => float_key f
  | Raise _ => None
  end.

(** The keys of the ten positions of each of the overs [s .. s + n - 1]. *)
Definition over_keys (s n : nat) : list (option Z) :=
  flat_map (fun z => map (over_key z) (seq 0 10)) (seq s n).

Fixpoint ascending (ks : list (option Z)) : bool :=
  match ks with
  | [] => true
  | Some a :: r =>
      match r with
      | [] => true
      | Some b :: _ => (a <? b)%Z && ascending r
      | None :: _ => false
      end
  | None :: _ => false
  end.

(** The place of position [k] of the over declared [z] among all positions. *)
Definition slot (p : Z * nat) : Z := (10 * fst p + Z.of_nat (snd p))%Z.

(** [dd] is one of the deliveries the loops of lines 147-152 reach in the
    document [data]. *)
Definition delivery_of (data dd : value) : Prop :=
  exists inns inning_data overs over_data ds,
    (x <- getitem data "innings" ;; iter x) = Ok inns /\
    In inning_data inns /\
    (x <- getitem inning_data "overs" ;; iter x) = Ok overs /\
    In over_data overs /\
    (x <- getitem over_data "deliveries" ;; iter x) = Ok ds /\
    In dd ds.

(** Every row of [a] is still in [b], in place. *)
Definition store_extends (a b : Store) : Prop :=
  (exists t, tbl_teams b = tbl_teams a ++ t) /\
  (exists p, tbl_players b = tbl_players a ++ p) /\
  (exists m, tbl_matches b = tbl_matches a ++ m).

Definition is_json (f : string * option value) : bool := endswith (fst f) ".json".

Definition processing (file_name : string) : string :=
  String.append "Processing " (String.append file_name "...").

(** A reference that is the id of an object in a cache. *)
Definition team_ref (tc : pydict Team) (v : value) : Prop :=
  exists t, In t (pyd_values tc) /\ team_id t = v.

Definition player_ref (pc : pydict Player) (v : value) : Prop :=
  exists q, In q (pyd_values pc) /\ player_id q = v.

Definition null_or (P : value -> Prop) (v : value) : Prop := v = VNone \/ P v.

Definition delivery_refs (pc : pydict Player) (d : Delivery) : Prop :=
  null_or (player_ref pc) (batter_id d) /\
  null_or (player_ref pc) (bowler_id d) /\
  null_or (player_ref pc) (non_striker_id d) /\
  null_or (player_ref pc) (player_out_id d).

Definition inning_refs (tc : pydict Team) (pc : pydict Player) (inn : Inning) : Prop :=
  team_ref tc (batting_team_id inn) /\ Forall (delivery_refs pc) (deliveries inn).

Definition match_refs (tc : pydict Team) (pc : pydict Player) (m : Match) : Prop :=
  team_ref tc (team1_id m) /\
  team_ref tc (team2_id m) /\
  team_ref tc (toss_winner_id m) /\
  null_or (team_ref tc) (winner_id m) /\
  null_or (player_ref pc) (player_of_match_id m) /\
  Forall (inning_refs tc pc) (innings m).

(** Every cached object has been written by a commit. *)
Definition committed (st : State) : Prop :=
  Forall (fun t => team_state t = Persistent) (pyd_values (team_cache st)) /\
  Forall (fun q => player_state q = Persistent) (pyd_values (player_cache st)).

(** The number of team rows under a name. *)
Definition rows_named (name : value) (rows : list (Z * value)) : nat :=
  List.length (filter (fun r => py_eq (snd r) name) rows).

(** [name] is one of [info['teams']] of the document. *)
Definition references_team (data name : value) : Prop :=
  exists info names,
    getitem data "info" = Ok info /\
    (x <- getitem info "teams" ;; iter x) = Ok names /\
    In name names.

Definition unequal (a b : value) : Prop := py_eq a b = false.

(** What the loop keeps true of the team cache and the teams table: every
    cached team is committed, the table lists the cached names in cache
    order, and the keys are hashable and pairwise unequal. *)
Definition team_cache_inv (st : State) : Prop :=
  Forall (fun kt => team_state (snd kt) = Persistent) (team_cache st) /\
  map snd (tbl_teams (db st)) = map fst (team_cache st) /\
  ForallOrdPairs unequal (map fst (team_cache st)) /\
  Forall (fun k => hashable k = true) (map fst (team_cache st)).

(** The deliveries the loops of lines 151-152 visit in a list of overs, in
    document order. *)
Fixpoint listed_deliveries (overs : list value) : result (list value) :=
  match overs with
  | [] => Ok []
  | over_data :: r =>
      listed <- getitem over_data "deliveries" ;;
      ds <- iter listed ;;
      rest <- listed_deliveries r ;;
      Ok (ds ++ rest)
  end.

(** The row [d] carries the three run counts of the delivery [dd]. *)
Definition carries_runs (dd : value) (d : Delivery) : Prop :=
  exists runs,
    getitem dd "runs" = Ok runs /\
    getitem runs "batter" = Ok (runs_batter d) /\
    getitem runs "extras" = Ok (runs_extras d) /\
    getitem runs "total" = Ok (runs_total d).

(** Sample registries and deliveries for the further properties. *)
Definition namesakes : pydict Player :=
  [(VStr "p1", mkPlayer (VStr "p1") "R Sharma" Persistent);
   (VStr "p2", mkPlayer (VStr "p2") "MS Gony" Persistent);
   (VStr "p3", mkPlayer (VStr "p3") "R Sharma" Persistent)].

Definition caught : value :=
  ball "ST Jayasuriya" "MS Gony" "L Ronchi" 0 0 0
    [("wickets",
      VList [VDict [("player_out", VStr "ST Jayasuriya"); ("kind", VStr "caught");
                    ("fielders", VList [VDict [("name", VStr "L Ronchi")];
                                        VDict [("name", VStr "A Substitute")]])]])].

Definition two_innings : value :=
  VDict [("info",
          VDict [("teams", VList [VStr "Mumbai Indians"; VStr "Chennai Super Kings"]);
                 ("dates", VList [VStr "2008-04-23"]);
                 ("toss", VDict [("winner", VStr "Chennai Super Kings");
                                 ("decision", VStr "field")])]);
         ("innings",
          VList [VDict [("team", VStr "Mumbai Indians");
                        ("overs", VList [over_of 0 [dot_ball; wide];
                                         over_of 1 [caught]])];
                 VDict [("team", VStr "Chennai Super Kings");
                        ("overs", VList [over_of 0 [dot_ball; dot_ball; bowled]])]])].

(** A cached object and the table row a commit wrote for it. *)
Definition team_row (kt : value * Team) (row : Z * value) : Prop :=
  fst kt = snd row /\ snd kt = mkTeam (VInt (fst row)) (snd row) Persistent.

Definition player_row (kq : value * Player) (row : value * string) : Prop :=
  fst kq = fst row /\ snd kq = mkPlayer (fst row) (snd row) Persistent.

(** The number of player rows under an id. *)
Definition rows_with_id (pid : value) (rows : list (value * string)) : nat :=
  List.length (filter (fun r => py_eq (fst r) pid) rows).

(** A reference that is the key of a row of the store. *)
Definition team_row_ref (d : Store) (v : value) : Prop :=
  exists i n, In (i, n) (tbl_teams d) /\ v = VInt i.

Definition player_row_ref (d : Store) (v : value) : Prop :=
  exists n, In (v, n) (tbl_players d).

Definition delivery_rows_refs (d : Store) (x : Delivery) : Prop :=
  null_or (player_row_ref d) (batter_id x) /\
  null_or (player_row_ref d) (bowler_id x) /\
  null_or (player_row_ref d) (non_striker_id x) /\
  null_or (player_row_ref d) (player_out_id x).

Definition inning_rows_refs (d : Store) (inn : Inning) : Prop :=
  team_row_ref d (batting_team_id inn) /\
  Forall (delivery_rows_refs d) (deliveries inn).

Definition match_rows_refs (d : Store) (m : Match) : Prop :=
  team_row_ref d (team1_id m) /\
  team_row_ref d (team2_id m) /\
  team_row_ref d (toss_winner_id m) /\
  null_or (team_row_ref d) (winner_id m) /\
  null_or (player_row_ref d) (player_of_match_id m) /\
  Forall (inning_rows_refs d) (innings m).

(** What the loop keeps true over a fresh store: both caches mirror their
    tables, entry by entry; the player keys are hashable and pairwise
    unequal; the team ids are 1, 2, ... in table order; and every match,
    stored or pending, refers to rows of the store. *)
Definition store_inv (st : State) : Prop :=
  Forall2 team_row (team_cache st) (tbl_teams (db st)) /\
  Forall2 player_row (player_cache st) (tbl_players (db st)) /\
  ForallOrdPairs unequal (map fst (player_cache st)) /\
  Forall (fun k => hashable k = true) (map fst (player_cache st)) /\
  map fst (tbl_teams (db st))
  = map Z.of_nat (seq 1 (List.length (tbl_teams (db st)))) /\
  Forall (match_rows_refs (db st)) (tbl_matches (db st) ++ session_new st).

(** A scorecard whose registry gives a known id another name. *)
Definition renamed_player : value :=
  scorecard [("Sanath Jayasuriya", VStr "p1"); ("Z Khan", VStr "p4")] []
    [over_of 0 [ball "Z Khan" "MS Gony" "L Ronchi" 1 0 1 []]].

(** The reference [v] is the key of a team row whose name equals what [rhs]
    evaluates to. *)
Definition names_row (d : Store) (v : value) (rhs : result value) : Prop :=
  exists i n x,
    v = VInt i /\ In (i, n) (tbl_teams d) /\ rhs = Ok x /\ py_eq n x = true.

(** ** src/main.py: the text of the model's answer

    The strings of [get_sql_from_llm] are lists of code points, so that
    [str.strip] removes what Python counts as white space. *)

(** [ch.isspace()] as [str.strip()] tests it. *)
Definition isspace (c : N) : bool :=
  (N.leb 9 c && N.leb c 13) || (N.leb 28 c && N.leb c 32) ||
  N.eqb c 133 || N.eqb c 160 || N.eqb c 5760 ||
  (N.leb 8192 c && N.leb c 8202) ||
  N.eqb c 8232 || N.eqb c 8233 || N.eqb c 8239 || N.eqb c 8287 ||
  N.eqb c 12288.

Fixpoint lstrip (s : list N) : list N :=
  match s with
  | [] => []
  | c :: r => if isspace c then lstrip r else s
  end.

Definition rstrip (s : list N) : list N := rev (lstrip (rev s)).

(** [s.strip()]. *)
Definition strip (s : list N) : list N := lstrip (rstrip s).

Fixpoint startswith (pat s : list N) : bool :=
  match pat, s with
  | [], _ => true
  | _ :: _, [] => false
  | p :: pat', c :: s' => N.eqb p c && startswith pat' s'
  end.

(** [s.replace(old, new)] for a non-empty [old]: one pass from the left,
    the occurrences found not overlapping. [fuel] bounds the characters
    left. *)
Fixpoint replace_from (fuel : nat) (old new s : list N) : list N :=
  match fuel with
  | O => s
  | S n =>
      match s with
      | [] => []
      | c :: r =>
          if startswith old s
          then new ++ replace_from n old new (skipn (List.length old) s)
          else c :: replace_from n old new r
      end
  end.

Definition replace (old new s : list N) : list N :=
  replace_from (List.length s) old new s.

Definition sql_word : list N := [115; 113; 108]%N.
Definition fence : list N := [96; 96; 96]%N.
Definition newline : list N := [10]%N.
Definition blank : list N := [32]%N.

(** Lines 146-157. [answer] is [response.text], [None] when the call to the
    model or the reading of its text raises; the result is the query, [None]
    for Python's [None]. *)
Definition get_sql_from_llm (answer : option (list N)) : option (list N) :=
  match answer with
  | Some text =>
      Some (strip (replace newline blank
                     (replace fence [] (replace sql_word [] (strip text)))))
  | None => None
  end.

(** [pat] occurs nowhere in [s]. *)
Definition absent (pat s : list N) : Prop := forall a b, s <> a ++ pat ++ b.

(** The number of leading back quotes. *)
Fixpoint leading_ticks (s : list N) : nat :=
  match s with
  | c :: r => if N.eqb c 96 then S (leading_ticks r) else 0
  | [] => 0
  end.

(** Whether [pat] starts at some position of [s]. *)
Fixpoint occurs (pat s : list N) : bool :=
  match s with
  | [] => startswith pat []
  | _ :: r => startswith pat s || occurs pat r
  end.

(** A fenced answer: a code fence, the word sql, a query on two lines, a
    closing fence. *)
Definition fenced_answer : list N :=
  ([96; 96; 96; 115; 113; 108; 10;
    83; 69; 76; 69; 67; 84; 32; 49; 10; 70; 82; 79; 77; 32; 116; 59; 10;
    96; 96; 96; 10])%N.

Definition plain_answer : list N :=
  ([32; 83; 69; 76; 69; 67; 84; 32; 49; 59; 32])%N.

(** The first cached team, and the first cached player, of a name. *)
Definition team_named (tc : pydict Team) (name : value) : option Team :=
  find (fun t => py_eq (team_name t) name) (pyd_values tc).

Definition player_named (pc : pydict Player) (name : value) : option Player :=
  find (fun q => py_eq (VStr (player_name q)) name) (pyd_values pc).

Definition id_or_null {A : Type} (id : A -> value) (o : option A) : value :=
  match o with
  | Some a => id a
  | None => VNone
  end.

(** [v] is the id of the first cached team of the name that [rhs] gives. *)
Definition team_resolved (tc : pydict Team) (rhs : result value) (v : value)
  : Prop :=
  exists name t, rhs = Ok name /\ team_named tc name = Some t /\ team_id t = v.

(** [v] is the id of the first cached team, or player, of the name that
    [rhs] gives, and null when the cache has none of that name; over an
    empty cache the name is not looked at. *)
Definition team_resolved_or_null (tc : pydict Team) (rhs : result value)
    (v : value) : Prop :=
  (tc = [] /\ v = VNone) \/
  exists name, rhs = Ok name /\ v = id_or_null team_id (team_named tc name).

Definition player_resolved_or_null (pc : pydict Player) (rhs : result value)
    (v : value) : Prop :=
  (pc = [] /\ v = VNone) \/
  exists name, rhs = Ok name /\ v = id_or_null player_id (player_named pc name).

(** [delivery_data.get('wickets', [{}])[0].get('player_out')]. *)
Definition wicket_player_out (delivery_data : value) : result value :=
  wickets <- get delivery_data "wickets" (VList [VDict []]) ;;
  wicket_info <- getidx wickets 0 ;;
  get wicket_info "player_out" VNone.

(** The four player references of the row [d] are what the names of the
    delivery [dd] resolve to. *)
Definition delivery_resolved (pc : pydict Player) (dd : value) (d : Delivery)
  : Prop :=
  player_resolved_or_null pc (getitem dd "batter") (batter_id d) /\
  player_resolved_or_null pc (getitem dd "bowler") (bowler_id d) /\
  player_resolved_or_null pc (getitem dd "non_striker") (non_striker_id d) /\
  player_resolved_or_null pc (wicket_player_out dd) (player_out_id d).

Definition inning_resolved (tc : pydict Team) (pc : pydict Player)
    (inning_data : value) (inn : Inning) : Prop :=
  team_resolved tc (getitem inning_data "team") (batting_team_id inn) /\
  exists overs dds,
    (x <- getitem inning_data "overs" ;; iter x) = Ok overs /\
    listed_deliveries overs = Ok dds /\
    Forall2 (delivery_resolved pc) dds (deliveries inn).

Definition match_resolved (tc : pydict Team) (pc : pydict Player)
    (data : value) (m : Match) : Prop :=
  exists info inns,
    getitem data "info" = Ok info /\
    team_resolved tc (teams <- getitem info "teams" ;; getidx teams 0)
      (team1_id m) /\
    team_resolved tc (teams <- getitem info "teams" ;; getidx teams 1)
      (team2_id m) /\
    team_resolved tc (toss <- getitem info "toss" ;; getitem toss "winner")
      (toss_winner_id m) /\
    team_resolved_or_null tc
      (outcome <- get info "outcome" (VDict []) ;; get outcome "winner" VNone)
      (winner_id m) /\
    player_resolved_or_null pc
      (pom <- get info "player_of_match" (VList [VNone]) ;; getidx pom 0)
      (player_of_match_id m) /\
    (x <- getitem data "innings" ;; iter x) = Ok inns /\
    Forall2 (inning_resolved tc pc) inns (innings m).






(** * Properties *)

(** ** Reading results *)

Lemma bind_ok {A B : Type} (m : result A) (k : A -> result B) (b : B) :
  bind m k = Ok b -> exists a, m = Ok a /\ k a = Ok b.
Proof.
  destruct m as [a | e]; simpl; intros H; [ | discriminate H ].
  exists a; split; [ reflexivity | exact H ].
Qed.

(** Splits [H : x <- m ;; ... = Ok _] into the results of its steps. *)
Ltac ok_steps H :=
  repeat (let a := fresh "a" in
          let E := fresh "E" in
          apply bind_ok in H; destruct H as (a & E & H); cbv beta in H).

Lemma get_dict (v : value) (k : string) (dflt x : value) :
  get v k dflt = Ok x ->
  exists d, v = VDict d /\ x = match assoc k d with Some y => y | None => dflt end.
Proof.
  destruct v; simpl; intros H; try discriminate H.
  injection H as <-. eexists; split; reflexivity.
Qed.

Lemma getitem_dict (v : value) (k : string) (x : value) :
  getitem v k = Ok x -> exists d, v = VDict d /\ assoc k d = Some x.
Proof.
  destruct v; simpl; intros H; try discriminate H.
  destruct (assoc k d) eqn:E; [ | discriminate H ].
  injection H as <-. eexists; split; [ reflexivity | exact E ].
Qed.

(** ** What a built delivery says about its input *)

Lemma new_delivery_inv (pc : pydict Player) (over_data : value) (p : nat)
    (delivery_data : value) (d : Delivery) :
  new_delivery pc over_data p delivery_data = Ok d ->
  exists fields wicket declared listed i runs,
    delivery_data = VDict fields /\
    getidx (or_default (assoc "wickets" fields) (VList [VDict []])) 0
      = Ok (VDict wicket) /\
    getitem over_data "over" = Ok declared /\
    getitem over_data "deliveries" = Ok listed /\
    index listed p delivery_data = Ok i /\
    (frac <- div_float (Z.of_nat i + 1) ten ;; add_float declared frac)
      = Ok (over d) /\
    player_id_or_none pc (getitem delivery_data "batter") = Ok (batter_id d) /\
    player_id_or_none pc (getitem delivery_data "bowler") = Ok (bowler_id d) /\
    player_id_or_none pc (getitem delivery_data "non_striker")
      = Ok (non_striker_id d) /\
    player_id_or_none pc (Ok (or_default (assoc "player_out" wicket) VNone))
      = Ok (player_out_id d) /\
    assoc "runs" fields = Some runs /\
    getitem runs "batter" = Ok (runs_batter d) /\
    getitem runs "extras" = Ok (runs_extras d) /\
    getitem runs "total" = Ok (runs_total d) /\
    match assoc "extras" fields with
    | Some extras => (ks <- keys extras ;; getidx ks 0) = Ok (extras_type d)
    | None => extras_type d = VNone
    end /\
    is_wicket d = (if truthy (VDict wicket) then 1%Z else 0%Z) /\
    wicket_kind d = or_default (assoc "kind" wicket) VNone /\
    (truthy (or_default (assoc "fielders" wicket) VNone) = false ->
     wicket_fielders d = VNone).
Proof.
  intros H. unfold new_delivery in H. ok_steps H.
  injection H as <-. cbn [over batter_id bowler_id non_striker_id runs_batter
    runs_extras runs_total extras_type is_wicket player_out_id wicket_kind
    wicket_fielders].
  destruct (get_dict _ _ _ _ E) as [fields [-> Ha]].
  destruct (get_dict _ _ _ _ E18) as [wicket [-> Hk]].
  destruct (get_dict _ _ _ _ E19) as [wicket' [Hw Hf]].
  injection Hw as <-.
  destruct (getitem_dict _ _ _ E10) as [fields' [Hfs Hruns]].
  injection Hfs as <-.
  rewrite E10 in E12, E14. injection E12 as <-. injection E14 as <-.
  assert (Hx : match assoc "extras" fields with
               | Some extras => (ks <- keys extras ;; getidx ks 0) = Ok a17
               | None => a17 = VNone
               end).
  { simpl in E16. injection E16 as <-.
    simpl in E17. destruct (assoc "extras" fields) as [extras | ].
    - exact E17.
    - injection E17 as <-. reflexivity. }
  assert (Hnf : truthy (or_default (assoc "fielders" wicket) VNone) = false ->
                a20 = VNone).
  { subst a19. intros Hfalse. unfold or_default in Hfalse.
    rewrite Hfalse in E20. injection E20 as <-. reflexivity. }
  assert (Hov : (frac <- div_float (Z.of_nat a7 + 1) ten ;; add_float a5 frac)
                = Ok a9).
  { rewrite E8. exact E9. }
  subst a. simpl in E4.
  exists fields, wicket, a5, a6, a7, a10.
  repeat match goal with |- _ /\ _ => split end;
    first [ reflexivity | assumption ].
Qed.

(** ** Extras and runs of a delivery *)

(** C9 (amended): for every delivery that is built, extras_type is the first
    key of the extras object when that object is present with at least one
    key, and null when the delivery has no extras key; runs_batter,
    runs_extras and runs_total are the three entries of the delivery's runs
    object. *)
Theorem extras_type_first_key (pc : pydict Player) (over_data : value) (p : nat)
    (delivery_data : value) (d : Delivery) :
  new_delivery pc over_data p delivery_data = Ok d ->
  exists fields runs,
    delivery_data = VDict fields /\
    (forall k v rest,
        assoc "extras" fields = Some (VDict ((k, v) :: rest)) ->
        extras_type d = VStr k) /\
    (assoc "extras" fields = None -> extras_type d = VNone) /\
    assoc "runs" fields = Some runs /\
    getitem runs "batter" = Ok (runs_batter d) /\
    getitem runs "extras" = Ok (runs_extras d) /\
    getitem runs "total" = Ok (runs_total d).
Proof.
  intros H.
  destruct (new_delivery_inv _ _ _ _ _ H)
    as (fields & wicket & declared & listed & i & runs & -> & _ & _ & _ & _ & _
        & _ & _ & _ & _ & Hruns & Hb & He & Ht & Hx & _).
  exists fields, runs. repeat split; try assumption.
  - intros k v rest Hsome. rewrite Hsome in Hx. simpl in Hx.
    injection Hx as Hx. symmetry. exact Hx.
  - intros Hnone. rewrite Hnone in Hx. exact Hx.
Qed.

Lemma extras_type_first_key_witness :
  exists d, new_delivery squad_cache (over_of 0 [wide]) 0 wide = Ok d /\
            extras_type d = VStr "wides".
Proof.
  eexists. split; [ vm_compute; reflexivity | ].
  match goal with
  | |- extras_type ?d = _ =>
      destruct (extras_type_first_key squad_cache (over_of 0 [wide]) 0 wide d
                  eq_refl)
        as (fields & runs & Hd & Hfirst & _)
  end.
  unfold wide, ball in Hd. cbn [app] in Hd. injection Hd as Hd. subst fields.
  apply (Hfirst "wides" (VInt 1) []). reflexivity.
Defined.

(** C9, as stated, fails where the extras object is present but empty: the
    first key of an empty key list is taken and no delivery is built. *)
Lemma empty_extras_raises :
  new_delivery squad_cache (over_of 0 [empty_extras]) 0 empty_extras
    = Raise IndexError /\
  contains "extras" empty_extras = Ok true.
Proof. split; vm_compute; reflexivity. Qed.

(** ** Wickets *)

Lemma next_where_never {A : Type} (cond : A -> result bool) (xs : list A) :
  (forall x, In x xs -> cond x = Ok false) -> next_where cond xs = Ok None.
Proof.
  induction xs as [ | x r IH]; intros Hc; simpl; [ reflexivity | ].
  rewrite (Hc x (or_introl eq_refl)). simpl.
  apply IH. intros y Hy. apply Hc. right. exact Hy.
Qed.


Lemma getidx0_dict (w : value) (wicket : list (string * value)) :
  getidx w 0 = Ok (VDict wicket) -> exists l, w = VList (VDict wicket :: l).
Proof.
  destruct w as [ | b | z | s | l | d ]; simpl; intros H; try discriminate H.
  - destruct s as [ | c s ]; simpl in H; [ discriminate H | ].
    injection H as H. discriminate H.
  - destruct l as [ | x l ]; simpl in H; [ discriminate H | ].
    injection H as ->. exists l. reflexivity.
Qed.




(** ** The over value *)

(** C1: the loader takes the position of a delivery with [list.index], which
    finds the first equal delivery; in an over of two identical dot balls
    both rows get the over value 0.1, the second not the positional 0.2. *)
Theorem repeated_delivery_over_value :
  exists d1 d2,
    over_deliveries squad_cache two_dot_balls = Ok [d1; d2] /\
    positional_over 0 0 = Ok (over d1) /\
    positional_over 0 0 = Ok (over d2) /\
    exists f, positional_over 0 1 = Ok f /\
              SFeqb (over d2) f = false /\ SFltb (over d2) f = true.
Proof.
  do 2 eexists. split; [ vm_compute; reflexivity | ].
  split; [ reflexivity | ]. split; [ reflexivity | ].
  eexists. split; [ vm_compute; reflexivity | ].
  split; reflexivity.
Qed.

Lemma distinct_earlier (ds : list value) :
  distinct ds = true ->
  forall j k y x, (j < k)%nat ->
    nth_error ds j = Some y -> nth_error ds k = Some x -> py_eq y x = false.
Proof.
  induction ds as [ | a r IH]; intros Hd j k y x Hjk Hj Hk.
  - destruct j; discriminate Hj.
  - simpl in Hd. apply andb_true_iff in Hd. destruct Hd as [Ha Hr].
    destruct k as [ | k ]; [ lia | ]. simpl in Hk.
    destruct j as [ | j ]; simpl in Hj.
    + injection Hj as <-.
      rewrite forallb_forall in Ha.
      apply nth_error_In in Hk. apply Ha in Hk.
      apply negb_true_iff. exact Hk.
    + apply (IH Hr j k); [ lia | assumption | assumption ].
Qed.

Lemma index_from_position (x : value) (p : nat) (l : list value) :
  forall i, (i <= p)%nat -> (p - i < List.length l)%nat ->
    (forall j y, (j < p - i)%nat -> nth_error l j = Some y -> py_eq y x = false) ->
    index_from x p l i = Ok p.
Proof.
  induction l as [ | y r IH]; intros i Hip Hlen Hne; simpl in Hlen; [ lia | ].
  simpl. destruct (Nat.eqb i p) eqn:Eip.
  - apply Nat.eqb_eq in Eip. subst i. reflexivity.
  - apply Nat.eqb_neq in Eip. simpl.
    rewrite (Hne 0%nat y); [ | lia | reflexivity ].
    apply IH; [ lia | lia | ].
    intros j z Hj Hz. apply (Hne (S j)); [ lia | exact Hz ].
Qed.

Lemma skipn_cons_nth {A : Type} (l : list A) :
  forall p x r, skipn p l = x :: r ->
    nth_error l p = Some x /\ skipn (S p) l = r /\ (p < List.length l)%nat.
Proof.
  induction l as [ | a l IH]; intros p x r H.
  - destruct p; discriminate H.
  - destruct p as [ | p ]; simpl in H.
    + injection H as -> ->. repeat split. simpl. lia.
    + destruct (IH p x r H) as (Hn & Hs & Hl).
      repeat split; [ exact Hn | exact Hs | simpl; lia ].
Qed.

(** Where no delivery of the over equals an earlier one, every row of the
    over carries the positional value. *)
Lemma deliveries_from_positional (pc : pydict Player) (over_data : value)
    (z : Z) (ds : list value) :
  getitem over_data "over" = Ok (VInt z) ->
  getitem over_data "deliveries" = Ok (VList ds) ->
  distinct ds = true ->
  forall rest p out,
    skipn p ds = rest ->
    deliveries_from pc over_data p rest = Ok out ->
    map (fun d => Ok (over d)) out
    = map (positional_over z) (seq p (List.length rest)).
Proof.
  intros Hz Hds Hdist rest.
  induction rest as [ | dd r IH]; intros p out Hskip H; simpl in H.
  - injection H as <-. reflexivity.
  - ok_steps H. injection H as <-.
    destruct (skipn_cons_nth _ _ _ _ Hskip) as (Hnth & Hrest & Hlt).
    destruct (new_delivery_inv _ _ _ _ _ E)
      as (fields & wicket & declared & listed & i & runs & _ & _ & Hdecl
          & Hlisted & Hidx & Hadd & _).
    rewrite Hz in Hdecl. injection Hdecl as <-.
    rewrite Hds in Hlisted. injection Hlisted as <-.
    simpl in Hidx.
    rewrite index_from_position in Hidx.
    + injection Hidx as <-.
      change (positional_over z p = Ok (over a)) in Hadd.
      cbn [map List.length seq]. rewrite Hadd. f_equal.
      apply IH; [ exact Hrest | exact E0 ].
    + lia.
    + lia.
    + intros j y Hj Hy. rewrite Nat.sub_0_r in Hj.
      apply (distinct_earlier ds Hdist j p); assumption.
Qed.

(** *** The order of binary64 numbers through their keys *)

Lemma float_key_lt (x y : spec_float) (a b : Z) :
  float_key x = Some a -> float_key y = Some b -> (a < b)%Z ->
  SFltb x y = true.
Proof.
  destruct x as [ | | | [ | ] m e ]; simpl; try discriminate.
  destruct y as [ | | | [ | ] m' e' ]; simpl; try discriminate.
  destruct (Z.pos m <? 9007199254740992)%Z eqn:Hm; [ | discriminate ].
  destruct (Z.pos m' <? 9007199254740992)%Z eqn:Hm'; [ | discriminate ].
  intros Ha Hb Hab. injection Ha as <-. injection Hb as <-.
  apply Z.ltb_lt in Hm, Hm'.
  unfold SFltb, SFcompare.
  destruct (Z.compare e e') eqn:Hc.
  - apply Z.compare_eq in Hc. subst e'.
    assert (Hlt : (m < m')%positive) by lia.
    apply Pos.compare_lt_iff in Hlt. unfold Pos.compare in Hlt.
    rewrite Hlt. reflexivity.
  - reflexivity.
  - apply Z.compare_gt_iff in Hc. exfalso. nia.
Qed.

Lemma ascending_tail (a : option Z) (r : list (option Z)) :
  ascending (a :: r) = true -> ascending r = true.
Proof.
  destruct a as [ a | ]; [ | discriminate ].
  destruct r as [ | [ b | ] r ]; try discriminate; [ reflexivity | ].
  cbn [ascending]. intros H. apply andb_true_iff in H. exact (proj2 H).
Qed.

(** In an ascending list, every entry is a key and earlier keys are below
    later ones. *)
Lemma ascending_nth (ks : list (option Z)) :
  ascending ks = true ->
  forall i j x y, (i < j)%nat ->
    nth_error ks i = Some x -> nth_error ks j = Some y ->
    exists a b, x = Some a /\ y = Some b /\ (a < b)%Z.
Proof.
  induction ks as [ | h r IH]; intros Hasc i j x y Hij Hi Hj.
  - destruct i; discriminate Hi.
  - destruct j as [ | j ]; [ lia | ]. cbn [nth_error] in Hj.
    destruct i as [ | i ].
    + cbn [nth_error] in Hi. injection Hi as <-.
      clear Hij. revert h r IH Hasc y Hj.
      induction j as [ | j IHj ]; intros h r IH Hasc y Hj.
      * destruct h as [ a | ]; [ | discriminate Hasc ].
        destruct r as [ | [ b | ] r ]; try discriminate.
        cbn [nth_error] in Hj. injection Hj as <-.
        cbn [ascending] in Hasc. apply andb_true_iff in Hasc.
        exists a, b. repeat split. apply Z.ltb_lt. exact (proj1 Hasc).
      * destruct h as [ a | ]; [ | discriminate Hasc ].
        destruct r as [ | [ b | ] r ]; try discriminate.
        cbn [nth_error] in Hj.
        pose proof Hasc as Hasc'.
        cbn [ascending] in Hasc. apply andb_true_iff in Hasc.
        destruct Hasc as [Hab Hr]. apply Z.ltb_lt in Hab.
        destruct (IHj (Some b) r) with (y := y)
          as (b' & c & Hb & Hc & Hbc).
        -- intros Hr' i' j' x' y' Hij' Hi' Hj'.
           apply (IH (ascending_tail _ _ Hasc') (S i') (S j') x' y');
             [ lia | exact Hi' | exact Hj' ].
        -- exact Hr.
        -- exact Hj.
        -- injection Hb as <-. exists a, c. repeat split; [ exact Hc | lia ].
    + cbn [nth_error] in Hi.
      apply (IH (ascending_tail _ _ Hasc) i j); [ lia | exact Hi | exact Hj ].
Qed.

Lemma over_keys_nth (n : nat) :
  forall s z k, (z < n)%nat -> (k < 10)%nat ->
    nth_error (over_keys s n) (10 * z + k) = Some (over_key (s + z) k).
Proof.
  unfold over_keys.
  induction n as [ | n IH]; intros s z k Hz Hk; [ lia | ].
  change (seq s (S n)) with (s :: seq (S s) n). cbn [flat_map].
  destruct z as [ | z ].
  - rewrite nth_error_app1 by (rewrite length_map, length_seq; lia).
    rewrite Nat.mul_0_r, Nat.add_0_l, Nat.add_0_r.
    rewrite nth_error_map, nth_error_seq.
    destruct (Nat.ltb_spec k 10) as [ _ | Hge ]; [ reflexivity | lia ].
  - rewrite nth_error_app2 by (rewrite length_map, length_seq; lia).
    rewrite length_map, length_seq.
    replace (10 * S z + k - 10)%nat with (10 * z + k)%nat by lia.
    rewrite IH by lia. f_equal. f_equal. lia.
Qed.

Lemma bounded_keys_ascending :
  ascending (over_keys 0 (Z.to_nat over_bound)) = true.
Proof. vm_compute. reflexivity. Qed.

(** Below [over_bound], an earlier slot has the smaller binary64 value. *)
Lemma positional_over_lt (p q : Z * nat) (x y : spec_float) :
  (0 <= fst p < over_bound)%Z -> (0 <= fst q < over_bound)%Z ->
  (snd p < 10)%nat -> (snd q < 10)%nat ->
  (slot p < slot q)%Z ->
  positional_over (fst p) (snd p) = Ok x ->
  positional_over (fst q) (snd q) = Ok y ->
  SFltb x y = true.
Proof.
  destruct p as [z k], q as [z' k']. unfold slot. cbn [fst snd].
  intros Hz Hz' Hk Hk' Hlt Hx Hy.
  assert (Hn : (Z.to_nat z < Z.to_nat over_bound)%nat) by lia.
  assert (Hn' : (Z.to_nat z' < Z.to_nat over_bound)%nat) by lia.
  assert (Hij : (10 * Z.to_nat z + k < 10 * Z.to_nat z' + k')%nat) by lia.
  pose proof (over_keys_nth _ 0 _ k Hn Hk) as Hi.
  pose proof (over_keys_nth _ 0 _ k' Hn' Hk') as Hj.
  destruct (ascending_nth _ bounded_keys_ascending _ _ _ _ Hij Hi Hj)
    as (a & b & Ha & Hb & Hab).
  unfold over_key in Ha, Hb. cbn [Nat.add] in Ha, Hb.
  rewrite Z2Nat.id in Ha, Hb by lia.
  rewrite Hx in Ha. rewrite Hy in Hb.
  exact (float_key_lt x y a b Ha Hb Hab).
Qed.

Lemma StronglySorted_app {A : Type} (R : A -> A -> Prop) (l1 l2 : list A) :
  StronglySorted R l1 -> StronglySorted R l2 ->
  (forall x y, In x l1 -> In y l2 -> R x y) ->
  StronglySorted R (l1 ++ l2).
Proof.
  induction l1 as [ | a l1 IH]; intros H1 H2 Hx; simpl; [ exact H2 | ].
  inversion H1 as [ | a' l' Hs Hf ]; subst.
  constructor.
  - apply IH; [ exact Hs | exact H2 | ].
    intros x y Hin Hy. apply Hx; [ right; exact Hin | exact Hy ].
  - apply Forall_app. split; [ exact Hf | ].
    apply Forall_forall. intros y Hy. apply Hx; [ left; reflexivity | exact Hy ].
Qed.

Lemma StronglySorted_nth {A : Type} (R : A -> A -> Prop) (l : list A) :
  StronglySorted R l ->
  forall i j x y, (i < j)%nat ->
    nth_error l i = Some x -> nth_error l j = Some y -> R x y.
Proof.
  induction 1 as [ | a l Hs IH Hf ]; intros i j x y Hij Hi Hj.
  - destruct i; discriminate Hi.
  - destruct j as [ | j ]; [ lia | ]. simpl in Hj.
    destruct i as [ | i ]; simpl in Hi.
    + injection Hi as <-. rewrite Forall_forall in Hf.
      apply Hf. apply (nth_error_In _ _ Hj).
    + apply (IH i j); [ lia | exact Hi | exact Hj ].
Qed.

Lemma positional_run_sorted (z : Z) (n : nat) :
  forall s,
    StronglySorted (fun p q => (slot p < slot q)%Z) (map (pair z) (seq s n)).
Proof.
  induction n as [ | n IH]; intros s; simpl; constructor.
  - apply IH.
  - apply Forall_forall. intros q Hq.
    apply in_map_iff in Hq. destruct Hq as (k & <- & Hk).
    apply in_seq in Hk. unfold slot. cbn [fst snd]. lia.
Qed.

Lemma positional_inv (over_data : value) :
  positional over_data = true ->
  exists ds, getitem over_data "deliveries" = Ok (VList ds) /\
             (List.length ds <= 10)%nat /\ distinct ds = true.
Proof.
  unfold positional. intros H.
  destruct (getitem over_data "deliveries") as [ v | e ]; [ | discriminate H ].
  destruct v; try discriminate H.
  apply andb_true_iff in H. destruct H as [Hl Hd].
  apply Nat.leb_le in Hl. exists l. repeat split; assumption.
Qed.

Lemma declared_over_inv (over_data : value) (z : Z) :
  declared_over over_data = Some z -> getitem over_data "over" = Ok (VInt z).
Proof.
  unfold declared_over. intros H.
  destruct (getitem over_data "over") as [ v | e ]; [ | discriminate H ].
  destruct v; try discriminate H. injection H as ->. reflexivity.
Qed.

(** The rows of a run of overs, each over positional and the declared indices
    increasing: each row carries the positional value of a slot, a position
    below ten of one of the declared indices, and the slots increase. *)
Lemma overs_deliveries_slots (pc : pydict Player) :
  forall overs zs out,
    map declared_over overs = map Some zs ->
    StronglySorted Z.lt zs ->
    Forall (fun o => positional o = true) overs ->
    overs_deliveries pc overs = Ok out ->
    exists slots,
      map (fun d => Ok (over d)) out
      = map (fun p => positional_over (fst p) (snd p)) slots /\
      StronglySorted (fun p q => (slot p < slot q)%Z) slots /\
      Forall (fun p => In (fst p) zs /\ (snd p < 10)%nat) slots.
Proof.
  induction overs as [ | o r IH]; intros zs out Hzs Hsorted Hpos H; simpl in H.
  - injection H as <-. exists []. repeat split; constructor.
  - destruct zs as [ | z zs ]; [ discriminate Hzs | ].
    simpl in Hzs. injection Hzs as Hz Hzs.
    inversion Hsorted as [ | z' zs' Hs Hlt ]; subst.
    inversion Hpos as [ | o' r' Ho Hr ]; subst.
    ok_steps H. injection H as <-.
    destruct (positional_inv _ Ho) as (ds & Hds & Hlen & Hdist).
    unfold over_deliveries in E. rewrite Hds in E. simpl in E.
    pose proof (deliveries_from_positional pc o z ds (declared_over_inv _ _ Hz)
                  Hds Hdist ds 0%nat a eq_refl E) as Hmap.
    destruct (IH zs a0 Hzs Hs Hr E0) as (slots & IHm & IHs & IHf).
    exists (map (pair z) (seq 0 (List.length ds)) ++ slots).
    split; [ | split ].
    + rewrite !map_app, Hmap, IHm, map_map. reflexivity.
    + apply StronglySorted_app; [ apply positional_run_sorted | exact IHs | ].
      intros x y Hx Hy.
      apply in_map_iff in Hx. destruct Hx as (k & <- & Hk).
      apply in_seq in Hk.
      rewrite Forall_forall in IHf. destruct (IHf y Hy) as [Hin _].
      rewrite Forall_forall in Hlt. apply Hlt in Hin.
      unfold slot. cbn [fst snd]. lia.
    + apply Forall_app. split.
      * apply Forall_forall. intros q Hq.
        apply in_map_iff in Hq. destruct Hq as (k & <- & Hk).
        apply in_seq in Hk. cbn [fst snd].
        split; [ left; reflexivity | lia ].
      * apply Forall_forall. intros q Hq.
        rewrite Forall_forall in IHf. destruct (IHf q Hq) as [Hin Hk].
        split; [ right; exact Hin | exact Hk ].
Qed.

Lemma map_nth_error_inv {A B : Type} (f : A -> B) (l : list A) (i : nat)
    (y : B) :
  nth_error (map f l) i = Some y -> exists x, nth_error l i = Some x /\ f x = y.
Proof.
  rewrite nth_error_map. destruct (nth_error l i) as [ x | ]; simpl; intros H.
  - injection H as <-. exists x. split; reflexivity.
  - discriminate H.
Qed.

(** C2 (amended): in an innings whose overs declare integer indices in
    increasing order, all of them from 0 up to (not including) [over_bound],
    each over listing at most ten deliveries of which no two are equal, the
    over values of the rows, binary64 numbers, strictly increase in document
    order. *)
Theorem over_strictly_increasing (tc : pydict Team) (pc : pydict Player)
    (i : nat) (inning_data : value) (overs : list value) (zs : list Z)
    (inn : Inning) :
  new_inning tc pc i inning_data = Ok inn ->
  getitem inning_data "overs" = Ok (VList overs) ->
  map declared_over overs = map Some zs ->
  Sorted Z.lt zs ->
  Forall (fun z => (0 <= z < over_bound)%Z) zs ->
  Forall (fun o => positional o = true) overs ->
  strictly_increasing (map over (deliveries inn)).
Proof.
  intros H Hovers Hzs Hsorted Hbound Hpos.
  unfold new_inning in H. ok_steps H. injection H as <-. simpl.
  rewrite Hovers in E0. injection E0 as <-. simpl in E1. injection E1 as <-.
  assert (Hss : StronglySorted Z.lt zs).
  { apply Sorted_StronglySorted; [ | exact Hsorted ].
    intros x y z; apply Z.lt_trans. }
  destruct (overs_deliveries_slots pc overs zs a2 Hzs Hss Hpos E2)
    as (slots & Hmap & Hs & Hf).
  intros n n' x y Hn Hx Hy.
  apply map_nth_error_inv in Hx. destruct Hx as (d & Hd & <-).
  apply map_nth_error_inv in Hy. destruct Hy as (d' & Hd' & <-).
  pose proof (map_nth_error (fun d => Ok (over d)) _ _ Hd) as Hr.
  pose proof (map_nth_error (fun d => Ok (over d)) _ _ Hd') as Hr'.
  rewrite Hmap in Hr, Hr'.
  apply map_nth_error_inv in Hr. destruct Hr as (p & Hp & Hpv).
  apply map_nth_error_inv in Hr'. destruct Hr' as (q & Hq & Hqv).
  rewrite Forall_forall in Hf, Hbound.
  destruct (Hf p (nth_error_In _ _ Hp)) as [Hpz Hpk].
  destruct (Hf q (nth_error_In _ _ Hq)) as [Hqz Hqk].
  apply (positional_over_lt p q);
    [ apply Hbound; exact Hpz | apply Hbound; exact Hqz | exact Hpk | exact Hqk
    | exact (StronglySorted_nth _ _ Hs n n' p q Hn Hp Hq)
    | exact Hpv | exact Hqv ].
Qed.

Lemma over_strictly_increasing_witness :
  exists inn,
    new_inning mumbai_cache squad_cache 0 tidy_innings = Ok inn /\
    strictly_increasing (map over (deliveries inn)).
Proof.
  eexists. split; [ vm_compute; reflexivity | ].
  apply (over_strictly_increasing mumbai_cache squad_cache 0 tidy_innings
           [over_of 0 (firstn 6 twelve_balls); over_of 1 [dot_ball]]
           [0; 1]%Z).
  - vm_compute. reflexivity.
  - reflexivity.
  - reflexivity.
  - repeat constructor.
  - repeat constructor; unfold over_bound; lia.
  - repeat constructor.
Defined.

(** C2, as stated, fails on an over of twelve different deliveries: the
    declared indices 0 and 1 increase, yet the twelfth row of over 0 gets 1.2
    and the first row of over 1 gets 1.1. *)
Lemma long_over_not_increasing :
  exists inn,
    new_inning mumbai_cache squad_cache 0 long_innings = Ok inn /\
    map declared_over [over_of 0 twelve_balls; over_of 1 [dot_ball]]
      = [Some 0; Some 1]%Z /\
    distinct twelve_balls = true /\
    ~ strictly_increasing (map over (deliveries inn)).
Proof.
  eexists. split; [ vm_compute; reflexivity | ].
  split; [ reflexivity | ]. split; [ reflexivity | ].
  intros H.
  specialize (H 11%nat 12%nat _ _ (Nat.lt_succ_diag_r 11) eq_refl eq_refl).
  vm_compute in H. discriminate H.
Qed.

(** The bound on the declared index cannot be dropped: at the index 2^53 the
    binary64 sum absorbs the fraction, and the first two positions of the over
    get one and the same value. *)
Lemma huge_over_values_collapse :
  exists f,
    positional_over 9007199254740992 0 = Ok f /\
    positional_over 9007199254740992 1 = Ok f /\
    SFltb f f = false.
Proof.
  eexists. split; [ vm_compute; reflexivity | ].
  split; vm_compute; reflexivity.
Qed.

(** An over index beyond the binary64 range stops the build of the row with
    OverflowError. *)
Lemma over_index_overflow (f : spec_float) :
  add_float (VInt (2 ^ 1024)) f = Raise OverflowError.
Proof. vm_compute. reflexivity. Qed.

(** ** The match row *)

Section MatchProperties.

Variable to_date : value -> result date.

Lemma new_match_inv (tc : pydict Team) (pc : pydict Player) (info : value)
    (file_name : string) (m : Match) :
  new_match to_date tc pc info file_name = Ok m ->
  exists o name,
    get info "outcome" (VDict []) = Ok (VDict o) /\
    player_id_or_none pc (Ok name) = Ok (player_of_match_id m) /\
    team_id_or_none tc (Ok (or_default (assoc "winner" o) VNone))
      = Ok (winner_id m) /\
    team_id_where tc (teams <- getitem info "teams" ;; getidx teams 0)
      = Ok (team1_id m) /\
    team_id_where tc (teams <- getitem info "teams" ;; getidx teams 1)
      = Ok (team2_id m) /\
    team_id_where tc (toss <- getitem info "toss" ;; getitem toss "winner")
      = Ok (toss_winner_id m) /\
    (if truthy (or_default (assoc "by" o) VNone)
     then (ks <- keys (or_default (assoc "by" o) VNone) ;; getidx ks 0)
          = Ok (outcome_result m)
     else outcome_result m = VNone) /\
    (if truthy (or_default (assoc "by" o) VNone)
     then (vs <- values (or_default (assoc "by" o) VNone) ;; getidx vs 0)
          = Ok (outcome_margin m)
     else outcome_margin m = VNone) /\
    innings m = [].
Proof.
  intros H. unfold new_match in H. ok_steps H.
  injection H as <-. cbn [player_of_match_id winner_id team1_id team2_id
    toss_winner_id outcome_result outcome_margin innings].
  destruct (get_dict _ _ _ _ E17) as [o [-> Hby1]].
  destruct (get_dict _ _ _ _ E19) as [o' [Ho Hby2]].
  injection Ho as <-.
  exists o, a1.
  assert (Hr : if truthy (or_default (assoc "by" o) VNone)
               then (ks <- keys (or_default (assoc "by" o) VNone) ;; getidx ks 0)
                    = Ok a18
               else a18 = VNone).
  { subst a17. unfold or_default. simpl in E18.
    destruct (assoc "by" o) as [ by_ | ]; simpl in *.
    - destruct (truthy by_); [ exact E18 | ].
      injection E18 as <-. reflexivity.
    - injection E18 as <-. reflexivity. }
  assert (Hm : if truthy (or_default (assoc "by" o) VNone)
               then (vs <- values (or_default (assoc "by" o) VNone) ;; getidx vs 0)
                    = Ok a20
               else a20 = VNone).
  { subst a19. unfold or_default. simpl in E20.
    destruct (assoc "by" o) as [ by_ | ]; simpl in *.
    - destruct (truthy by_); [ exact E20 | ].
      injection E20 as <-. reflexivity.
    - injection E20 as <-. reflexivity. }
  simpl in E3.
  repeat match goal with |- _ /\ _ => split end;
    first [ reflexivity | assumption ].
Qed.

Lemma assemble_inv (tc : pydict Team) (pc : pydict Player) (data : value)
    (file_name : string) (m : Match) :
  assemble to_date tc pc data file_name = Ok m ->
  exists info m0 inns,
    getitem data "info" = Ok info /\
    new_match to_date tc pc info file_name = Ok m0 /\
    (x <- getitem data "innings" ;; iter x) = Ok inns /\
    innings_from tc pc 0 inns = Ok (innings m) /\
    m = with_innings m0 (innings m).
Proof.
  intros H. unfold assemble in H. ok_steps H. injection H as <-.
  exists a, a0, a2. rewrite E1. simpl.
  repeat match goal with |- _ /\ _ => split end;
    first [ reflexivity | assumption ].
Qed.

(** C8: the match of a document has, as (outcome_result, outcome_margin), the
    first key and value of the outcome's [by] object when there is one, and
    null twice when the outcome has no [by] entry (as it has for a [by]
    object without entries, which has no first pair). *)
Theorem outcome_first_pair (tc : pydict Team) (pc : pydict Player) (data : value)
    (file_name : string) (m : Match) :
  assemble to_date tc pc data file_name = Ok m ->
  exists info o,
    getitem data "info" = Ok info /\
    get info "outcome" (VDict []) = Ok (VDict o) /\
    (forall k v rest,
        assoc "by" o = Some (VDict ((k, v) :: rest)) ->
        outcome_result m = VStr k /\ outcome_margin m = v) /\
    (assoc "by" o = None -> outcome_result m = VNone /\ outcome_margin m = VNone) /\
    (assoc "by" o = Some (VDict []) ->
     outcome_result m = VNone /\ outcome_margin m = VNone).
Proof.
  intros H.
  destruct (assemble_inv _ _ _ _ _ H) as (info & m0 & inns & Hinfo & Hm0 & _ & _ & ->).
  destruct (new_match_inv _ _ _ _ _ Hm0)
    as (o & name & Ho & _ & _ & _ & _ & _ & Hr & Hm & _).
  exists info, o. split; [ exact Hinfo | ]. split; [ exact Ho | ].
  cbn [with_innings outcome_result outcome_margin]. split; [ | split ].
  - intros k v rest Hby. rewrite Hby in Hr, Hm. simpl in Hr, Hm.
    injection Hr as <-. injection Hm as <-. split; reflexivity.
  - intros Hby. rewrite Hby in Hr, Hm. simpl in Hr, Hm. split; assumption.
  - intros Hby. rewrite Hby in Hr, Hm. simpl in Hr, Hm. split; assumption.
Qed.

End MatchProperties.

Lemma outcome_first_pair_witness :
  (exists m,
     assemble iso_date both_teams squad_cache two_balls "335982.json" = Ok m /\
     outcome_result m = VStr "runs" /\ outcome_margin m = VInt 9) /\
  (exists m,
     assemble iso_date both_teams squad_cache second_match "335983.json" = Ok m /\
     outcome_result m = VNone /\ outcome_margin m = VNone).
Proof.
  split.
  - eexists. split; [ vm_compute; reflexivity | ].
    match goal with
    | |- outcome_result ?m = _ /\ _ =>
        destruct (outcome_first_pair iso_date both_teams squad_cache two_balls
                    "335982.json" m eq_refl)
          as (info & o & Hinfo & Ho & Hfirst & _)
    end.
    vm_compute in Hinfo. injection Hinfo as Hinfo. subst info.
    vm_compute in Ho. injection Ho as Ho. subst o.
    apply (Hfirst "runs" (VInt 9) []). reflexivity.
  - eexists. split; [ vm_compute; reflexivity | ].
    match goal with
    | |- outcome_result ?m = _ /\ _ =>
        destruct (outcome_first_pair iso_date both_teams squad_cache
                    second_match "335983.json" m eq_refl)
          as (info & o & Hinfo & Ho & _ & Hnone & _)
    end.
    vm_compute in Hinfo. injection Hinfo as Hinfo. subst info.
    vm_compute in Ho. injection Ho as Ho. subst o.
    apply Hnone. reflexivity.
Defined.

(** ** The run over the files *)

Lemma flush_teams_extends (tc : pydict Team) :
  forall rows, exists more, snd (flush_teams tc rows) = rows ++ more.
Proof.
  induction tc as [ | [k t] r IH]; intros rows; simpl.
  - exists []. rewrite app_nil_r. reflexivity.
  - destruct (team_state t).
    + destruct (IH rows) as [more Hm].
      destruct (flush_teams r rows) as [r' rows']. exists more. exact Hm.
    + destruct (IH (rows ++ [(next_rowid rows, team_name t)])) as [more Hm].
      destruct (flush_teams r _) as [r' rows']. simpl in *.
      exists ((next_rowid rows, team_name t) :: more).
      rewrite Hm, <- app_assoc. reflexivity.
    + destruct (IH rows) as [more Hm].
      destruct (flush_teams r rows) as [r' rows']. exists more. exact Hm.
Qed.

Lemma flush_players_extends (pc : pydict Player) :
  forall rows, exists more, snd (flush_players pc rows) = rows ++ more.
Proof.
  induction pc as [ | [k q] r IH]; intros rows; simpl.
  - exists []. rewrite app_nil_r. reflexivity.
  - destruct (player_state q).
    + destruct (IH rows) as [more Hm].
      destruct (flush_players r rows) as [r' rows']. exists more. exact Hm.
    + destruct (IH (rows ++ [(player_id q, player_name q)])) as [more Hm].
      destruct (flush_players r _) as [r' rows']. simpl in *.
      exists ((player_id q, player_name q) :: more).
      rewrite Hm, <- app_assoc. reflexivity.
    + destruct (IH rows) as [more Hm].
      destruct (flush_players r rows) as [r' rows']. exists more. exact Hm.
Qed.

Lemma store_extends_refl (a : Store) : store_extends a a.
Proof.
  repeat split; exists []; rewrite app_nil_r; reflexivity.
Qed.

Lemma store_extends_trans (a b c : Store) :
  store_extends a b -> store_extends b c -> store_extends a c.
Proof.
  intros ([t1 H1] & [p1 H2] & [m1 H3]) ([t2 H4] & [p2 H5] & [m2 H6]).
  repeat split.
  - exists (t1 ++ t2). rewrite H4, H1, app_assoc. reflexivity.
  - exists (p1 ++ p2). rewrite H5, H2, app_assoc. reflexivity.
  - exists (m1 ++ m2). rewrite H6, H3, app_assoc. reflexivity.
Qed.

Lemma flush_extends (st : State) : store_extends (db st) (db (flush st)).
Proof.
  unfold flush.
  destruct (flush_teams_extends (team_cache st) (tbl_teams (db st))) as [t Ht].
  destruct (flush_players_extends (player_cache st) (tbl_players (db st))) as [q Hq].
  destruct (flush_teams _ _) as [tc trows].
  destruct (flush_players _ _) as [pc prows].
  simpl in *. repeat split; simpl.
  - exists t. exact Ht.
  - exists q. exact Hq.
  - exists (session_new st). reflexivity.
Qed.

Lemma flush_session (st : State) : session_new (flush st) = [].
Proof.
  unfold flush.
  destruct (flush_teams _ _) as [tc trows].
  destruct (flush_players _ _) as [pc prows]. reflexivity.
Qed.

Section RunProperties.

Variable to_date : value -> result date.
Variable commit_error : State -> option string.

Lemma commit_ok (st st' : State) :
  commit commit_error st = Ok st' -> commit_error st = None /\ st' = flush st.
Proof.
  unfold commit. destruct (commit_error st); intros H; [ discriminate H | ].
  injection H as <-. split; reflexivity.
Qed.

Lemma process_document_inv (st st' : State) (file : string * option value) :
  process_document to_date commit_error st file = Next st' ->
  exists data pc tc st2 m,
    snd file = Some data /\
    resolve_entities (player_cache st) (team_cache st) (snd file)
      = Ok (data, pc, tc) /\
    st2 = flush (mkState (add_all add_player pc) (add_all add_team tc)
                   (session_new st) (db st)
                   (stdout st ++ [processing (fst file)])) /\
    assemble to_date (team_cache st2) (player_cache st2) data (fst file) = Ok m /\
    st' = mkState (player_cache st2) (team_cache st2) [m] (db st2)
            (stdout st ++ [processing (fst file)]).
Proof.
  unfold process_document. intros H.
  destruct (resolve_entities _ _ _) as [ [[data pc] tc] | e ] eqn:Er;
    [ | discriminate H ].
  destruct (commit _ _) as [ st2 | e ] eqn:Ec; [ | discriminate H ].
  destruct (assemble _ _ _ _ _) as [ m | e ] eqn:Ea; [ | discriminate H ].
  injection H as <-.
  destruct (commit_ok _ _ Ec) as [_ ->].
  exists data, pc, tc, (flush (mkState (add_all add_player pc)
    (add_all add_team tc) (session_new st) (db st)
    (stdout st ++ [processing (fst file)]))), m.
  assert (Hd : snd file = Some data).
  { unfold resolve_entities in Er. destruct (snd file) as [ d0 | ].
    - simpl in Er. ok_steps Er. injection Er as <- _ _. reflexivity.
    - discriminate Er. }
  rewrite flush_session. simpl.
  repeat match goal with |- _ /\ _ => split end;
    first [ reflexivity | assumption ].
Qed.

Lemma process_files_app (st : State) (a b : list (string * option value)) :
  process_files to_date commit_error st (a ++ b) =
  match process_files to_date commit_error st a with
  | Next st' => process_files to_date commit_error st' b
  | Failed e d out => Failed e d out
  end.
Proof.
  revert st. induction a as [ | f a IH]; intros st; simpl; [ reflexivity | ].
  destruct (process_document to_date commit_error st f); [ apply IH | reflexivity ].
Qed.

Lemma process_files_in (files : list (string * option value)) :
  forall st st' f,
    process_files to_date commit_error st files = Next st' ->
    In f files ->
    exists st1 st2, process_document to_date commit_error st1 f = Next st2.
Proof.
  induction files as [ | g r IH]; intros st st' f H Hin; [ destruct Hin | ].
  simpl in H.
  destruct (process_document to_date commit_error st g) as [ st1 | ] eqn:Eg;
    [ | discriminate H ].
  destruct Hin as [ -> | Hin ].
  - exists st, st1. exact Eg.
  - apply (IH st1 st' f H Hin).
Qed.

Lemma process_document_extends (st st' : State) (file : string * option value) :
  process_document to_date commit_error st file = Next st' ->
  store_extends (db st) (db st').
Proof.
  intros H.
  destruct (process_document_inv _ _ _ H)
    as (data & pc & tc & st2 & m & _ & _ & -> & _ & ->).
  simpl. apply (flush_extends (mkState _ _ _ _ _)).
Qed.

Lemma process_files_extends (files : list (string * option value)) :
  forall st st',
    process_files to_date commit_error st files = Next st' ->
    store_extends (db st) (db st').
Proof.
  induction files as [ | f r IH]; intros st st' H; simpl in H.
  - injection H as <-. apply store_extends_refl.
  - destruct (process_document to_date commit_error st f) as [ st1 | ] eqn:Ef;
      [ | discriminate H ].
    apply (store_extends_trans _ (db st1)).
    + apply (process_document_extends _ _ _ Ef).
    + apply (IH _ _ H).
Qed.

(** C4 (amended): a file that is not valid structured data makes the run
    raise at that file: the parse error leaves [process_and_load_data], no
    later file is read, no list of skipped files is kept and the final commit
    is not attempted; the store holds what the commits of the earlier
    documents wrote. *)
Theorem malformed_document_aborts (d : Store)
    (pre rest : list (string * option value)) (name : string) (st : State) :
  process_files to_date commit_error (initial_state d) (filter is_json pre)
    = Next st ->
  endswith name ".json" = true ->
  process_and_load_data to_date commit_error d (pre ++ (name, None) :: rest)
    = Raised JSONDecodeError (db st) (stdout st ++ [processing name]).
Proof.
  intros Hpre Hname. unfold process_and_load_data.
  change (fun f : string * option value => endswith (fst f) ".json") with is_json.
  rewrite filter_app. simpl. unfold is_json at 2. simpl. rewrite Hname.
  rewrite process_files_app, Hpre. reflexivity.
Qed.

(** C7 (amended): when the final commit fails, the loader prints the error,
    rolls the session back and returns normally, no exception reaching the
    caller; the store is the one the last commit inside the loop left, so
    the rows of every earlier commit remain and the pending matches are not
    written. *)
Theorem final_commit_failure_returns (d : Store)
    (dir : list (string * option value)) (st : State) (msg : string) :
  process_files to_date commit_error (initial_state d) (filter is_json dir)
    = Next st ->
  commit_error st = Some msg ->
  process_and_load_data to_date commit_error d dir
    = Returned (db st)
        (stdout st ++ [String.append "An error occurred during final commit: " msg])
  /\ (forall pre post st1,
        filter is_json dir = pre ++ post ->
        process_files to_date commit_error (initial_state d) pre = Next st1 ->
        store_extends (db st1) (db st)).
Proof.
  intros Hrun Hfail. split.
  - unfold process_and_load_data.
    change (fun f : string * option value => endswith (fst f) ".json") with is_json.
    rewrite Hrun. unfold final_commit, commit. rewrite Hfail. reflexivity.
  - intros pre post st1 Hsplit Hpre.
    rewrite Hsplit, process_files_app, Hpre in Hrun.
    apply (process_files_extends _ _ _ Hrun).
Qed.

End RunProperties.

Lemma malformed_document_aborts_witness :
  main iso_date accepting
    ([("335982.json", Some two_balls)]
       ++ ("broken.json", None) :: [("335983.json", Some second_match)])
  = Raised JSONDecodeError
      (mkStore [(1%Z, VStr "Mumbai Indians"); (2%Z, VStr "Chennai Super Kings")]
         [(VStr "p1", "ST Jayasuriya"); (VStr "p2", "L Ronchi");
          (VStr "p3", "MS Gony")] [])
      ["Processing 335982.json..."; "Processing broken.json..."].
Proof.
  unfold main.
  rewrite (malformed_document_aborts iso_date accepting create_database
             [("335982.json", Some two_balls)]
             [("335983.json", Some second_match)] "broken.json"
             (match process_files iso_date accepting (initial_state create_database)
                      [("335982.json", Some two_balls)] with
              | Next st => st
              | Failed _ _ _ => initial_state create_database
              end)).
  - vm_compute. reflexivity.
  - vm_compute. reflexivity.
  - vm_compute. reflexivity.
Defined.

(** C4, as stated, fails: after a file that does not parse, the run neither
    returns nor reaches the next document. *)
Lemma malformed_document_stops_run :
  main iso_date accepting
    [("broken.json", None); ("335982.json", Some two_balls)]
  = Raised JSONDecodeError empty_store ["Processing broken.json..."]
  /\ (forall d out,
        main iso_date accepting
          [("broken.json", None); ("335982.json", Some two_balls)]
        <> Returned d out).
Proof.
  split; [ vm_compute; reflexivity | ].
  intros d out H. vm_compute in H. discriminate H.
Qed.

Lemma final_commit_failure_returns_witness :
  main iso_date refusing_matches [("335982.json", Some two_balls)]
  = Returned
      (mkStore [(1%Z, VStr "Mumbai Indians"); (2%Z, VStr "Chennai Super Kings")]
         [(VStr "p1", "ST Jayasuriya"); (VStr "p2", "L Ronchi");
          (VStr "p3", "MS Gony")] [])
      ["Processing 335982.json...";
       "An error occurred during final commit: database is locked"].
Proof.
  unfold main.
  destruct (final_commit_failure_returns iso_date refusing_matches
              create_database [("335982.json", Some two_balls)]
              (match process_files iso_date refusing_matches
                       (initial_state create_database)
                       [("335982.json", Some two_balls)] with
               | Next st => st
               | Failed _ _ _ => initial_state create_database
               end)
              "database is locked") as [H _].
  - vm_compute. reflexivity.
  - vm_compute. reflexivity.
  - rewrite H. vm_compute. reflexivity.
Defined.

(** C7, as stated, fails: the failure of the final commit is not passed to
    the caller, the call returns as it does after a success. *)
Lemma final_commit_failure_not_raised :
  (exists d,
      main iso_date refusing_matches [("335982.json", Some two_balls)]
      = Returned d
          ["Processing 335982.json...";
           "An error occurred during final commit: database is locked"]
      /\ tbl_matches d = [])
  /\ (forall e d out,
        main iso_date refusing_matches [("335982.json", Some two_balls)]
        <> Raised e d out).
Proof.
  split.
  - eexists. split; [ vm_compute; reflexivity | reflexivity ].
  - intros e d out H. vm_compute in H. discriminate H.
Qed.

(** ** Every delivery of a loaded document was built *)

Lemma deliveries_from_all (pc : pydict Player) (over_data : value) :
  forall ds p out,
    deliveries_from pc over_data p ds = Ok out ->
    forall dd, In dd ds -> exists q d, new_delivery pc over_data q dd = Ok d.
Proof.
  induction ds as [ | x r IH]; intros p out H dd Hin; [ destruct Hin | ].
  simpl in H. ok_steps H.
  destruct Hin as [ <- | Hin ].
  - exists p, a. exact E.
  - apply (IH (S p) a0 E0 dd Hin).
Qed.

Lemma overs_deliveries_all (pc : pydict Player) :
  forall overs out,
    overs_deliveries pc overs = Ok out ->
    forall over_data, In over_data overs ->
      exists out1, over_deliveries pc over_data = Ok out1.
Proof.
  induction overs as [ | x r IH]; intros out H od Hin; [ destruct Hin | ].
  simpl in H. ok_steps H.
  destruct Hin as [ <- | Hin ].
  - exists a. exact E.
  - apply (IH a0 E0 od Hin).
Qed.

Lemma innings_from_all (tc : pydict Team) (pc : pydict Player) :
  forall inns i out,
    innings_from tc pc i inns = Ok out ->
    forall x, In x inns -> exists j inn, new_inning tc pc j x = Ok inn.
Proof.
  induction inns as [ | y r IH]; intros i out H x Hin; [ destruct Hin | ].
  simpl in H. ok_steps H.
  destruct Hin as [ <- | Hin ].
  - exists i, a. exact E.
  - apply (IH (S i) a0 E0 x Hin).
Qed.

Lemma empty_wickets_raise (pc : pydict Player) (over_data : value) (p : nat)
    (dd : value) :
  getitem dd "wickets" = Ok (VList []) ->
  new_delivery pc over_data p dd = Raise IndexError.
Proof.
  intros H. destruct (getitem_dict _ _ _ H) as [fields [-> Hw]].
  unfold new_delivery. simpl. rewrite Hw. reflexivity.
Qed.

Section Uncaught.

Variable to_date : value -> result date.
Variable commit_error : State -> option string.

Lemma assemble_builds (tc : pydict Team) (pc : pydict Player) (data : value)
    (file_name : string) (m : Match) (dd : value) :
  assemble to_date tc pc data file_name = Ok m ->
  delivery_of data dd ->
  exists over_data q d, new_delivery pc over_data q dd = Ok d.
Proof.
  intros H (inns & inning_data & overs & over_data & ds
            & Hinns & Hi & Hovers & Ho & Hds & Hd).
  destruct (assemble_inv _ _ _ _ _ _ H) as (info & m0 & inns' & _ & _ & Hinns' & Hrows & _).
  rewrite Hinns in Hinns'. injection Hinns' as <-.
  destruct (innings_from_all _ _ _ _ _ Hrows _ Hi) as (j & inn & Hinn).
  unfold new_inning in Hinn. ok_steps Hinn.
  assert (Hsame : a1 = overs).
  { rewrite E0 in Hovers. simpl in Hovers. rewrite E1 in Hovers.
    injection Hovers as <-. reflexivity. }
  subst a1.
  destruct (overs_deliveries_all _ _ _ E2 _ Ho) as (out1 & Hout1).
  unfold over_deliveries in Hout1. ok_steps Hout1.
  assert (Hsame : a3 = ds).
  { rewrite E3 in Hds. simpl in Hds. rewrite E4 in Hds.
    injection Hds as <-. reflexivity. }
  subst a3.
  destruct (deliveries_from_all _ _ _ _ _ Hout1 _ Hd) as (q & d & Hq).
  exists over_data, q, d. exact Hq.
Qed.

(** C10: a delivery whose wickets entry is an empty list makes the building
    of its row raise IndexError, and the run that reaches it in a json file
    of the directory ends in an exception instead of returning; a delivery is
    built only if its wickets entry, when present, is a non-empty list. *)
Theorem empty_wickets_abort (d : Store) (dir : list (string * option value))
    (name : string) (data dd : value) :
  In (name, Some data) dir ->
  endswith name ".json" = true ->
  delivery_of data dd ->
  getitem dd "wickets" = Ok (VList []) ->
  (forall pc over_data p, new_delivery pc over_data p dd = Raise IndexError) /\
  (exists e d' out,
      process_and_load_data to_date commit_error d dir = Raised e d' out) /\
  (forall pc over_data p dd' row w,
      new_delivery pc over_data p dd' = Ok row ->
      getitem dd' "wickets" = Ok w ->
      exists x l, w = VList (x :: l)).
Proof.
  intros Hin Hname Hdd Hw. split; [ | split ].
  - intros pc over_data p. apply empty_wickets_raise. exact Hw.
  - unfold process_and_load_data.
    destruct (process_files _ _ _ _) as [ st | e d' out ] eqn:Hrun.
    + exfalso.
      assert (Hf : In (name, Some data)
                     (filter (fun f : string * option value =>
                                endswith (fst f) ".json") dir)).
      { apply filter_In. split; [ exact Hin | exact Hname ]. }
      destruct (process_files_in _ _ _ _ _ _ Hrun Hf) as (st1 & st2 & Hdoc).
      destruct (process_document_inv _ _ _ _ _ Hdoc)
        as (data' & pc & tc & st3 & m & Hsome & _ & _ & Hasm & _).
      simpl in Hsome. injection Hsome as <-.
      destruct (assemble_builds _ _ _ _ _ _ Hasm Hdd) as (od & q & row & Hrow).
      rewrite (empty_wickets_raise _ _ _ _ Hw) in Hrow. discriminate Hrow.
    + exists e, d', out. reflexivity.
  - intros pc over_data p dd' row w Hrow Hget.
    destruct (new_delivery_inv _ _ _ _ _ Hrow)
      as (fields & wicket & _ & _ & _ & _ & -> & Hidx & _).
    simpl in Hget. destruct (assoc "wickets" fields) as [ w' | ] eqn:Ew;
      [ | discriminate Hget ].
    injection Hget as ->. simpl in Hidx.
    destruct (getidx0_dict _ _ Hidx) as [l ->].
    exists (VDict wicket), l. reflexivity.
Qed.

End Uncaught.

Lemma empty_wickets_abort_witness :
  exists e d out,
    main iso_date accepting [("335984.json", Some with_empty_wickets)]
    = Raised e d out.
Proof.
  destruct (empty_wickets_abort iso_date accepting create_database
              [("335984.json", Some with_empty_wickets)]
              "335984.json" with_empty_wickets empty_wickets) as (_ & H & _).
  - left. reflexivity.
  - vm_compute. reflexivity.
  - exists [VDict [("team", VStr "Mumbai Indians");
                   ("overs", VList [over_of 0 [dot_ball; empty_wickets]])]],
      (VDict [("team", VStr "Mumbai Indians");
              ("overs", VList [over_of 0 [dot_ball; empty_wickets]])]),
      [over_of 0 [dot_ball; empty_wickets]],
      (over_of 0 [dot_ball; empty_wickets]),
      [dot_ball; empty_wickets].
    repeat split; try reflexivity; simpl; auto.
  - reflexivity.
  - exact H.
Defined.

(** ** References of the rows *)

Lemma next_where_in {A : Type} (cond : A -> result bool) (xs : list A) (x : A) :
  next_where cond xs = Ok (Some x) -> In x xs.
Proof.
  induction xs as [ | y r IH]; simpl; intros H; [ discriminate H | ].
  apply bind_ok in H. destruct H as (c & _ & H).
  destruct c.
  - injection H as <-. left. reflexivity.
  - right. apply IH. exact H.
Qed.

Lemma team_id_where_ref (tc : pydict Team) (rhs : result value) (v : value) :
  team_id_where tc rhs = Ok v -> team_ref tc v.
Proof.
  unfold team_id_where. intros H.
  apply bind_ok in H. destruct H as ([ t | ] & Hn & H); [ | discriminate H ].
  injection H as <-. exists t. split; [ | reflexivity ].
  apply (next_where_in _ _ _ Hn).
Qed.

Lemma team_id_or_none_ref (tc : pydict Team) (rhs : result value) (v : value) :
  team_id_or_none tc rhs = Ok v -> null_or (team_ref tc) v.
Proof.
  unfold team_id_or_none. intros H.
  apply bind_ok in H. destruct H as ([ t | ] & Hn & H); injection H as <-.
  - right. exists t. split; [ | reflexivity ].
    apply (next_where_in _ _ _ Hn).
  - left. reflexivity.
Qed.

Lemma player_id_or_none_ref (pc : pydict Player) (rhs : result value) (v : value) :
  player_id_or_none pc rhs = Ok v -> null_or (player_ref pc) v.
Proof.
  unfold player_id_or_none. intros H.
  apply bind_ok in H. destruct H as ([ q | ] & Hn & H); injection H as <-.
  - right. exists q. split; [ | reflexivity ].
    apply (next_where_in _ _ _ Hn).
  - left. reflexivity.
Qed.

Lemma new_delivery_refs (pc : pydict Player) (over_data : value) (p : nat)
    (dd : value) (d : Delivery) :
  new_delivery pc over_data p dd = Ok d -> delivery_refs pc d.
Proof.
  intros H.
  destruct (new_delivery_inv _ _ _ _ _ H)
    as (fields & wicket & declared & listed & i & runs & _ & _ & _ & _ & _ & _
        & Hb & Hw & Hn & Ho & _).
  repeat split; eapply player_id_or_none_ref; eassumption.
Qed.

Lemma deliveries_from_refs (pc : pydict Player) (over_data : value) :
  forall ds p out,
    deliveries_from pc over_data p ds = Ok out -> Forall (delivery_refs pc) out.
Proof.
  induction ds as [ | x r IH]; intros p out H; simpl in H.
  - injection H as <-. constructor.
  - ok_steps H. injection H as <-. constructor.
    + apply (new_delivery_refs _ _ _ _ _ E).
    + apply (IH _ _ E0).
Qed.

Lemma overs_deliveries_refs (pc : pydict Player) :
  forall overs out,
    overs_deliveries pc overs = Ok out -> Forall (delivery_refs pc) out.
Proof.
  induction overs as [ | x r IH]; intros out H; simpl in H.
  - injection H as <-. constructor.
  - ok_steps H. injection H as <-. apply Forall_app. split.
    + unfold over_deliveries in E. ok_steps E.
      apply (deliveries_from_refs _ _ _ _ _ E).
    + apply (IH _ E0).
Qed.

Lemma innings_from_refs (tc : pydict Team) (pc : pydict Player) :
  forall inns i out,
    innings_from tc pc i inns = Ok out -> Forall (inning_refs tc pc) out.
Proof.
  induction inns as [ | x r IH]; intros i out H; simpl in H.
  - injection H as <-. constructor.
  - ok_steps H. injection H as <-. constructor.
    + unfold new_inning in E. ok_steps E. injection E as <-. split; simpl.
      * apply (team_id_where_ref _ _ _ E1).
      * apply (overs_deliveries_refs _ _ _ E4).
    + apply (IH _ _ E0).
Qed.

Lemma add_all_no_transient_teams (tc : pydict Team) :
  Forall (fun t => team_state t <> Transient) (pyd_values (add_all add_team tc)).
Proof.
  unfold pyd_values, add_all. rewrite map_map. apply Forall_forall.
  intros t Ht. apply in_map_iff in Ht. destruct Ht as ([k t0] & <- & _).
  simpl. unfold add_team. destruct (team_state t0) eqn:Es; simpl;
    congruence.
Qed.

Lemma add_all_no_transient_players (pc : pydict Player) :
  Forall (fun q => player_state q <> Transient)
    (pyd_values (add_all add_player pc)).
Proof.
  unfold pyd_values, add_all. rewrite map_map. apply Forall_forall.
  intros q Hq. apply in_map_iff in Hq. destruct Hq as ([k q0] & <- & _).
  simpl. unfold add_player. destruct (player_state q0) eqn:Es; simpl;
    congruence.
Qed.

Lemma flush_teams_committed (tc : pydict Team) :
  Forall (fun t => team_state t <> Transient) (pyd_values tc) ->
  forall rows,
    Forall (fun t => team_state t = Persistent)
      (pyd_values (fst (flush_teams tc rows))).
Proof.
  induction tc as [ | [k t] r IH]; intros Hnt rows; simpl; [ constructor | ].
  inversion Hnt as [ | t' r' Ht Hr ]; subst. simpl in Ht.
  destruct (team_state t) eqn:Es; [ congruence | | ].
  - specialize (IH Hr (rows ++ [(next_rowid rows, team_name t)])).
    destruct (flush_teams r _) as [r1 rows1]. simpl in *.
    constructor; [ reflexivity | exact IH ].
  - specialize (IH Hr rows).
    destruct (flush_teams r rows) as [r1 rows1]. simpl in *.
    constructor; [ exact Es | exact IH ].
Qed.

Lemma flush_players_committed (pc : pydict Player) :
  Forall (fun q => player_state q <> Transient) (pyd_values pc) ->
  forall rows,
    Forall (fun q => player_state q = Persistent)
      (pyd_values (fst (flush_players pc rows))).
Proof.
  induction pc as [ | [k q] r IH]; intros Hnt rows; simpl; [ constructor | ].
  inversion Hnt as [ | q' r' Hq Hr ]; subst. simpl in Hq.
  destruct (player_state q) eqn:Es; [ congruence | | ].
  - specialize (IH Hr (rows ++ [(player_id q, player_name q)])).
    destruct (flush_players r _) as [r1 rows1]. simpl in *.
    constructor; [ reflexivity | exact IH ].
  - specialize (IH Hr rows).
    destruct (flush_players r rows) as [r1 rows1]. simpl in *.
    constructor; [ exact Es | exact IH ].
Qed.

(** What the generator of a lookup by name finds: over a cache with an
    entry the name is computed, and the first entry of that name is found. *)
Lemma next_where_find {A : Type} (test : A -> value -> bool)
    (rhs : result value) (xs : list A) (r : option A) :
  next_where (fun a => x <- rhs ;; Ok (test a x)) xs = Ok r ->
  (xs = [] /\ r = None) \/
  exists x, rhs = Ok x /\ r = find (fun a => test a x) xs.
Proof.
  destruct xs as [ | a0 xs0 ].
  - simpl. intros H. injection H as <-. left. split; reflexivity.
  - intros H. right.
    destruct rhs as [ x | e ]; [ | discriminate H ].
    exists x. split; [ reflexivity | ].
    revert H. generalize (a0 :: xs0). clear a0 xs0.
    intros xs. induction xs as [ | a xs IH]; simpl; intros H.
    + injection H as <-. reflexivity.
    + destruct (test a x).
      * injection H as <-. reflexivity.
      * apply IH. exact H.
Qed.

Lemma pyd_values_nil {A : Type} (d : pydict A) : pyd_values d = [] -> d = [].
Proof. destruct d; [ reflexivity | discriminate ]. Qed.

Lemma team_id_where_resolved (tc : pydict Team) (rhs : result value)
    (v : value) :
  team_id_where tc rhs = Ok v -> team_resolved tc rhs v.
Proof.
  unfold team_id_where. intros H.
  apply bind_ok in H. destruct H as ([ t | ] & Hn & H); [ | discriminate H ].
  injection H as <-.
  destruct (next_where_find (fun t x => py_eq (team_name t) x) _ _ _ Hn)
    as [ [_ Hnone] | (x & Hx & Hfind) ]; [ discriminate Hnone | ].
  exists x, t. split; [ exact Hx | ]. split; [ | reflexivity ].
  symmetry. exact Hfind.
Qed.

(** The build stops where a team has to be found and no cached team has
    the name. *)
Lemma team_id_where_unknown (tc : pydict Team) (name : value) :
  team_named tc name = None ->
  team_id_where tc (Ok name) = Raise StopIteration.
Proof.
  unfold team_named, team_id_where. intros Hnone.
  assert (Hn : next_where (fun t => x <- Ok name ;; Ok (py_eq (team_name t) x))
                 (pyd_values tc) = Ok None).
  { apply next_where_never. intros t Ht. simpl.
    rewrite (find_none _ _ Hnone t Ht). reflexivity. }
  rewrite Hn. reflexivity.
Qed.

Lemma team_id_or_none_resolved (tc : pydict Team) (rhs : result value)
    (v : value) :
  team_id_or_none tc rhs = Ok v -> team_resolved_or_null tc rhs v.
Proof.
  unfold team_id_or_none. intros H.
  apply bind_ok in H. destruct H as (r & Hn & H).
  assert (Hv : v = id_or_null team_id r).
  { destruct r; injection H as <-; reflexivity. }
  destruct (next_where_find (fun t x => py_eq (team_name t) x) _ _ _ Hn)
    as [ [Hnil Hnone] | (x & Hx & Hfind) ].
  - left. split; [ apply pyd_values_nil; exact Hnil | ].
    rewrite Hv, Hnone. reflexivity.
  - right. exists x. split; [ exact Hx | ].
    rewrite Hv, Hfind. reflexivity.
Qed.

Lemma player_id_or_none_resolved (pc : pydict Player) (rhs : result value)
    (v : value) :
  player_id_or_none pc rhs = Ok v -> player_resolved_or_null pc rhs v.
Proof.
  unfold player_id_or_none. intros H.
  apply bind_ok in H. destruct H as (r & Hn & H).
  assert (Hv : v = id_or_null player_id r).
  { destruct r; injection H as <-; reflexivity. }
  destruct (next_where_find (fun q x => py_eq (VStr (player_name q)) x) _ _ _ Hn)
    as [ [Hnil Hnone] | (x & Hx & Hfind) ].
  - left. split; [ apply pyd_values_nil; exact Hnil | ].
    rewrite Hv, Hnone. reflexivity.
  - right. exists x. split; [ exact Hx | ].
    rewrite Hv, Hfind. reflexivity.
Qed.

Lemma new_delivery_resolved (pc : pydict Player) (over_data : value) (p : nat)
    (dd : value) (d : Delivery) :
  new_delivery pc over_data p dd = Ok d -> delivery_resolved pc dd d.
Proof.
  intros H.
  destruct (new_delivery_inv _ _ _ _ _ H)
    as (fields & wicket & declared & listed & i & runs & -> & Hwi & _ & _ & _
        & _ & Hb & Hw & Hn & Ho & _).
  unfold delivery_resolved.
  split; [ apply player_id_or_none_resolved; exact Hb | ].
  split; [ apply player_id_or_none_resolved; exact Hw | ].
  split; [ apply player_id_or_none_resolved; exact Hn | ].
  apply player_id_or_none_resolved.
  replace (wicket_player_out (VDict fields))
    with (Ok (or_default (assoc "player_out" wicket) VNone)); [ exact Ho | ].
  unfold wicket_player_out. unfold get at 1. cbn [bind].
  unfold or_default in Hwi. rewrite Hwi. reflexivity.
Qed.

Lemma deliveries_from_resolved (pc : pydict Player) (over_data : value) :
  forall ds p out,
    deliveries_from pc over_data p ds = Ok out ->
    Forall2 (delivery_resolved pc) ds out.
Proof.
  induction ds as [ | x r IH]; intros p out H; simpl in H.
  - injection H as <-. constructor.
  - ok_steps H. injection H as <-. constructor.
    + apply (new_delivery_resolved _ _ _ _ _ E).
    + apply (IH _ _ E0).
Qed.

Lemma overs_deliveries_resolved (pc : pydict Player) :
  forall overs out,
    overs_deliveries pc overs = Ok out ->
    exists dds,
      listed_deliveries overs = Ok dds /\
      Forall2 (delivery_resolved pc) dds out.
Proof.
  induction overs as [ | x r IH]; intros out H; simpl in H.
  - injection H as <-. exists []. split; [ reflexivity | constructor ].
  - ok_steps H. injection H as <-.
    destruct (IH _ E0) as (dds & Hdds & Hrel).
    unfold over_deliveries in E. ok_steps E.
    exists (a2 ++ dds). split.
    + simpl. rewrite E1. simpl. rewrite E2. simpl. rewrite Hdds. reflexivity.
    + apply Forall2_app;
        [ apply (deliveries_from_resolved _ _ _ _ _ E) | exact Hrel ].
Qed.

Lemma new_inning_resolved (tc : pydict Team) (pc : pydict Player) (i : nat)
    (inning_data : value) (inn : Inning) :
  new_inning tc pc i inning_data = Ok inn ->
  inning_resolved tc pc inning_data inn.
Proof.
  intros H. unfold new_inning in H. ok_steps H. injection H as <-.
  unfold inning_resolved. cbn [batting_team_id deliveries].
  split; [ apply team_id_where_resolved; exact E | ].
  destruct (overs_deliveries_resolved _ _ _ E2) as (dds & Hdds & Hrel).
  exists a1, dds. rewrite E0. simpl.
  split; [ exact E1 | ]. split; [ exact Hdds | exact Hrel ].
Qed.

Lemma innings_from_resolved (tc : pydict Team) (pc : pydict Player) :
  forall inns i out,
    innings_from tc pc i inns = Ok out ->
    Forall2 (inning_resolved tc pc) inns out.
Proof.
  induction inns as [ | x r IH]; intros i out H; simpl in H.
  - injection H as <-. constructor.
  - ok_steps H. injection H as <-. constructor.
    + apply (new_inning_resolved _ _ _ _ _ E).
    + apply (IH _ _ E0).
Qed.

Section References.

Variable to_date : value -> result date.
Variable commit_error : State -> option string.

Lemma assemble_refs (tc : pydict Team) (pc : pydict Player) (data : value)
    (file_name : string) (m : Match) :
  assemble to_date tc pc data file_name = Ok m -> match_refs tc pc m.
Proof.
  intros H.
  destruct (assemble_inv _ _ _ _ _ _ H)
    as (info & m0 & inns & _ & Hm0 & _ & Hrows & Hm).
  destruct (new_match_inv _ _ _ _ _ _ Hm0)
    as (o & name & _ & Hp & Hw & H1 & H2 & Ht & _).
  rewrite Hm. unfold match_refs. cbn [with_innings team1_id team2_id
    toss_winner_id winner_id player_of_match_id innings].
  split; [ apply (team_id_where_ref _ _ _ H1) | ].
  split; [ apply (team_id_where_ref _ _ _ H2) | ].
  split; [ apply (team_id_where_ref _ _ _ Ht) | ].
  split; [ apply (team_id_or_none_ref _ _ _ Hw) | ].
  split; [ apply (player_id_or_none_ref _ _ _ Hp) | ].
  apply (innings_from_refs _ _ _ _ _ Hrows).
Qed.

Lemma new_match_resolved (tc : pydict Team) (pc : pydict Player) (info : value)
    (file_name : string) (m : Match) :
  new_match to_date tc pc info file_name = Ok m ->
  team_resolved tc (teams <- getitem info "teams" ;; getidx teams 0)
    (team1_id m) /\
  team_resolved tc (teams <- getitem info "teams" ;; getidx teams 1)
    (team2_id m) /\
  team_resolved tc (toss <- getitem info "toss" ;; getitem toss "winner")
    (toss_winner_id m) /\
  team_resolved_or_null tc
    (outcome <- get info "outcome" (VDict []) ;; get outcome "winner" VNone)
    (winner_id m) /\
  player_resolved_or_null pc
    (pom <- get info "player_of_match" (VList [VNone]) ;; getidx pom 0)
    (player_of_match_id m).
Proof.
  intros H. unfold new_match in H. ok_steps H. injection H as <-.
  cbn [team1_id team2_id toss_winner_id winner_id player_of_match_id].
  split; [ apply team_id_where_resolved; exact E12 | ].
  split; [ apply team_id_where_resolved; exact E13 | ].
  split; [ apply team_id_where_resolved; exact E14 | ].
  split.
  - rewrite E. cbn [bind]. apply team_id_or_none_resolved. exact E3.
  - rewrite E0. cbn [bind]. rewrite E1.
    apply player_id_or_none_resolved. exact E2.
Qed.

Lemma assemble_resolved (tc : pydict Team) (pc : pydict Player) (data : value)
    (file_name : string) (m : Match) :
  assemble to_date tc pc data file_name = Ok m -> match_resolved tc pc data m.
Proof.
  intros H.
  destruct (assemble_inv _ _ _ _ _ _ H)
    as (info & m0 & inns & Hinfo & Hm0 & Hinns & Hrows & Hm).
  destruct (new_match_resolved _ _ _ _ _ Hm0) as (H1 & H2 & Ht & Hw & Hp).
  exists info, inns. rewrite Hm.
  cbn [with_innings team1_id team2_id toss_winner_id winner_id
       player_of_match_id innings].
  repeat match goal with |- _ /\ _ => split end; try assumption.
  apply (innings_from_resolved _ _ _ _ _ Hrows).
Qed.

(** C6 (amended): the match a document step adds to the session is built
    after the commit of the caches, every cached team and player being in
    the store by then. Its team1_id, team2_id and toss_winner_id and the
    batting_team_id of each inning are the ids of the first cached team of
    the name the document gives; where no cached team has the name of an
    inning's team the build stops with StopIteration, and no row is built.
    Each of winner_id, player_of_match_id and, on every delivery, batter_id,
    bowler_id, non_striker_id and player_out_id is the id of the first cached
    team or player of the name the document gives, and null when the cache
    has none of that name: so every reference is null or the id of a cached
    team or player. *)
Theorem references_resolved_or_null (st st' : State)
    (file : string * option value) :
  process_document to_date commit_error st file = Next st' ->
  committed st' /\
  (exists data m,
     snd file = Some data /\
     session_new st' = [m] /\
     match_refs (team_cache st') (player_cache st') m /\
     match_resolved (team_cache st') (player_cache st') data m) /\
  (forall i inning_data name,
     getitem inning_data "team" = Ok name ->
     team_named (team_cache st') name = None ->
     new_inning (team_cache st') (player_cache st') i inning_data
     = Raise StopIteration).
Proof.
  intros H.
  destruct (process_document_inv _ _ _ _ _ H)
    as (data & pc & tc & st2 & m & Hdata & _ & Hst2 & Hasm & ->).
  simpl. split; [ | split ].
  - subst st2. unfold committed, flush. simpl.
    pose proof (flush_teams_committed _ (add_all_no_transient_teams tc)
                  (tbl_teams (db st))) as Ht.
    pose proof (flush_players_committed _ (add_all_no_transient_players pc)
                  (tbl_players (db st))) as Hp.
    destruct (flush_teams _ _) as [tc' trows].
    destruct (flush_players _ _) as [pc' prows].
    simpl in *. split; assumption.
  - exists data, m. split; [ exact Hdata | ]. split; [ reflexivity | ].
    split; [ apply (assemble_refs _ _ _ _ _ Hasm)
           | apply (assemble_resolved _ _ _ _ _ Hasm) ].
  - intros i inning_data name Hname Hnone.
    unfold new_inning. rewrite Hname.
    rewrite (team_id_where_unknown _ _ Hnone). reflexivity.
Qed.

End References.

Lemma references_resolved_or_null_witness :
  exists st,
    process_document iso_date accepting (initial_state create_database)
      ("335982.json", Some two_balls) = Next st /\
    committed st /\
    exists m inn d1 d2,
      session_new st = [m] /\ innings m = [inn] /\
      deliveries inn = [d1; d2] /\
      match_refs (team_cache st) (player_cache st) m /\
      team1_id m = VInt 1 /\ batter_id d1 = VStr "p1".
Proof.
  eexists. split; [ vm_compute; reflexivity | ].
  match goal with
  | |- committed ?st /\ _ =>
      destruct (references_resolved_or_null iso_date accepting
                  (initial_state create_database) st
                  ("335982.json", Some two_balls) eq_refl)
        as (Hc & (data & m & Hdata & Hm & Hrefs & Hres) & _)
  end.
  split; [ exact Hc | ].
  cbn [snd] in Hdata. injection Hdata as <-.
  cbn [session_new] in Hm. injection Hm as <-.
  destruct Hres as (info & inns & Hinfo & H1 & _ & _ & _ & _ & Hinns & Hrows).
  vm_compute in Hinfo. injection Hinfo as <-.
  vm_compute in Hinns. injection Hinns as <-.
  do 4 eexists.
  split; [ reflexivity | ]. split; [ reflexivity | ].
  split; [ reflexivity | ]. split; [ exact Hrefs | ].
  split.
  - destruct H1 as (name & t & Hname & Ht & Hid).
    vm_compute in Hname. injection Hname as <-.
    vm_compute in Ht. injection Ht as <-.
    symmetry. exact Hid.
  - inversion Hrows as [ | inning_data inn inns' rows' Hinn _ Hi Hr ].
    destruct Hinn as (_ & overs & dds & Hovers & Hdds & Hrel).
    vm_compute in Hovers. injection Hovers as <-.
    vm_compute in Hdds. injection Hdds as <-.
    inversion Hrel as [ | dd d dds' ds' Hd _ Hdd Hds ].
    destruct Hd as ([ [Hnil _] | (name & Hname & Hid) ] & _).
    + discriminate Hnil.
    + vm_compute in Hname. injection Hname as <-. exact Hid.
Defined.

(** C6, as stated, fails on a delivery whose batter is not in the registry:
    its batter_id is null and is the id of no cached player. *)
Lemma unregistered_batter_null :
  exists st m inn d,
    process_document iso_date accepting (initial_state create_database)
      ("335985.json", Some unregistered_batter) = Next st /\
    session_new st = [m] /\ innings m = [inn] /\ deliveries inn = [d] /\
    batter_id d = VNone /\
    ~ player_ref (player_cache st) (batter_id d).
Proof.
  do 4 eexists. split; [ vm_compute; reflexivity | ].
  split; [ reflexivity | ]. split; [ reflexivity | ].
  split; [ reflexivity | ]. split; [ reflexivity | ].
  intros (q & Hin & Hid). simpl in Hin.
  destruct Hin as [ <- | [ <- | [ <- | [] ] ] ]; discriminate Hid.
Qed.

(** ** One team object, one row per name *)

Lemma py_eq_refl_hashable (k : value) : hashable k = true -> py_eq k k = true.
Proof.
  destruct k; simpl; intros H; try discriminate H; try reflexivity.
  - apply Bool.eqb_reflx.
  - apply Z.eqb_refl.
  - apply String.eqb_refl.
Qed.

(** Two keys equal to one value are equal to each other. *)
Lemma py_eq_join (a b n : value) :
  hashable a = true -> hashable b = true ->
  py_eq a n = true -> py_eq b n = true -> py_eq a b = true.
Proof.
  intros Ha Hb Han Hbn.
  destruct a, b; simpl in Ha, Hb; try discriminate;
    destruct n; simpl in *; try discriminate;
    repeat match goal with
    | H : Bool.eqb _ _ = true |- _ => apply Bool.eqb_prop in H
    | H : Z.eqb _ _ = true |- _ => apply Z.eqb_eq in H
    | H : String.eqb _ _ = true |- _ => apply String.eqb_eq in H
    end; subst;
    first [ reflexivity
          | apply Bool.eqb_reflx
          | apply Z.eqb_refl
          | apply String.eqb_refl
          | apply Z.eqb_eq; congruence
          | repeat match goal with b : bool |- _ => destruct b end;
            simpl in *; first [ reflexivity | discriminate | lia ] ].
Qed.

Lemma pyd_mem_exists {A : Type} (n : value) (d : pydict A) :
  pyd_mem n d = existsb (fun k => py_eq k n) (map fst d).
Proof.
  unfold pyd_mem. induction d as [ | [k a] r IH]; simpl; [ reflexivity | ].
  destruct (py_eq k n); [ reflexivity | exact IH ].
Qed.

Lemma pyd_mem_app {A : Type} (n : value) (d e : pydict A) :
  pyd_mem n (d ++ e) = pyd_mem n d || pyd_mem n e.
Proof.
  rewrite !pyd_mem_exists, map_app, existsb_app. reflexivity.
Qed.

Lemma filter_none {A : Type} (f : A -> bool) (l : list A) :
  (forall x, In x l -> f x = false) -> filter f l = [].
Proof.
  induction l as [ | a l IH]; intros H; simpl; [ reflexivity | ].
  rewrite (H a (or_introl eq_refl)). apply IH.
  intros x Hx. apply H. right. exact Hx.
Qed.

(** Among pairwise unequal hashable keys at most one equals a given name. *)
Lemma count_unequal_keys (n : value) (ks : list value) :
  ForallOrdPairs unequal ks ->
  Forall (fun k => hashable k = true) ks ->
  List.length (filter (fun k => py_eq k n) ks) =
  if existsb (fun k => py_eq k n) ks then 1%nat else 0%nat.
Proof.
  induction 1 as [ | a l Ha Hl IH ]; intros Hh; [ reflexivity | ].
  inversion Hh as [ | a' l' Hha Hhl ]; subst.
  simpl. destruct (py_eq a n) eqn:Ean.
  - simpl. f_equal.
    assert (Hnone : filter (fun k => py_eq k n) l = []).
    { apply filter_none. intros b Hb.
      destruct (py_eq b n) eqn:Ebn; [ | reflexivity ].
      rewrite Forall_forall in Ha, Hhl.
      pose proof (py_eq_join a b n Hha (Hhl b Hb) Ean Ebn) as Hab.
      rewrite (Ha b Hb) in Hab. discriminate Hab. }
    rewrite Hnone. reflexivity.
  - simpl. apply IH. exact Hhl.
Qed.

Lemma ForallOrdPairs_snoc {A : Type} (R : A -> A -> Prop) (l : list A) (x : A) :
  ForallOrdPairs R l -> Forall (fun a => R a x) l -> ForallOrdPairs R (l ++ [x]).
Proof.
  induction 1 as [ | a l Ha Hl IH ]; intros Hx; simpl.
  - constructor; constructor.
  - inversion Hx as [ | a' l' Hax Hlx ]; subst. constructor.
    + apply Forall_app. split; [ exact Ha | ].
      constructor; [ exact Hax | constructor ].
    + apply IH. exact Hlx.
Qed.

Lemma not_mem_unequal {A : Type} (n : value) (d : pydict A) :
  pyd_mem n d = false -> Forall (fun k => unequal k n) (map fst d).
Proof.
  rewrite pyd_mem_exists. intros H. apply Forall_forall. intros k Hk.
  unfold unequal. destruct (py_eq k n) eqn:E; [ | reflexivity ].
  assert (Ht : existsb (fun k => py_eq k n) (map fst d) = true).
  { apply existsb_exists. exists k. split; assumption. }
  rewrite Ht in H. discriminate H.
Qed.

Lemma register_teams_spec :
  forall names tc tc',
    register_teams tc names = Ok tc' ->
    exists new,
      tc' = tc ++ new /\
      Forall (fun kt => snd kt = mkTeam VNone (fst kt) Transient) new /\
      (ForallOrdPairs unequal (map fst tc) ->
       ForallOrdPairs unequal (map fst tc')) /\
      (Forall (fun k => hashable k = true) (map fst tc) ->
       Forall (fun k => hashable k = true) (map fst tc')) /\
      (forall n, In n names -> pyd_mem n tc' = true).
Proof.
  induction names as [ | n r IH]; intros tc tc' H; simpl in H.
  - injection H as <-. exists []. rewrite app_nil_r.
    repeat match goal with |- _ /\ _ => split end; auto; intros n [].
  - apply bind_ok in H. destruct H as (fresh & Hfresh & H).
    unfold not_in in Hfresh.
    destruct (hashable n) eqn:Hn; [ | discriminate Hfresh ].
    injection Hfresh as <-.
    destruct (IH _ _ H) as (new & -> & Hnew & Hpairs & Hhash & Hmem).
    destruct (pyd_mem n tc) eqn:Emem; simpl in *.
    + exists new. repeat match goal with |- _ /\ _ => split end; auto.
      intros n' [ <- | Hin ]; [ | apply Hmem; exact Hin ].
      rewrite pyd_mem_app, Emem. reflexivity.
    + exists ((n, mkTeam VNone n Transient) :: new).
      rewrite <- app_assoc. simpl.
      repeat match goal with |- _ /\ _ => split end.
      * reflexivity.
      * constructor; [ reflexivity | exact Hnew ].
      * intros Hp. rewrite <- app_assoc in Hpairs. simpl in Hpairs.
        apply Hpairs. rewrite map_app. simpl.
        apply ForallOrdPairs_snoc; [ exact Hp | ].
        apply not_mem_unequal. exact Emem.
      * intros Hh. rewrite <- app_assoc in Hhash. simpl in Hhash.
        apply Hhash. rewrite map_app. apply Forall_app. split; [ exact Hh | ].
        constructor; [ exact Hn | constructor ].
      * intros n' [ <- | Hin ].
        -- rewrite pyd_mem_app. apply orb_true_iff. right.
           unfold pyd_mem. simpl. rewrite (py_eq_refl_hashable _ Hn).
           reflexivity.
        -- specialize (Hmem n' Hin). rewrite <- app_assoc in Hmem.
           exact Hmem.
Qed.

Lemma resolve_entities_teams (pc0 : pydict Player) (tc0 : pydict Team)
    (data data' : value) (pc : pydict Player) (tc : pydict Team) :
  resolve_entities pc0 tc0 (Some data) = Ok (data', pc, tc) ->
  exists info names,
    getitem data "info" = Ok info /\
    (x <- getitem info "teams" ;; iter x) = Ok names /\
    register_teams tc0 names = Ok tc.
Proof.
  unfold resolve_entities. intros H. simpl in H. ok_steps H.
  injection H as _ _ <-.
  exists a, a3. rewrite E2. simpl.
  repeat split; assumption.
Qed.

Lemma add_all_persistent (tc : pydict Team) :
  Forall (fun kt => team_state (snd kt) = Persistent) tc ->
  add_all add_team tc = tc.
Proof.
  induction 1 as [ | [k t] r Ht Hr IH ]; [ reflexivity | ].
  unfold add_all in *. simpl in *. rewrite IH. unfold add_team.
  rewrite Ht. reflexivity.
Qed.

Lemma add_all_transient (new : pydict Team) :
  Forall (fun kt => snd kt = mkTeam VNone (fst kt) Transient) new ->
  Forall (fun kt => snd kt = mkTeam VNone (fst kt) Pending)
    (add_all add_team new) /\
  map fst (add_all add_team new) = map fst new.
Proof.
  induction 1 as [ | [k t] r Ht Hr [IH1 IH2] ]; [ split; constructor | ].
  simpl in *. subst t. split.
  - constructor; [ reflexivity | exact IH1 ].
  - simpl. f_equal. exact IH2.
Qed.

Lemma flush_teams_app_persistent (tc l : pydict Team) :
  Forall (fun kt => team_state (snd kt) = Persistent) tc ->
  forall rows,
    flush_teams (tc ++ l) rows
    = (tc ++ fst (flush_teams l rows), snd (flush_teams l rows)).
Proof.
  induction 1 as [ | [k t] r Ht Hr IH ]; intros rows; simpl.
  - destruct (flush_teams l rows). reflexivity.
  - simpl in Ht. rewrite Ht, IH. reflexivity.
Qed.

Lemma flush_teams_pending (l : pydict Team) :
  Forall (fun kt => snd kt = mkTeam VNone (fst kt) Pending) l ->
  forall rows,
    map fst (fst (flush_teams l rows)) = map fst l /\
    Forall (fun kt => team_state (snd kt) = Persistent) (fst (flush_teams l rows)) /\
    map snd (snd (flush_teams l rows)) = map snd rows ++ map fst l.
Proof.
  induction 1 as [ | [k t] r Ht Hr IH ]; intros rows; simpl.
  - rewrite app_nil_r. repeat split. constructor.
  - simpl in Ht. subst t. simpl.
    destruct (IH (rows ++ [(next_rowid rows, k)])) as (H1 & H2 & H3).
    destruct (flush_teams r _) as [r' rows']. simpl in *.
    repeat split.
    + f_equal. exact H1.
    + constructor; [ reflexivity | exact H2 ].
    + rewrite H3, map_app, <- app_assoc. reflexivity.
Qed.

Lemma flush_teams_of (st : State) :
  team_cache (flush st) = fst (flush_teams (team_cache st) (tbl_teams (db st))) /\
  tbl_teams (db (flush st)) = snd (flush_teams (team_cache st) (tbl_teams (db st))).
Proof.
  unfold flush.
  destruct (flush_teams _ _) as [tc trows].
  destruct (flush_players _ _) as [pc prows]. split; reflexivity.
Qed.

Lemma team_id_where_app (tc more : pydict Team) (name i : value) :
  team_id_where tc (Ok name) = Ok i ->
  team_id_where (tc ++ more) (Ok name) = Ok i.
Proof.
  unfold team_id_where, pyd_values. rewrite map_app.
  generalize (map snd tc) as xs. generalize (map snd more) as ys.
  intros ys xs. induction xs as [ | t r IH]; simpl; intros H.
  - discriminate H.
  - destruct (py_eq (team_name t) name); simpl in *; [ exact H | ].
    apply IH. exact H.
Qed.

Section Teams.

Variable to_date : value -> result date.
Variable commit_error : State -> option string.

Lemma process_document_teams (st st' : State) (file : string * option value) :
  process_document to_date commit_error st file = Next st' ->
  team_cache_inv st ->
  team_cache_inv st' /\
  (exists more, team_cache st' = team_cache st ++ more) /\
  (forall data name,
      snd file = Some data -> references_team data name ->
      pyd_mem name (team_cache st') = true).
Proof.
  intros H (Hpers & Hrows & Hpairs & Hhash).
  destruct (process_document_inv _ _ _ _ _ H)
    as (data & pc & tc & st2 & m & Hsome & Hres & Hst2 & _ & ->).
  rewrite Hsome in Hres.
  destruct (resolve_entities_teams _ _ _ _ _ _ Hres)
    as (info & names & Hinfo & Hnames & Hreg).
  destruct (register_teams_spec _ _ _ Hreg) as (new & -> & Hnew & Hp' & Hh' & Hmem).
  destruct (flush_teams_of (mkState (add_all add_player pc)
              (add_all add_team (team_cache st ++ new)) (session_new st) (db st)
              (stdout st ++ [processing (fst file)]))) as [Hc Ht].
  rewrite <- Hst2 in Hc, Ht. simpl in Hc, Ht.
  assert (Hadd : add_all add_team (team_cache st ++ new)
                 = team_cache st ++ add_all add_team new).
  { unfold add_all at 1. rewrite map_app.
    fold (add_all add_team (team_cache st)). fold (add_all add_team new).
    rewrite (add_all_persistent _ Hpers). reflexivity. }
  rewrite Hadd, (flush_teams_app_persistent _ _ Hpers) in Hc, Ht.
  simpl in Hc, Ht.
  destruct (add_all_transient _ Hnew) as [Hpend Hkeys].
  destruct (flush_teams_pending _ Hpend (tbl_teams (db st))) as (Hk & Hp & Hr).
  assert (Hfst : map fst (team_cache st2) = map fst (team_cache st ++ new)).
  { rewrite Hc, !map_app, Hk, Hkeys. reflexivity. }
  simpl. split; [ | split ].
  - unfold team_cache_inv. simpl. rewrite Hfst.
    split; [ | split; [ | split ] ].
    + rewrite Hc. apply Forall_app. split; assumption.
    + rewrite Ht, Hr, Hrows, map_app, Hkeys. reflexivity.
    + apply Hp'. exact Hpairs.
    + apply Hh'. exact Hhash.
  - rewrite Hc. eexists. reflexivity.
  - intros data' name Hsome' (info' & names' & Hinfo' & Hnames' & Hin).
    rewrite Hsome in Hsome'. injection Hsome' as <-.
    rewrite Hinfo in Hinfo'. injection Hinfo' as <-.
    rewrite Hnames in Hnames'. injection Hnames' as <-.
    rewrite pyd_mem_exists, Hfst, <- pyd_mem_exists.
    apply Hmem. exact Hin.
Qed.

Lemma process_files_teams (files : list (string * option value)) :
  forall st st',
    process_files to_date commit_error st files = Next st' ->
    team_cache_inv st ->
    team_cache_inv st' /\
    (exists more, team_cache st' = team_cache st ++ more) /\
    (forall f data name,
        In (f, Some data) files -> references_team data name ->
        pyd_mem name (team_cache st') = true).
Proof.
  induction files as [ | g r IH]; intros st st' H Hinv; simpl in H.
  - injection H as <-. split; [ exact Hinv | ]. split.
    + exists []. rewrite app_nil_r. reflexivity.
    + intros f data name [].
  - destruct (process_document to_date commit_error st g) as [ st1 | ] eqn:Eg;
      [ | discriminate H ].
    destruct (process_document_teams _ _ _ Eg Hinv) as (Hinv1 & [m1 Hm1] & Hmem1).
    destruct (IH _ _ H Hinv1) as (Hinv' & [m2 Hm2] & Hmem').
    split; [ exact Hinv' | ]. split.
    + exists (m1 ++ m2). rewrite Hm2, Hm1, app_assoc. reflexivity.
    + intros f data name [ -> | Hin ] Href.
      * rewrite Hm2, pyd_mem_app.
        rewrite (Hmem1 data name eq_refl Href). reflexivity.
      * apply (Hmem' f data name Hin Href).
Qed.

Lemma initial_team_cache_inv : team_cache_inv (initial_state create_database).
Proof.
  unfold team_cache_inv. simpl. repeat split; constructor.
Qed.

(** C5: in a run over a fresh store, the id found for a team name after some
    documents is the id found for it after any further documents; a name
    already in the cache is not registered again; and the teams table holds
    at most one row under a name, exactly one once a loaded document lists
    the name. *)
Theorem team_resolution_stable (files1 files2 : list (string * option value))
    (st1 st2 : State) (name : value) :
  process_files to_date commit_error (initial_state create_database) files1
    = Next st1 ->
  process_files to_date commit_error st1 files2 = Next st2 ->
  (forall i,
      team_id_where (team_cache st1) (Ok name) = Ok i ->
      team_id_where (team_cache st2) (Ok name) = Ok i) /\
  (forall tc tc',
      register_teams tc [name] = Ok tc' -> register_teams tc' [name] = Ok tc') /\
  (rows_named name (tbl_teams (db st2)) <= 1)%nat /\
  ((exists f data,
       In (f, Some data) (files1 ++ files2) /\ references_team data name) ->
   rows_named name (tbl_teams (db st2)) = 1%nat).
Proof.
  intros H1 H2.
  destruct (process_files_teams _ _ _ H1 initial_team_cache_inv)
    as (Hinv1 & _ & Hmem1).
  destruct (process_files_teams _ _ _ H2 Hinv1)
    as (Hinv2 & [more Hmore] & Hmem2).
  destruct Hinv2 as (_ & Hrows & Hpairs & Hhash).
  assert (Hcount : rows_named name (tbl_teams (db st2))
                   = if pyd_mem name (team_cache st2) then 1%nat else 0%nat).
  { unfold rows_named.
    rewrite pyd_mem_exists, <- (count_unequal_keys name _ Hpairs Hhash), <- Hrows.
    generalize (tbl_teams (db st2)) as rows.
    induction rows as [ | row rows IH]; simpl.
    - reflexivity.
    - destruct (py_eq (snd row) name); simpl; rewrite IH; reflexivity. }
  split; [ | split; [ | split ] ].
  - intros i Hi. rewrite Hmore. apply team_id_where_app. exact Hi.
  - intros tc tc' Hreg.
    destruct (register_teams_spec _ _ _ Hreg) as (new & _ & _ & _ & _ & Hmem).
    simpl in Hreg. apply bind_ok in Hreg. destruct Hreg as (fresh & Hfresh & _).
    unfold not_in in Hfresh.
    destruct (hashable name) eqn:Hn; [ | discriminate Hfresh ].
    simpl. unfold not_in. rewrite Hn, (Hmem name (or_introl eq_refl)).
    reflexivity.
  - rewrite Hcount. destruct (pyd_mem name (team_cache st2)); lia.
  - intros (f & data & Hin & Href). rewrite Hcount.
    apply in_app_or in Hin. destruct Hin as [ Hin | Hin ].
    + rewrite Hmore, pyd_mem_app, (Hmem1 f data name Hin Href). reflexivity.
    + rewrite (Hmem2 f data name Hin Href). reflexivity.
Qed.

End Teams.

Lemma team_resolution_stable_witness :
  exists st1 st2,
    process_files iso_date accepting (initial_state create_database)
      [("335982.json", Some two_balls)] = Next st1 /\
    process_files iso_date accepting st1 [("335983.json", Some second_match)]
      = Next st2 /\
    team_id_where (team_cache st2) (Ok (VStr "Mumbai Indians")) = Ok (VInt 1) /\
    rows_named (VStr "Mumbai Indians") (tbl_teams (db st2)) = 1%nat.
Proof.
  do 2 eexists. split; [ vm_compute; reflexivity | ].
  split; [ vm_compute; reflexivity | ].
  match goal with
  | |- team_id_where (team_cache ?st2) _ = _ /\ _ =>
      destruct (team_resolution_stable iso_date accepting
                  [("335982.json", Some two_balls)]
                  [("335983.json", Some second_match)]
                  _ st2 (VStr "Mumbai Indians") eq_refl eq_refl)
        as (Hstable & _ & _ & Hone)
  end.
  split.
  - apply Hstable. vm_compute. reflexivity.
  - apply Hone. exists "335982.json", two_balls. split.
    + left. reflexivity.
    + do 2 eexists. split; [ reflexivity | ].
      split; [ reflexivity | ]. left. reflexivity.
Defined.

(** * Further properties of the loader *)

(** ** Innings and their rows *)

Lemma innings_from_numbers (tc : pydict Team) (pc : pydict Player) :
  forall inns i rows,
    innings_from tc pc i inns = Ok rows ->
    map inning_number rows
    = map (fun k => (Z.of_nat k + 1)%Z) (seq i (List.length inns)).
Proof.
  induction inns as [ | x r IH]; intros i rows H; simpl in H.
  - injection H as <-. reflexivity.
  - ok_steps H. injection H as <-. simpl. f_equal.
    + unfold new_inning in E. ok_steps E. injection E as <-. reflexivity.
    + apply (IH _ _ E0).
Qed.

Section Innings.

Variable to_date : value -> result date.

(** X1: a loaded match has one inning row per entry of the document's
    innings list, numbered 1, 2, ... by position, whatever the entries
    contain. *)
Theorem inning_numbers_positional (tc : pydict Team) (pc : pydict Player)
    (data : value) (file_name : string) (m : Match) :
  assemble to_date tc pc data file_name = Ok m ->
  exists inns,
    (x <- getitem data "innings" ;; iter x) = Ok inns /\
    List.length (innings m) = List.length inns /\
    map inning_number (innings m)
    = map (fun k => (Z.of_nat k + 1)%Z) (seq 0 (List.length inns)).
Proof.
  intros H.
  destruct (assemble_inv _ _ _ _ _ _ H) as (info & m0 & inns & _ & _ & Hinns & Hrows & _).
  exists inns. split; [ exact Hinns | ].
  pose proof (innings_from_numbers _ _ _ _ _ Hrows) as Hn.
  split; [ | exact Hn ].
  apply (f_equal (@List.length Z)) in Hn.
  rewrite !length_map, length_seq in Hn. exact Hn.
Qed.

End Innings.

Lemma inning_numbers_positional_witness :
  exists m,
    assemble iso_date both_teams squad_cache two_innings "335986.json" = Ok m /\
    map inning_number (innings m) = [1; 2]%Z.
Proof.
  eexists. split; [ vm_compute; reflexivity | ].
  match goal with
  | |- map inning_number (innings ?m) = _ =>
      destruct (inning_numbers_positional iso_date both_teams squad_cache
                  two_innings "335986.json" m eq_refl)
        as (inns & Hinns & _ & Hn)
  end.
  vm_compute in Hinns. injection Hinns as Hinns. subst inns. exact Hn.
Defined.

Lemma new_delivery_runs (pc : pydict Player) (over_data : value) (p : nat)
    (dd : value) (d : Delivery) :
  new_delivery pc over_data p dd = Ok d -> carries_runs dd d.
Proof.
  intros H.
  destruct (new_delivery_inv _ _ _ _ _ H)
    as (fields & wicket & declared & listed & i & runs & -> & _ & _ & _ & _ & _
        & _ & _ & _ & _ & Hruns & Hb & He & Ht & _).
  exists runs. simpl. rewrite Hruns.
  repeat match goal with |- _ /\ _ => split end;
    first [ reflexivity | assumption ].
Qed.

Lemma deliveries_from_runs (pc : pydict Player) (over_data : value) :
  forall ds p out,
    deliveries_from pc over_data p ds = Ok out -> Forall2 carries_runs ds out.
Proof.
  induction ds as [ | x r IH]; intros p out H; simpl in H.
  - injection H as <-. constructor.
  - ok_steps H. injection H as <-. constructor.
    + apply (new_delivery_runs _ _ _ _ _ E).
    + apply (IH _ _ E0).
Qed.

Lemma overs_deliveries_runs (pc : pydict Player) :
  forall overs out,
    overs_deliveries pc overs = Ok out ->
    exists dds, listed_deliveries overs = Ok dds /\ Forall2 carries_runs dds out.
Proof.
  induction overs as [ | x r IH]; intros out H; simpl in H.
  - injection H as <-. exists []. split; [ reflexivity | constructor ].
  - ok_steps H. injection H as <-.
    destruct (IH _ E0) as (dds & Hdds & Hrel).
    unfold over_deliveries in E. ok_steps E.
    exists (a2 ++ dds). split.
    + simpl. rewrite E1. simpl. rewrite E2. simpl. rewrite Hdds. reflexivity.
    + apply Forall2_app; [ apply (deliveries_from_runs _ _ _ _ _ E) | exact Hrel ].
Qed.

(** X2: an inning row holds exactly one delivery row per delivery listed in
    its overs, in document order, and the k-th row carries the batter,
    extras and total runs of the k-th listed delivery: no delivery is
    dropped, repeated or reordered. *)
Theorem deliveries_in_document_order (tc : pydict Team) (pc : pydict Player)
    (i : nat) (inning_data : value) (inn : Inning) :
  new_inning tc pc i inning_data = Ok inn ->
  exists overs dds,
    (x <- getitem inning_data "overs" ;; iter x) = Ok overs /\
    listed_deliveries overs = Ok dds /\
    List.length (deliveries inn) = List.length dds /\
    Forall2 carries_runs dds (deliveries inn).
Proof.
  intros H. unfold new_inning in H. ok_steps H. injection H as <-. simpl.
  destruct (overs_deliveries_runs _ _ _ E2) as (dds & Hdds & Hrel).
  exists a1, dds. rewrite E0. simpl.
  split; [ exact E1 | ]. split; [ exact Hdds | ].
  split; [ | exact Hrel ].
  symmetry. apply (Forall2_length Hrel).
Qed.

Lemma deliveries_in_document_order_witness :
  exists inn,
    new_inning mumbai_cache squad_cache 0 tidy_innings = Ok inn /\
    List.length (deliveries inn) = 7%nat.
Proof.
  eexists. split; [ vm_compute; reflexivity | ].
  match goal with
  | |- List.length (deliveries ?inn) = _ =>
      destruct (deliveries_in_document_order mumbai_cache squad_cache 0
                  tidy_innings inn eq_refl)
        as (overs & dds & Hovers & Hdds & Hlen & _)
  end.
  vm_compute in Hovers. injection Hovers as Hovers. subst overs.
  vm_compute in Hdds. injection Hdds as Hdds. subst dds. exact Hlen.
Defined.

(** ** The position [list.index] finds *)

Lemma index_from_spec (x : value) (p : nat) (l : list value) :
  forall i j,
    index_from x p l i = Ok j ->
    (i <= j)%nat /\
    (j = p \/ exists y, nth_error l (j - i) = Some y /\ py_eq y x = true) /\
    (forall m y, (m < j - i)%nat -> nth_error l m = Some y ->
                 py_eq y x = false /\ (i + m)%nat <> p).
Proof.
  induction l as [ | y r IH]; intros i j H; simpl in H; [ discriminate H | ].
  destruct (Nat.eqb i p) eqn:Eip; simpl in H.
  - injection H as <-. apply Nat.eqb_eq in Eip.
    split; [ lia | ]. split; [ left; exact Eip | ].
    intros m z Hm. lia.
  - apply Nat.eqb_neq in Eip. destruct (py_eq y x) eqn:Eyx.
    + injection H as <-. split; [ lia | ]. split.
      * right. exists y. rewrite Nat.sub_diag. split; [ reflexivity | exact Eyx ].
      * intros m z Hm. lia.
    + destruct (IH _ _ H) as (Hle & Hat & Hbefore).
      split; [ lia | ]. split.
      * destruct Hat as [ Hat | (z & Hz & Hzx) ]; [ left; exact Hat | ].
        right. exists z. replace (j - i)%nat with (S (j - S i)) by lia.
        split; assumption.
      * intros m z Hm Hz. destruct m as [ | m ]; simpl in Hz.
        -- injection Hz as <-. split; [ exact Eyx | lia ].
        -- destruct (Hbefore m z) as [Hzx Hne]; [ lia | exact Hz | ].
           split; [ exact Hzx | lia ].
Qed.

Lemma deliveries_from_index (pc : pydict Player) (over_data : value) (z : Z)
    (ds : list value) :
  getitem over_data "over" = Ok (VInt z) ->
  getitem over_data "deliveries" = Ok (VList ds) ->
  forall rest p out,
    skipn p ds = rest ->
    deliveries_from pc over_data p rest = Ok out ->
    forall k d, nth_error out k = Some d ->
      exists dk j,
        nth_error ds (p + k) = Some dk /\
        index_from dk (p + k) ds 0 = Ok j /\
        positional_over z j = Ok (over d).
Proof.
  intros Hz Hds rest.
  induction rest as [ | dd r IH]; intros p out Hskip H k d Hk; simpl in H.
  - injection H as <-. destruct k; discriminate Hk.
  - ok_steps H. injection H as <-.
    destruct (skipn_cons_nth _ _ _ _ Hskip) as (Hnth & Hrest & Hlt).
    destruct k as [ | k ]; simpl in Hk.
    + injection Hk as <-.
      destruct (new_delivery_inv _ _ _ _ _ E)
        as (fields & wicket & declared & listed & i & runs & _ & _ & Hdecl
            & Hlisted & Hidx & Hadd & _).
      rewrite Hz in Hdecl. injection Hdecl as <-.
      rewrite Hds in Hlisted. injection Hlisted as <-.
      simpl in Hidx.
      exists dd, i. rewrite Nat.add_0_r.
      split; [ exact Hnth | ]. split; [ exact Hidx | ].
      exact Hadd.
    + destruct (IH (S p) a0 Hrest E0 k d Hk) as (dk & j & H1 & H2 & H3).
      exists dk, j. replace (p + S k)%nat with (S p + k)%nat by lia.
      repeat split; assumption.
Qed.

Lemma deliveries_from_rows (pc : pydict Player) (over_data : value) :
  forall ds p out,
    deliveries_from pc over_data p ds = Ok out ->
    forall d, In d out -> exists q dd, new_delivery pc over_data q dd = Ok d.
Proof.
  induction ds as [ | x r IH]; intros p out H d Hin; simpl in H.
  - injection H as <-. destruct Hin.
  - ok_steps H. injection H as <-. destruct Hin as [ <- | Hin ].
    + exists p, x. exact E.
    + apply (IH _ _ E0 d Hin).
Qed.

Lemma ascending_some (ks : list (option Z)) :
  ascending ks = true ->
  forall i x, nth_error ks i = Some x -> exists a, x = Some a.
Proof.
  induction ks as [ | h r IH]; intros Hasc i x Hi.
  - destruct i; discriminate Hi.
  - destruct i as [ | i ]; cbn [nth_error] in Hi.
    + injection Hi as <-. destruct h as [ a | ]; [ | discriminate Hasc ].
      exists a. reflexivity.
    + apply (IH (ascending_tail _ _ Hasc) i x Hi).
Qed.

Lemma float_key_eqb (x : spec_float) (a : Z) :
  float_key x = Some a -> SFeqb x x = true.
Proof.
  destruct x as [ | | | [ | ] m e ]; simpl; try discriminate.
  intros _. unfold SFeqb, SFcompare.
  rewrite Z.compare_refl.
  change (Pos.compare_cont Eq m m) with (Pos.compare m m).
  rewrite Pos.compare_refl. reflexivity.
Qed.

Lemma SFltb_leb (x y : spec_float) :
  SFltb x y = true -> SFleb x y = true /\ SFeqb x y = false.
Proof.
  unfold SFltb, SFleb, SFeqb.
  destruct (SFcompare x y) as [ [ | | ] | ]; try discriminate.
  intros _. split; reflexivity.
Qed.

Lemma SFeqb_leb (x y : spec_float) : SFeqb x y = true -> SFleb x y = true.
Proof.
  unfold SFleb, SFeqb.
  destruct (SFcompare x y) as [ [ | | ] | ]; try discriminate.
  intros _. reflexivity.
Qed.

(** X3: the k-th row of an over declared [z] gets the binary64 value of
    [z + (j + 1) / 10.0] where [j] is the first position of the over whose
    delivery equals the k-th one, so [j <= k]; for a declared index from 0
    up to (not including) [over_bound] and a position below ten, the stored
    value never exceeds the positional one, and it equals the positional one
    exactly when no earlier delivery of the over equals this one. *)
Theorem over_value_of_first_equal (pc : pydict Player) (over_data : value)
    (z : Z) (out : list Delivery) (k : nat) (d : Delivery) :
  over_deliveries pc over_data = Ok out ->
  getitem over_data "over" = Ok (VInt z) ->
  nth_error out k = Some d ->
  exists ds dk j,
    getitem over_data "deliveries" = Ok (VList ds) /\
    nth_error ds k = Some dk /\
    (j <= k)%nat /\
    positional_over z j = Ok (over d) /\
    (j = k \/ exists dj, nth_error ds j = Some dj /\ py_eq dj dk = true) /\
    (forall m dm, (m < j)%nat -> nth_error ds m = Some dm -> py_eq dm dk = false) /\
    ((0 <= z < over_bound)%Z -> (k < 10)%nat ->
     exists f, positional_over z k = Ok f /\
               SFleb (over d) f = true /\
               (SFeqb (over d) f = true <-> j = k)).
Proof.
  intros H Hz Hk. unfold over_deliveries in H. ok_steps H.
  destruct (deliveries_from_rows _ _ _ _ _ H d (nth_error_In _ _ Hk))
    as (q & dd & Hrow).
  destruct (new_delivery_inv _ _ _ _ _ Hrow)
    as (fields & wicket & declared & listed & i & runs & _ & _ & _
        & Hlisted & Hidx & _).
  rewrite E in Hlisted. injection Hlisted as <-.
  destruct a as [ | | | | ds | ]; try discriminate Hidx.
  simpl in E0. injection E0 as <-.
  destruct (deliveries_from_index pc over_data z ds Hz E ds 0%nat out eq_refl H
              k d Hk) as (dk & j & Hdk & Hj & Hover).
  simpl in Hdk, Hj.
  destruct (index_from_spec _ _ _ _ _ Hj) as (_ & Hat & Hbefore).
  rewrite Nat.sub_0_r in Hat.
  assert (Hjk : (j <= k)%nat).
  { destruct (Nat.le_gt_cases j k) as [ Hle | Hgt ]; [ exact Hle | ].
    destruct (Hbefore k dk) as [_ Hne]; [ lia | exact Hdk | ].
    simpl in Hne. congruence. }
  exists ds, dk, j.
  split; [ exact E | ]. split; [ exact Hdk | ]. split; [ exact Hjk | ].
  split; [ exact Hover | ]. split; [ exact Hat | ].
  split; [ intros m dm Hm Hdm; apply (Hbefore m dm); [ lia | exact Hdm ] | ].
  intros Hb Hk10.
  assert (Hn : (Z.to_nat z < Z.to_nat over_bound)%nat) by lia.
  pose proof (over_keys_nth _ 0 _ k Hn Hk10) as Hi.
  destruct (ascending_some _ bounded_keys_ascending _ _ Hi) as (key & Hkey).
  unfold over_key in Hkey. cbn [Nat.add] in Hkey.
  rewrite Z2Nat.id in Hkey by lia.
  destruct (positional_over z k) as [ f | e ] eqn:Hf; [ | discriminate Hkey ].
  exists f. split; [ reflexivity | ].
  destruct (Nat.eq_dec j k) as [ Heq | Hne ].
  - subst j. rewrite Hf in Hover. injection Hover as Hover. rewrite <- Hover.
    pose proof (float_key_eqb f key Hkey) as Hrefl.
    split; [ apply SFeqb_leb; exact Hrefl | ].
    split; [ reflexivity | intros _; exact Hrefl ].
  - assert (Hlt : SFltb (over d) f = true).
    { apply (positional_over_lt (z, j) (z, k)); cbn [fst snd];
        [ exact Hb | exact Hb | lia | exact Hk10 | unfold slot; cbn [fst snd]; lia
        | exact Hover | exact Hf ]. }
    destruct (SFltb_leb _ _ Hlt) as [Hle Hneq].
    split; [ exact Hle | ].
    rewrite Hneq. split; [ discriminate | intros Heq; contradiction ].
Qed.

Lemma over_value_of_first_equal_witness :
  exists d,
    nth_error
      (match over_deliveries squad_cache (over_of 3 [dot_ball; wide; dot_ball]) with
       | Ok out => out
       | Raise _ => []
       end) 2 = Some d /\
    positional_over 3 0 = Ok (over d) /\
    exists f, positional_over 3 2 = Ok f /\
              SFleb (over d) f = true /\ SFeqb (over d) f = false.
Proof.
  eexists. split; [ vm_compute; reflexivity | ].
  match goal with
  | |- positional_over _ _ = Ok (over ?d) /\ _ =>
      destruct (over_value_of_first_equal squad_cache
                  (over_of 3 [dot_ball; wide; dot_ball]) 3
                  (match over_deliveries squad_cache
                           (over_of 3 [dot_ball; wide; dot_ball]) with
                   | Ok out => out
                   | Raise _ => []
                   end) 2 d)
        as (ds & dk & j & _ & _ & _ & _ & _ & _ & Hcmp)
  end.
  - vm_compute. reflexivity.
  - reflexivity.
  - vm_compute. reflexivity.
  - split; [ vm_compute; reflexivity | ].
    destruct Hcmp as (f & Hf & Hle & _);
      [ unfold over_bound; lia | lia | ].
    exists f. split; [ exact Hf | ]. split; [ exact Hle | ].
    vm_compute in Hf. injection Hf as <-. vm_compute. reflexivity.
Defined.

(** ** Players found by name *)

(** X4: a player reference is resolved by name to the first cached player of
    that name: with two registry entries of one name, every row naming it
    gets the id registered first. *)
Theorem first_registered_player_wins (pre post : pydict Player) (k : value)
    (q : Player) (n : string) :
  Forall (fun kq => player_name (snd kq) <> n) pre ->
  player_name q = n ->
  player_id_or_none (pre ++ (k, q) :: post) (Ok (VStr n)) = Ok (player_id q).
Proof.
  intros Hpre Hq. unfold player_id_or_none, pyd_values. rewrite map_app.
  induction Hpre as [ | [k' q'] r Hne Hr IH ]; simpl.
  - rewrite Hq, String.eqb_refl. reflexivity.
  - simpl in Hne. apply String.eqb_neq in Hne. rewrite Hne. exact IH.
Qed.

Lemma first_registered_player_wins_witness :
  player_id_or_none namesakes (Ok (VStr "R Sharma")) = Ok (VStr "p1").
Proof.
  apply (first_registered_player_wins []
           [(VStr "p2", mkPlayer (VStr "p2") "MS Gony" Persistent);
            (VStr "p3", mkPlayer (VStr "p3") "R Sharma" Persistent)]
           (VStr "p1") (mkPlayer (VStr "p1") "R Sharma" Persistent) "R Sharma").
  - constructor.
  - reflexivity.
Defined.

(** ** Fielders of a wicket *)

Lemma fielder_names_spec :
  forall fs names,
    fielder_names fs = Ok names ->
    Forall2 (fun f n => getitem f "name" = Ok n) fs names.
Proof.
  induction fs as [ | f r IH]; intros names H; simpl in H.
  - injection H as <-. constructor.
  - ok_steps H. injection H as <-. constructor; [ exact E | apply IH; exact E0 ].
Qed.

Lemma new_delivery_fielders (pc : pydict Player) (over_data : value) (p : nat)
    (delivery_data : value) (d : Delivery) :
  new_delivery pc over_data p delivery_data = Ok d ->
  exists fields wicket,
    delivery_data = VDict fields /\
    getidx (or_default (assoc "wickets" fields) (VList [VDict []])) 0
      = Ok (VDict wicket) /\
    forall fielders,
      assoc "fielders" wicket = Some fielders -> truthy fielders = true ->
      exists fs names,
        iter fielders = Ok fs /\ fielder_names fs = Ok names /\
        wicket_fielders d = VList names.
Proof.
  intros H.
  destruct (new_delivery_inv _ _ _ _ _ H)
    as (fields & wicket & declared & listed & i & runs & -> & Hw & _).
  exists fields, wicket. split; [ reflexivity | ]. split; [ exact Hw | ].
  intros fielders Hsome Htrue.
  unfold new_delivery in H. ok_steps H. injection H as <-.
  cbn [wicket_fielders].
  simpl in E. injection E as <-. unfold or_default in Hw.
  rewrite Hw in E0. injection E0 as <-.
  simpl in E19. rewrite Hsome in E19. injection E19 as <-.
  rewrite Htrue in E20. simpl in E20. rewrite Hsome in E20. simpl in E20.
  ok_steps E20. injection E20 as <-.
  exists a, a0. repeat split; assumption.
Qed.

(** X5: when the first wicket entry of a delivery lists fielders, the row's
    wicket_fielders is the list of their name entries, as many and in the
    same order, the fielders not being looked up in the player cache; with
    no fielders key, or an empty fielders list, it is null and not an empty
    list. *)
Theorem wicket_fielders_names (pc : pydict Player) (over_data : value) (p : nat)
    (delivery_data : value) (d : Delivery) :
  new_delivery pc over_data p delivery_data = Ok d ->
  exists fields wicket,
    delivery_data = VDict fields /\
    getidx (or_default (assoc "wickets" fields) (VList [VDict []])) 0
      = Ok (VDict wicket) /\
    (forall f fs,
        assoc "fielders" wicket = Some (VList (f :: fs)) ->
        exists names,
          wicket_fielders d = VList names /\
          Forall2 (fun x n => getitem x "name" = Ok n) (f :: fs) names) /\
    (assoc "fielders" wicket = None -> wicket_fielders d = VNone) /\
    (assoc "fielders" wicket = Some (VList []) -> wicket_fielders d = VNone).
Proof.
  intros H.
  destruct (new_delivery_fielders _ _ _ _ _ H)
    as (fields & wicket & -> & Hw & Hsome).
  destruct (new_delivery_inv _ _ _ _ _ H)
    as (fields' & wicket' & declared & listed & i & runs & Hf & Hw' & _ & _ & _
        & _ & _ & _ & _ & _ & _ & _ & _ & _ & _ & _ & _ & Hnone).
  injection Hf as <-. rewrite Hw in Hw'. injection Hw' as <-.
  exists fields, wicket. split; [ reflexivity | ]. split; [ exact Hw | ].
  split; [ | split ].
  - intros f fs Hfs.
    destruct (Hsome _ Hfs eq_refl) as (fs' & names & Hiter & Hnames & Hrow).
    simpl in Hiter. injection Hiter as <-.
    exists names. split; [ exact Hrow | ].
    apply fielder_names_spec. exact Hnames.
  - intros Hfs. apply Hnone. rewrite Hfs. reflexivity.
  - intros Hfs. apply Hnone. rewrite Hfs. reflexivity.
Qed.

Lemma wicket_fielders_names_witness :
  exists d,
    new_delivery squad_cache (over_of 1 [caught]) 0 caught = Ok d /\
    exists names,
      wicket_fielders d = VList names /\ List.length names = 2%nat.
Proof.
  eexists. split; [ vm_compute; reflexivity | ].
  match goal with
  | |- exists names, wicket_fielders ?d = _ /\ _ =>
      destruct (wicket_fielders_names squad_cache (over_of 1 [caught]) 0 caught
                  d eq_refl)
        as (fields & wicket & Hd & Hw & Hsome & _)
  end.
  unfold caught, ball in Hd. cbn [app] in Hd. injection Hd as Hd. subst fields.
  vm_compute in Hw. injection Hw as Hw. subst wicket.
  destruct (Hsome (VDict [("name", VStr "L Ronchi")])
              [VDict [("name", VStr "A Substitute")]] eq_refl)
    as (names & Hrow & Hrel).
  exists names. split; [ exact Hrow | ].
  symmetry. apply (Forall2_length Hrel).
Defined.

(** ** The match id of a file *)

Lemma list_ascii_of_append (a b : string) :
  list_ascii_of_string (String.append a b)
  = list_ascii_of_string a ++ list_ascii_of_string b.
Proof.
  induction a as [ | c a IH]; simpl; [ reflexivity | ].
  rewrite IH. reflexivity.
Qed.

Lemma last_dot_app (cs1 cs2 : list ascii) :
  forall i found,
    last_dot (cs1 ++ cs2) i found
    = last_dot cs2 (i + List.length cs1) (last_dot cs1 i found).
Proof.
  induction cs1 as [ | c r IH]; intros i found; simpl.
  - rewrite Nat.add_0_r. reflexivity.
  - rewrite IH. replace (S i + List.length r)%nat with (i + S (List.length r))%nat by lia.
    reflexivity.
Qed.

Lemma last_dot_none (cs : list ascii) :
  forallb (fun c => negb (Ascii.eqb c dot)) cs = true ->
  forall i found, last_dot cs i found = found.
Proof.
  induction cs as [ | c r IH]; intros H i found; simpl; [ reflexivity | ].
  simpl in H. apply andb_true_iff in H. destruct H as [Hc Hr].
  apply negb_true_iff in Hc. rewrite Hc. apply IH. exact Hr.
Qed.

(** X6: for a file name [stem.ext] whose extension has no dot, the match id
    is the stem whenever the stem has a character other than a dot, and the
    whole file name when the stem is empty or made of dots only. *)
Theorem match_id_is_stem (stem ext : string) :
  forallb (fun c => negb (Ascii.eqb c dot)) (list_ascii_of_string ext) = true ->
  splitext_root (String.append stem (String "." ext))
  = if existsb (fun c => negb (Ascii.eqb c dot)) (list_ascii_of_string stem)
    then stem
    else String.append stem (String "." ext).
Proof.
  intros Hext. unfold splitext_root.
  rewrite list_ascii_of_append. simpl list_ascii_of_string.
  rewrite last_dot_app. simpl last_dot.
  change (Ascii.eqb "." dot) with true. cbv iota.
  rewrite (last_dot_none _ Hext). simpl.
  rewrite firstn_app, Nat.sub_diag, firstn_all. simpl. rewrite app_nil_r.
  destruct (existsb _ (list_ascii_of_string stem)); [ | reflexivity ].
  apply string_of_list_ascii_of_string.
Qed.

Lemma match_id_is_stem_witness :
  splitext_root "335982.json" = "335982".
Proof.
  apply (match_id_is_stem "335982" "json"). reflexivity.
Defined.

(** ** What a run leaves in the store and on the output *)

Lemma flush_matches (st : State) :
  tbl_matches (db (flush st)) = tbl_matches (db st) ++ session_new st.
Proof.
  unfold flush.
  destruct (flush_teams _ _) as [tc trows].
  destruct (flush_players _ _) as [pc prows]. reflexivity.
Qed.

Section RunShape.

Variable to_date : value -> result date.
Variable commit_error : State -> option string.

Lemma process_document_failed (st : State) (file : string * option value)
    (e : exn) (d : Store) (out : list string) :
  process_document to_date commit_error st file = Failed e d out ->
  out = stdout st ++ [processing (fst file)] /\ store_extends (db st) d.
Proof.
  unfold process_document. intros H.
  destruct (resolve_entities _ _ _) as [ [[data pc] tc] | e1 ].
  - destruct (commit _ _) as [ st2 | e2 ] eqn:Ec.
    + destruct (assemble _ _ _ _ _) as [ m | e3 ]; [ discriminate H | ].
      injection H as _ <- <-. split; [ reflexivity | ].
      destruct (commit_ok _ _ _ Ec) as [_ ->].
      apply (flush_extends (mkState _ _ _ _ _)).
    + injection H as _ <- <-. split; [ reflexivity | apply store_extends_refl ].
  - injection H as _ <- <-. split; [ reflexivity | apply store_extends_refl ].
Qed.

Lemma process_document_stdout (st st' : State) (file : string * option value) :
  process_document to_date commit_error st file = Next st' ->
  stdout st' = stdout st ++ [processing (fst file)].
Proof.
  intros H.
  destruct (process_document_inv _ _ _ _ _ H)
    as (data & pc & tc & st2 & m & _ & _ & _ & _ & ->).
  reflexivity.
Qed.

Lemma process_files_stdout (files : list (string * option value)) :
  forall st st',
    process_files to_date commit_error st files = Next st' ->
    stdout st' = stdout st ++ map (fun f => processing (fst f)) files.
Proof.
  induction files as [ | f r IH]; intros st st' H; simpl in H.
  - injection H as <-. rewrite app_nil_r. reflexivity.
  - destruct (process_document to_date commit_error st f) as [ st1 | ] eqn:Ef;
      [ | discriminate H ].
    rewrite (IH _ _ H), (process_document_stdout _ _ _ Ef), <- app_assoc.
    reflexivity.
Qed.

Lemma process_files_failed (files : list (string * option value)) :
  forall st e d out,
    process_files to_date commit_error st files = Failed e d out ->
    store_extends (db st) d /\
    exists pre f post,
      files = pre ++ f :: post /\
      out = stdout st ++ map (fun g => processing (fst g)) (pre ++ [f]).
Proof.
  induction files as [ | f r IH]; intros st e d out H; simpl in H;
    [ discriminate H | ].
  destruct (process_document to_date commit_error st f) as [ st1 | e1 d1 out1 ] eqn:Ef.
  - destruct (IH _ _ _ _ H) as (Hext & pre & g & post & -> & ->).
    split.
    + apply (store_extends_trans _ (db st1));
        [ apply (process_document_extends _ _ _ _ _ Ef) | exact Hext ].
    + exists (f :: pre), g, post. split; [ reflexivity | ].
      rewrite (process_document_stdout _ _ _ Ef), <- app_assoc. reflexivity.
  - injection H as <- <- <-.
    destruct (process_document_failed _ _ _ _ _ Ef) as [-> Hext].
    split; [ exact Hext | ].
    exists [], f, r. split; reflexivity.
Qed.

(** X7: whatever the files hold and whatever the database answers, a run
    leaves every row that was in the store before it, in place: the loader
    only appends rows, also when it raises or when the final commit fails. *)
Theorem run_keeps_stored_rows (d : Store) (dir : list (string * option value)) :
  match process_and_load_data to_date commit_error d dir with
  | Returned d' _ => store_extends d d'
  | Raised _ d' _ => store_extends d d'
  end.
Proof.
  unfold process_and_load_data.
  destruct (process_files _ _ _ _) as [ st | e d' out ] eqn:Hrun.
  - pose proof (process_files_extends _ _ _ _ _ Hrun) as Hext. simpl in Hext.
    unfold final_commit. destruct (commit commit_error st) as [ st' | e ] eqn:Ec.
    + destruct (commit_ok _ _ _ Ec) as [_ ->].
      apply (store_extends_trans _ (db st)); [ exact Hext | apply flush_extends ].
    + exact Hext.
  - destruct (process_files_failed _ _ _ _ _ Hrun) as [Hext _]. exact Hext.
Qed.

(** X8: a run prints one Processing line per json entry of the directory, in
    directory order, and nothing for the other entries; a run that returns
    adds one closing line, the success message or the message of the failed
    final commit, and a run that raises stops after the line of the file it
    failed on. *)
Theorem run_output_lines (d : Store) (dir : list (string * option value)) :
  match process_and_load_data to_date commit_error d dir with
  | Returned _ out =>
      exists last,
        out = map (fun f => processing (fst f)) (filter is_json dir) ++ [last] /\
        (last = "Successfully committed all data to the database." \/
         exists msg,
           last = String.append "An error occurred during final commit: " msg)
  | Raised _ _ out =>
      exists pre f post,
        filter is_json dir = pre ++ f :: post /\
        out = map (fun g => processing (fst g)) (pre ++ [f])
  end.
Proof.
  unfold process_and_load_data.
  change (fun f : string * option value => endswith (fst f) ".json") with is_json.
  destruct (process_files _ _ _ _) as [ st | e d' out ] eqn:Hrun.
  - pose proof (process_files_stdout _ _ _ Hrun) as Hout. simpl in Hout.
    unfold final_commit. destruct (commit commit_error st) as [ st' | e ] eqn:Ec.
    + destruct (commit_ok _ _ _ Ec) as [_ ->].
      eexists. split; [ | left; reflexivity ].
      unfold flush.
      destruct (flush_teams _ _) as [tc trows].
      destruct (flush_players _ _) as [pc prows]. simpl. rewrite Hout.
      reflexivity.
    + eexists. split; [ | right; eexists; reflexivity ].
      simpl. rewrite Hout. reflexivity.
  - destruct (process_files_failed _ _ _ _ _ Hrun) as (_ & pre & f & post & Hsplit & ->).
    exists pre, f, post. split; [ exact Hsplit | reflexivity ].
Qed.

End RunShape.

(** ** Which matches a run stores *)

Lemma removelast_map {A B : Type} (f : A -> B) (l : list A) :
  removelast (map f l) = map f (removelast l).
Proof.
  induction l as [ | a l IH]; [ reflexivity | ].
  destruct l as [ | b l ]; [ reflexivity | ].
  simpl in *. rewrite IH. reflexivity.
Qed.

Section StoredMatches.

Variable to_date : value -> result date.
Variable commit_error : State -> option string.

Lemma assemble_match_id (tc : pydict Team) (pc : pydict Player) (data : value)
    (file_name : string) (m : Match) :
  assemble to_date tc pc data file_name = Ok m ->
  match_id m = splitext_root file_name.
Proof.
  intros H.
  destruct (assemble_inv _ _ _ _ _ _ H) as (info & m0 & inns & _ & Hm0 & _ & _ & ->).
  unfold new_match in Hm0. ok_steps Hm0. injection Hm0 as <-. reflexivity.
Qed.

Lemma process_document_matches (st st' : State) (file : string * option value) :
  process_document to_date commit_error st file = Next st' ->
  tbl_matches (db st') = tbl_matches (db st) ++ session_new st /\
  exists m, session_new st' = [m] /\ match_id m = splitext_root (fst file).
Proof.
  intros H.
  destruct (process_document_inv _ _ _ _ _ H)
    as (data & pc & tc & st2 & m & _ & _ & -> & Hasm & ->).
  simpl. split.
  - rewrite flush_matches. reflexivity.
  - exists m. split; [ reflexivity | ].
    apply (assemble_match_id _ _ _ _ _ Hasm).
Qed.

(** After the loop over a non-empty list of files, the session holds the
    match of the last file and the store those of the files before it. *)
Lemma process_files_matches (files : list (string * option value)) :
  forall st st',
    process_files to_date commit_error st files = Next st' ->
    files <> [] ->
    exists ms m,
      tbl_matches (db st') = tbl_matches (db st) ++ session_new st ++ ms /\
      session_new st' = [m] /\
      map match_id (ms ++ [m]) = map (fun f => splitext_root (fst f)) files.
Proof.
  induction files as [ | f r IH]; intros st st' H Hne; [ congruence | ].
  simpl in H.
  destruct (process_document to_date commit_error st f) as [ st1 | ] eqn:Ef;
    [ | discriminate H ].
  destruct (process_document_matches _ _ _ Ef) as (Hdb & m1 & Hs1 & Hid1).
  destruct r as [ | g r ].
  - simpl in H. injection H as <-.
    exists [], m1. rewrite app_nil_r. simpl. rewrite Hid1.
    repeat split; assumption.
  - destruct (IH _ _ H) as (ms & m & Hdb' & Hs' & Hids); [ discriminate | ].
    exists (m1 :: ms), m. split; [ | split ].
    + rewrite Hdb', Hdb, Hs1, <- !app_assoc. reflexivity.
    + exact Hs'.
    + simpl. rewrite Hid1. f_equal. exact Hids.
Qed.

(** X9: a run that returns has added to the matches table one row per json
    file, in directory order and under the file's stem as id, when it ends
    with the success message; when the final commit failed it has added the
    rows of all json files but the last, whose match is the only one lost. *)
Theorem stored_matches_of_run (d d' : Store) (dir : list (string * option value))
    (out : list string) :
  process_and_load_data to_date commit_error d dir = Returned d' out ->
  exists ms last,
    tbl_matches d' = tbl_matches d ++ ms /\
    out = map (fun f => processing (fst f)) (filter is_json dir) ++ [last] /\
    ((last = "Successfully committed all data to the database." /\
      map match_id ms = map (fun f => splitext_root (fst f)) (filter is_json dir))
     \/
     (exists msg,
         last = String.append "An error occurred during final commit: " msg /\
         map match_id ms
         = map (fun f => splitext_root (fst f)) (removelast (filter is_json dir)))).
Proof.
  unfold process_and_load_data.
  change (fun f : string * option value => endswith (fst f) ".json") with is_json.
  intros H.
  destruct (process_files _ _ _ _) as [ st | e d1 out1 ] eqn:Hrun;
    [ | discriminate H ].
  pose proof (process_files_stdout _ _ _ _ _ Hrun) as Hout. simpl in Hout.
  assert (Hms : exists ms pending,
             tbl_matches (db st) = tbl_matches d ++ ms /\
             session_new st = pending /\
             map match_id (ms ++ pending)
             = map (fun f => splitext_root (fst f)) (filter is_json dir) /\
             map match_id ms
             = map (fun f => splitext_root (fst f))
                 (removelast (filter is_json dir))).
  { destruct (filter is_json dir) as [ | f r ] eqn:Hfiles.
    - simpl in Hrun. injection Hrun as <-.
      exists [], []. simpl. rewrite app_nil_r. repeat split; reflexivity.
    - destruct (process_files_matches _ _ _ Hrun) as (ms & m & Hdb & Hs & Hids);
        [ discriminate | ].
      simpl in Hdb. exists ms, [m].
      split; [ exact Hdb | ]. split; [ exact Hs | ]. split; [ exact Hids | ].
      apply (f_equal (@removelast string)) in Hids.
      rewrite !removelast_map, removelast_last in Hids. exact Hids. }
  destruct Hms as (ms & pending & Hdb & Hs & Hall & Hbut).
  unfold final_commit in H.
  destruct (commit commit_error st) as [ st' | e ] eqn:Ec.
  - destruct (commit_ok _ _ _ Ec) as [_ ->].
    injection H as <- <-.
    exists (ms ++ pending), "Successfully committed all data to the database.".
    split; [ rewrite flush_matches, Hdb, Hs, app_assoc; reflexivity | ].
    split.
    + unfold flush.
      destruct (flush_teams _ _) as [tc trows].
      destruct (flush_players _ _) as [pc prows]. simpl. rewrite Hout.
      reflexivity.
    + left. split; [ reflexivity | exact Hall ].
  - injection H as <- <-.
    exists ms. eexists. split; [ exact Hdb | ]. split.
    + simpl. rewrite Hout. reflexivity.
    + right. eexists. split; [ reflexivity | exact Hbut ].
Qed.

End StoredMatches.

Lemma stored_matches_of_run_witness :
  exists d out,
    main iso_date accepting
      [("335982.json", Some two_balls); ("notes.txt", None);
       ("335983.json", Some second_match)]
    = Returned d out /\
    map match_id (tbl_matches d) = ["335982"; "335983"].
Proof.
  do 2 eexists. split; [ vm_compute; reflexivity | ].
  match goal with
  | |- map match_id (tbl_matches ?d) = _ =>
      destruct (stored_matches_of_run iso_date accepting create_database d
                  [("335982.json", Some two_balls); ("notes.txt", None);
                   ("335983.json", Some second_match)] _ eq_refl)
        as (ms & last & Hdb & Hout & Hcases)
  end.
  rewrite Hdb. unfold create_database, empty_store. cbn [tbl_matches app].
  destruct Hcases as [ [_ Hids] | (msg & Hlast & _) ].
  - rewrite Hids. vm_compute. reflexivity.
  - vm_compute in Hout. injection Hout as Hlast'. rewrite Hlast in Hlast'.
    discriminate Hlast'.
Defined.

(** ** The caches mirror the tables *)

Lemma fold_max_bounded (l : list Z) (a : Z) :
  Forall (fun y => (y <= a)%Z) l -> fold_right Z.max a l = a.
Proof.
  induction 1 as [ | y l Hy Hl IH ]; simpl; [ reflexivity | ].
  rewrite IH. lia.
Qed.

Lemma next_rowid_seq (rows : list (Z * value)) :
  map fst rows = map Z.of_nat (seq 1 (List.length rows)) ->
  next_rowid rows = (Z.of_nat (List.length rows) + 1)%Z.
Proof.
  intros H. unfold next_rowid. rewrite H. f_equal.
  generalize (List.length rows) as n. clear H. intros n.
  induction n as [ | n IH]; [ reflexivity | ].
  rewrite seq_S, map_app, fold_right_app. simpl.
  rewrite fold_max_bounded.
  - lia.
  - apply Forall_forall. intros y Hy. apply in_map_iff in Hy.
    destruct Hy as (k & <- & Hk). apply in_seq in Hk. lia.
Qed.

Lemma flush_teams_ids (l : pydict Team) :
  forall rows,
    map fst rows = map Z.of_nat (seq 1 (List.length rows)) ->
    map fst (snd (flush_teams l rows))
    = map Z.of_nat (seq 1 (List.length (snd (flush_teams l rows)))).
Proof.
  induction l as [ | [k t] r IH]; intros rows H; simpl; [ exact H | ].
  destruct (team_state t).
  - specialize (IH rows H). destruct (flush_teams r rows). exact IH.
  - assert (H' : map fst (rows ++ [(next_rowid rows, team_name t)])
                 = map Z.of_nat
                     (seq 1 (List.length (rows ++ [(next_rowid rows, team_name t)])))).
    { rewrite map_app, length_app. simpl.
      rewrite Nat.add_1_r, seq_S, map_app, <- H, (next_rowid_seq _ H). simpl.
      do 2 f_equal. lia. }
    specialize (IH _ H'). destruct (flush_teams r _). exact IH.
  - specialize (IH rows H). destruct (flush_teams r rows). exact IH.
Qed.

Lemma flush_teams_rows (l : pydict Team) :
  Forall (fun kt => snd kt = mkTeam VNone (fst kt) Pending) l ->
  forall rows,
    exists newrows,
      snd (flush_teams l rows) = rows ++ newrows /\
      Forall2 team_row (fst (flush_teams l rows)) newrows.
Proof.
  induction 1 as [ | [k t] r Ht Hr IH ]; intros rows; simpl.
  - exists []. rewrite app_nil_r. split; constructor.
  - simpl in Ht. subst t. simpl.
    destruct (IH (rows ++ [(next_rowid rows, k)])) as (newrows & Hrows & Hrel).
    destruct (flush_teams r _) as [r' rows']. simpl in *.
    exists ((next_rowid rows, k) :: newrows). split.
    + rewrite Hrows, <- app_assoc. reflexivity.
    + constructor; [ split; reflexivity | exact Hrel ].
Qed.

Lemma flush_players_app_persistent (pc l : pydict Player) :
  Forall (fun kq => player_state (snd kq) = Persistent) pc ->
  forall rows,
    flush_players (pc ++ l) rows
    = (pc ++ fst (flush_players l rows), snd (flush_players l rows)).
Proof.
  induction 1 as [ | [k q] r Hq Hr IH ]; intros rows; simpl.
  - destruct (flush_players l rows). reflexivity.
  - simpl in Hq. rewrite Hq, IH. reflexivity.
Qed.

Lemma flush_players_rows (l : pydict Player) :
  Forall (fun kq => exists name, snd kq = mkPlayer (fst kq) name Pending) l ->
  forall rows,
    exists newrows,
      snd (flush_players l rows) = rows ++ newrows /\
      Forall2 player_row (fst (flush_players l rows)) newrows.
Proof.
  induction 1 as [ | [k q] r Hq Hr IH ]; intros rows; simpl.
  - exists []. rewrite app_nil_r. split; constructor.
  - simpl in Hq. destruct Hq as [name ->]. simpl.
    destruct (IH (rows ++ [(k, name)])) as (newrows & Hrows & Hrel).
    destruct (flush_players r _) as [r' rows']. simpl in *.
    exists ((k, name) :: newrows). split.
    + rewrite Hrows, <- app_assoc. reflexivity.
    + constructor; [ split; reflexivity | exact Hrel ].
Qed.

Lemma flush_players_of (st : State) :
  player_cache (flush st)
  = fst (flush_players (player_cache st) (tbl_players (db st))) /\
  tbl_players (db (flush st))
  = snd (flush_players (player_cache st) (tbl_players (db st))).
Proof.
  unfold flush.
  destruct (flush_teams _ _) as [tc trows].
  destruct (flush_players _ _) as [pc prows]. split; reflexivity.
Qed.

Lemma add_all_players_persistent (pc : pydict Player) :
  Forall (fun kq => player_state (snd kq) = Persistent) pc ->
  add_all add_player pc = pc.
Proof.
  induction 1 as [ | [k q] r Hq Hr IH ]; [ reflexivity | ].
  unfold add_all in *. simpl in *. rewrite IH. unfold add_player.
  rewrite Hq. reflexivity.
Qed.

Lemma add_all_players_transient (new : pydict Player) :
  Forall (fun kq => exists name, snd kq = mkPlayer (fst kq) name Transient) new ->
  Forall (fun kq => exists name, snd kq = mkPlayer (fst kq) name Pending)
    (add_all add_player new) /\
  map fst (add_all add_player new) = map fst new.
Proof.
  induction 1 as [ | [k q] r Hq Hr [IH1 IH2] ]; [ split; constructor | ].
  simpl in *. destruct Hq as [name ->]. split.
  - constructor; [ exists name; reflexivity | exact IH1 ].
  - simpl. f_equal. exact IH2.
Qed.

Lemma register_people_spec :
  forall people pc pc',
    register_people pc people = Ok pc' ->
    exists new,
      pc' = pc ++ new /\
      Forall (fun kq => exists name, snd kq = mkPlayer (fst kq) name Transient) new /\
      (ForallOrdPairs unequal (map fst pc) ->
       ForallOrdPairs unequal (map fst pc')) /\
      (Forall (fun k => hashable k = true) (map fst pc) ->
       Forall (fun k => hashable k = true) (map fst pc')).
Proof.
  induction people as [ | [name pid] r IH]; intros pc pc' H; simpl in H.
  - injection H as <-. exists []. rewrite app_nil_r.
    repeat match goal with |- _ /\ _ => split end; auto.
  - apply bind_ok in H. destruct H as (fresh & Hfresh & H).
    unfold not_in in Hfresh.
    destruct (hashable pid) eqn:Hn; [ | discriminate Hfresh ].
    injection Hfresh as <-.
    destruct (IH _ _ H) as (new & -> & Hnew & Hpairs & Hhash).
    destruct (pyd_mem pid pc) eqn:Emem; simpl in *.
    + exists new. repeat match goal with |- _ /\ _ => split end; auto.
    + exists ((pid, mkPlayer pid name Transient) :: new).
      rewrite <- app_assoc. simpl.
      repeat match goal with |- _ /\ _ => split end.
      * reflexivity.
      * constructor; [ exists name; reflexivity | exact Hnew ].
      * intros Hp. rewrite <- app_assoc in Hpairs. simpl in Hpairs.
        apply Hpairs. rewrite map_app. simpl.
        apply ForallOrdPairs_snoc; [ exact Hp | ].
        apply not_mem_unequal. exact Emem.
      * intros Hh. rewrite <- app_assoc in Hhash. simpl in Hhash.
        apply Hhash. rewrite map_app. apply Forall_app. split; [ exact Hh | ].
        constructor; [ exact Hn | constructor ].
Qed.

Lemma resolve_entities_players (pc0 : pydict Player) (tc0 : pydict Team)
    (data data' : value) (pc : pydict Player) (tc : pydict Team) :
  resolve_entities pc0 tc0 (Some data) = Ok (data', pc, tc) ->
  exists new,
    pc = pc0 ++ new /\
    Forall (fun kq => exists name, snd kq = mkPlayer (fst kq) name Transient) new /\
    (ForallOrdPairs unequal (map fst pc0) -> ForallOrdPairs unequal (map fst pc)) /\
    (Forall (fun k => hashable k = true) (map fst pc0) ->
     Forall (fun k => hashable k = true) (map fst pc)).
Proof.
  unfold resolve_entities. intros H. simpl in H. ok_steps H.
  injection H as _ <- _.
  assert (Hsame : exists new : pydict Player,
             pc0 = pc0 ++ new /\
             Forall (fun kq => exists name,
                         snd kq = mkPlayer (fst kq) name Transient) new /\
             (ForallOrdPairs unequal (map fst pc0) ->
              ForallOrdPairs unequal (map fst pc0)) /\
             (Forall (fun k => hashable k = true) (map fst pc0) ->
              Forall (fun k => hashable k = true) (map fst pc0))).
  { exists []. rewrite app_nil_r.
    repeat match goal with |- _ /\ _ => split end; auto. }
  destruct a0.
  - ok_steps E1. destruct a5.
    + ok_steps E1. apply (register_people_spec _ _ _ E1).
    + injection E1 as <-. exact Hsame.
  - injection E1 as <-. exact Hsame.
Qed.

Lemma flush_players_keys (l : pydict Player) :
  forall rows, map fst (fst (flush_players l rows)) = map fst l.
Proof.
  induction l as [ | [k q] r IH]; intros rows; simpl; [ reflexivity | ].
  destruct (player_state q).
  - specialize (IH rows). destruct (flush_players r rows). simpl in *.
    f_equal. exact IH.
  - specialize (IH (rows ++ [(player_id q, player_name q)])).
    destruct (flush_players r _). simpl in *. f_equal. exact IH.
  - specialize (IH rows). destruct (flush_players r rows). simpl in *.
    f_equal. exact IH.
Qed.

Lemma Forall2_in_left {A B : Type} (R : A -> B -> Prop) (l : list A)
    (l' : list B) (a : A) :
  Forall2 R l l' -> In a l -> exists b, In b l' /\ R a b.
Proof.
  induction 1 as [ | x y l l' Hxy _ IH ]; intros Hin; [ destruct Hin | ].
  destruct Hin as [ <- | Hin ].
  - exists y. split; [ left; reflexivity | exact Hxy ].
  - destruct (IH Hin) as (b & Hb & Hab). exists b.
    split; [ right; exact Hb | exact Hab ].
Qed.

Lemma team_row_persistent (tc : pydict Team) (rows : list (Z * value)) :
  Forall2 team_row tc rows ->
  Forall (fun kt => team_state (snd kt) = Persistent) tc.
Proof.
  induction 1 as [ | kt row tc rows [_ Ht] _ IH ]; constructor; [ | exact IH ].
  rewrite Ht. reflexivity.
Qed.

Lemma player_row_persistent (pc : pydict Player) (rows : list (value * string)) :
  Forall2 player_row pc rows ->
  Forall (fun kq => player_state (snd kq) = Persistent) pc.
Proof.
  induction 1 as [ | kq row pc rows [_ Hq] _ IH ]; constructor; [ | exact IH ].
  rewrite Hq. reflexivity.
Qed.

Lemma team_ref_row (d : Store) (tc : pydict Team) (v : value) :
  Forall2 team_row tc (tbl_teams d) -> team_ref tc v -> team_row_ref d v.
Proof.
  intros Hrel (t & Hin & <-). unfold pyd_values in Hin.
  apply in_map_iff in Hin. destruct Hin as (kt & <- & Hkt).
  destruct (Forall2_in_left _ _ _ _ Hrel Hkt) as (row & Hrow & _ & Ht).
  destruct row as [i n]. exists i, n. split; [ exact Hrow | ].
  rewrite Ht. reflexivity.
Qed.

Lemma player_ref_row (d : Store) (pc : pydict Player) (v : value) :
  Forall2 player_row pc (tbl_players d) -> player_ref pc v -> player_row_ref d v.
Proof.
  intros Hrel (q & Hin & <-). unfold pyd_values in Hin.
  apply in_map_iff in Hin. destruct Hin as (kq & <- & Hkq).
  destruct (Forall2_in_left _ _ _ _ Hrel Hkq) as (row & Hrow & _ & Hq).
  destruct row as [pid n]. exists n. rewrite Hq. exact Hrow.
Qed.

Lemma null_or_impl (P Q : value -> Prop) (v : value) :
  (forall x, P x -> Q x) -> null_or P v -> null_or Q v.
Proof.
  intros H [ Hn | Hp ]; [ left; exact Hn | right; apply H; exact Hp ].
Qed.

Lemma match_refs_rows (d : Store) (tc : pydict Team) (pc : pydict Player)
    (m : Match) :
  Forall2 team_row tc (tbl_teams d) ->
  Forall2 player_row pc (tbl_players d) ->
  match_refs tc pc m -> match_rows_refs d m.
Proof.
  intros Ht Hp (H1 & H2 & H3 & H4 & H5 & H6).
  pose proof (team_ref_row d tc) as Tr. pose proof (player_ref_row d pc) as Pr.
  unfold match_rows_refs.
  split; [ apply Tr; assumption | ].
  split; [ apply Tr; assumption | ].
  split; [ apply Tr; assumption | ].
  split; [ apply (null_or_impl _ _ _ (fun x => Tr x Ht) H4) | ].
  split; [ apply (null_or_impl _ _ _ (fun x => Pr x Hp) H5) | ].
  apply (Forall_impl _ (P := inning_refs tc pc)); [ | exact H6 ].
  intros inn (Hb & Hd). split; [ apply Tr; assumption | ].
  apply (Forall_impl _ (P := delivery_refs pc)); [ | exact Hd ].
  intros x (Ha & Hbw & Hn & Ho).
  repeat split; eapply null_or_impl; try eassumption; intros y Hy; apply Pr; assumption.
Qed.

Lemma team_row_ref_extends (d d' : Store) (v : value) :
  store_extends d d' -> team_row_ref d v -> team_row_ref d' v.
Proof.
  intros ([t Ht] & _ & _) (i & n & Hin & ->).
  exists i, n. split; [ | reflexivity ].
  rewrite Ht. apply in_or_app. left. exact Hin.
Qed.

Lemma player_row_ref_extends (d d' : Store) (v : value) :
  store_extends d d' -> player_row_ref d v -> player_row_ref d' v.
Proof.
  intros (_ & [p Hp] & _) (n & Hin).
  exists n. rewrite Hp. apply in_or_app. left. exact Hin.
Qed.

Lemma match_rows_refs_extends (d d' : Store) (m : Match) :
  store_extends d d' -> match_rows_refs d m -> match_rows_refs d' m.
Proof.
  intros Hext (H1 & H2 & H3 & H4 & H5 & H6).
  pose proof (fun v => team_row_ref_extends d d' v Hext) as Tr.
  pose proof (fun v => player_row_ref_extends d d' v Hext) as Pr.
  unfold match_rows_refs.
  split; [ apply Tr; assumption | ].
  split; [ apply Tr; assumption | ].
  split; [ apply Tr; assumption | ].
  split; [ apply (null_or_impl _ _ _ Tr H4) | ].
  split; [ apply (null_or_impl _ _ _ Pr H5) | ].
  apply (Forall_impl _ (P := inning_rows_refs d)); [ | exact H6 ].
  intros inn (Hb & Hd). split; [ apply Tr; assumption | ].
  apply (Forall_impl _ (P := delivery_rows_refs d)); [ | exact Hd ].
  intros x (Ha & Hbw & Hn & Ho).
  repeat split; eapply null_or_impl; try eassumption.
Qed.

(** The commit of line 119, on caches that grew by transient entries. *)
Lemma commit_keeps_store_inv (st : State) (new_p : pydict Player)
    (new_t : pydict Team) (out : list string) :
  store_inv st ->
  Forall (fun kq => exists name, snd kq = mkPlayer (fst kq) name Transient) new_p ->
  Forall (fun kt => snd kt = mkTeam VNone (fst kt) Transient) new_t ->
  ForallOrdPairs unequal (map fst (player_cache st ++ new_p)) ->
  Forall (fun k => hashable k = true) (map fst (player_cache st ++ new_p)) ->
  store_inv
    (flush (mkState (add_all add_player (player_cache st ++ new_p))
              (add_all add_team (team_cache st ++ new_t))
              (session_new st) (db st) out)).
Proof.
  intros (Ht & Hp & Hpairs & Hhash & Hids & Hm) Hnp Hnt Hpairs' Hhash'.
  pose proof (team_row_persistent _ _ Ht) as Htp.
  pose proof (player_row_persistent _ _ Hp) as Hpp.
  assert (Ha : add_all add_team (team_cache st ++ new_t)
               = team_cache st ++ add_all add_team new_t).
  { unfold add_all at 1. rewrite map_app.
    fold (add_all add_team (team_cache st)). fold (add_all add_team new_t).
    rewrite (add_all_persistent _ Htp). reflexivity. }
  assert (Hb : add_all add_player (player_cache st ++ new_p)
               = player_cache st ++ add_all add_player new_p).
  { unfold add_all at 1. rewrite map_app.
    fold (add_all add_player (player_cache st)). fold (add_all add_player new_p).
    rewrite (add_all_players_persistent _ Hpp). reflexivity. }
  rewrite Ha, Hb.
  set (st1 := mkState _ _ _ _ _).
  destruct (flush_teams_of st1) as [Hc Hr].
  destruct (flush_players_of st1) as [Hpc Hpr].
  pose proof (flush_matches st1) as Hmt.
  pose proof (flush_session st1) as Hs.
  pose proof (flush_extends st1) as Hext.
  subst st1.
  cbn [team_cache player_cache db session_new] in Hc, Hr, Hpc, Hpr, Hmt, Hext.
  rewrite (flush_teams_app_persistent _ _ Htp) in Hc, Hr.
  rewrite (flush_players_app_persistent _ _ Hpp) in Hpc, Hpr.
  cbn [fst snd] in Hc, Hr, Hpc, Hpr.
  destruct (add_all_transient _ Hnt) as [Hpend _].
  destruct (add_all_players_transient _ Hnp) as [Hppend Hpkeys].
  destruct (flush_teams_rows _ Hpend (tbl_teams (db st))) as (trows & Htr & Htrel).
  destruct (flush_players_rows _ Hppend (tbl_players (db st))) as (prows & Hprr & Hprel).
  unfold store_inv.
  rewrite Hc, Hr, Hpc, Hpr, Hmt, Hs, app_nil_r.
  split; [ | split; [ | split; [ | split; [ | split ] ] ] ].
  - rewrite Htr. apply Forall2_app; assumption.
  - rewrite Hprr. apply Forall2_app; assumption.
  - rewrite map_app, flush_players_keys, Hpkeys, <- map_app. exact Hpairs'.
  - rewrite map_app, flush_players_keys, Hpkeys, <- map_app. exact Hhash'.
  - apply flush_teams_ids. exact Hids.
  - apply (Forall_impl _ (P := match_rows_refs (db st))); [ | exact Hm ].
    intros m. apply match_rows_refs_extends. exact Hext.
Qed.

Lemma next_where_found {A : Type} (cond : A -> result bool) (xs : list A) (x : A) :
  next_where cond xs = Ok (Some x) -> cond x = Ok true.
Proof.
  induction xs as [ | y r IH]; simpl; intros H; [ discriminate H | ].
  apply bind_ok in H. destruct H as (c & Hc & H).
  destruct c.
  - injection H as <-. exact Hc.
  - apply IH. exact H.
Qed.

Lemma team_id_where_named (tc : pydict Team) (rhs : result value) (v : value) :
  team_id_where tc rhs = Ok v ->
  exists t x,
    In t (pyd_values tc) /\ rhs = Ok x /\ py_eq (team_name t) x = true /\
    team_id t = v.
Proof.
  unfold team_id_where. intros H.
  apply bind_ok in H. destruct H as ([ t | ] & Hn & H); [ | discriminate H ].
  injection H as <-.
  pose proof (next_where_found _ _ _ Hn) as Hc.
  apply bind_ok in Hc. destruct Hc as (x & Hx & Hc). injection Hc as Hc.
  exists t, x. split; [ apply (next_where_in _ _ _ Hn) | ].
  repeat split; assumption.
Qed.

Lemma team_id_where_row (d : Store) (tc : pydict Team) (rhs : result value)
    (v : value) :
  Forall2 team_row tc (tbl_teams d) ->
  team_id_where tc rhs = Ok v -> names_row d v rhs.
Proof.
  intros Hrel H.
  destruct (team_id_where_named _ _ _ H) as (t & x & Hin & Hrhs & Heq & <-).
  unfold pyd_values in Hin. apply in_map_iff in Hin.
  destruct Hin as (kt & <- & Hkt).
  destruct (Forall2_in_left _ _ _ _ Hrel Hkt) as ([i n] & Hrow & _ & Ht).
  simpl in Ht. rewrite Ht in Heq |- *. simpl in Heq |- *.
  exists i, n, x. repeat split; assumption.
Qed.

Lemma state_eta (st : State) :
  mkState (player_cache st) (team_cache st) (session_new st) (db st) (stdout st)
  = st.
Proof. destruct st. reflexivity. Qed.

Lemma initial_store_inv : store_inv (initial_state create_database).
Proof.
  unfold store_inv. simpl. repeat split; constructor.
Qed.

Lemma flush_keeps_store_inv (st : State) : store_inv st -> store_inv (flush st).
Proof.
  intros Hinv.
  pose proof (commit_keeps_store_inv st [] [] (stdout st) Hinv
                (Forall_nil _) (Forall_nil _)) as H.
  destruct Hinv as (Ht & Hp & Hpairs & Hhash & _).
  rewrite !app_nil_r in H.
  rewrite (add_all_persistent _ (team_row_persistent _ _ Ht)) in H.
  rewrite (add_all_players_persistent _ (player_row_persistent _ _ Hp)) in H.
  rewrite state_eta in H. apply H; assumption.
Qed.

(** *** The teams table lists the names in order of first appearance *)








Section StoreInvariant.

Variable to_date : value -> result date.
Variable commit_error : State -> option string.

Lemma process_document_commit_inv (st : State) (data : value)
    (pc : pydict Player) (tc : pydict Team) (out : list string) :
  store_inv st ->
  resolve_entities (player_cache st) (team_cache st) (Some data)
    = Ok (data, pc, tc) ->
  store_inv (flush (mkState (add_all add_player pc) (add_all add_team tc)
                      (session_new st) (db st) out)).
Proof.
  intros Hinv Hres.
  destruct (resolve_entities_players _ _ _ _ _ _ Hres)
    as (new_p & -> & Hnp & Hpairs & Hhash).
  destruct (resolve_entities_teams _ _ _ _ _ _ Hres)
    as (info & names & _ & _ & Hreg).
  destruct (register_teams_spec _ _ _ Hreg) as (new_t & -> & Hnt & _).
  pose proof Hinv as (Ht & Hp & Hpk & Hph & Hrest).
  apply commit_keeps_store_inv.
  - exact Hinv.
  - exact Hnp.
  - exact Hnt.
  - apply Hpairs. exact Hpk.
  - apply Hhash. exact Hph.
Qed.

Lemma resolve_entities_data (pc0 : pydict Player) (tc0 : pydict Team)
    (content : option value) (data : value) (pc : pydict Player)
    (tc : pydict Team) :
  resolve_entities pc0 tc0 content = Ok (data, pc, tc) -> content = Some data.
Proof.
  unfold resolve_entities. destruct content as [ d0 | ]; intros H.
  - simpl in H. ok_steps H. injection H as <- _ _. reflexivity.
  - discriminate H.
Qed.

Lemma process_document_store_inv (st st' : State) (file : string * option value) :
  process_document to_date commit_error st file = Next st' ->
  store_inv st -> store_inv st'.
Proof.
  intros H Hinv.
  destruct (process_document_inv _ _ _ _ _ H)
    as (data & pc & tc & st2 & m & Hsome & Hres & Hst2 & Hasm & ->).
  rewrite Hsome in Hres.
  pose proof (process_document_commit_inv st data pc tc
                (stdout st ++ [processing (fst file)]) Hinv Hres) as Hinv2.
  rewrite <- Hst2 in Hinv2.
  destruct Hinv2 as (Ht & Hp & Hpk & Hph & Hids & Hm).
  unfold store_inv. simpl.
  repeat match goal with |- _ /\ _ => split end; try assumption.
  apply Forall_app. split.
  - apply Forall_app in Hm. apply Hm.
  - constructor; [ | constructor ].
    apply (match_refs_rows _ _ _ _ Ht Hp).
    apply (assemble_refs _ _ _ _ _ _ Hasm).
Qed.

Lemma process_document_failed_inv (st : State) (file : string * option value)
    (e : exn) (d : Store) (out : list string) :
  process_document to_date commit_error st file = Failed e d out ->
  store_inv st -> exists st_f, store_inv st_f /\ db st_f = d.
Proof.
  unfold process_document. intros H Hinv.
  destruct (resolve_entities _ _ _) as [ [[data pc] tc] | e1 ] eqn:Er.
  - destruct (commit _ _) as [ st2 | e2 ] eqn:Ec.
    + destruct (assemble _ _ _ _ _) as [ m | e3 ]; [ discriminate H | ].
      injection H as _ <- _.
      destruct (commit_ok _ _ _ Ec) as [_ ->].
      eexists. split; [ | reflexivity ].
      apply (process_document_commit_inv st data); [ exact Hinv | ].
      rewrite <- (resolve_entities_data _ _ _ _ _ _ Er). exact Er.
    + injection H as _ <- _. exists st. split; [ exact Hinv | reflexivity ].
  - injection H as _ <- _. exists st. split; [ exact Hinv | reflexivity ].
Qed.

Lemma process_files_store_inv (files : list (string * option value)) :
  forall st,
    store_inv st ->
    match process_files to_date commit_error st files with
    | Next st' => store_inv st'
    | Failed _ d _ => exists st_f, store_inv st_f /\ db st_f = d
    end.
Proof.
  induction files as [ | f r IH]; intros st Hinv; simpl; [ exact Hinv | ].
  destruct (process_document to_date commit_error st f) as [ st1 | e d out ] eqn:Ef.
  - apply IH. apply (process_document_store_inv _ _ _ Ef Hinv).
  - apply (process_document_failed_inv _ _ _ _ _ Ef Hinv).
Qed.

(** Whatever way a run over a fresh store ends, its store is the store of a
    state the invariant holds of. *)
Lemma run_store_inv (dir : list (string * option value)) :
  match main to_date commit_error dir with
  | Returned d _ => exists st, store_inv st /\ db st = d
  | Raised _ d _ => exists st, store_inv st /\ db st = d
  end.
Proof.
  unfold main, process_and_load_data.
  pose proof (process_files_store_inv
                (filter (fun f : string * option value => endswith (fst f) ".json") dir)
                _ initial_store_inv) as H.
  destruct (process_files _ _ _ _) as [ st | e d out ].
  - unfold final_commit. destruct (commit commit_error st) as [ st' | e ] eqn:Ec.
    + destruct (commit_ok _ _ _ Ec) as [_ ->].
      exists (flush st). split; [ apply flush_keeps_store_inv; exact H | reflexivity ].
    + exists st. split; [ exact H | reflexivity ].
  - exact H.
Qed.

(** X10: in the store a run over a fresh database leaves, however the run
    ends, every stored match refers to rows that exist: its team1_id,
    team2_id and toss_winner_id and the batting_team_id of its innings are
    keys of teams rows, and winner_id, player_of_match_id and the four player
    references of every delivery are null or keys of rows of their table. *)
Theorem stored_references_exist (dir : list (string * option value)) :
  match main to_date commit_error dir with
  | Returned d _ => Forall (match_rows_refs d) (tbl_matches d)
  | Raised _ d _ => Forall (match_rows_refs d) (tbl_matches d)
  end.
Proof.
  pose proof (run_store_inv dir) as H.
  destruct (main to_date commit_error dir) as [ d out | e d out ];
    destruct H as (st & (_ & _ & _ & _ & _ & Hm) & <-);
    apply Forall_app in Hm; apply Hm.
Qed.






(** X12: over a fresh database the players table never holds two rows under
    one id, however the run ends: a registry entry whose id is already
    cached adds no row, whatever name it gives the id. *)
Theorem player_ids_unique (dir : list (string * option value)) (pid : value) :
  match main to_date commit_error dir with
  | Returned d _ => (rows_with_id pid (tbl_players d) <= 1)%nat
  | Raised _ d _ => (rows_with_id pid (tbl_players d) <= 1)%nat
  end.
Proof.
  pose proof (run_store_inv dir) as H.
  assert (Hcount : forall st, store_inv st ->
             (rows_with_id pid (tbl_players (db st)) <= 1)%nat).
  { intros st (_ & Hp & Hpairs & Hhash & _).
    assert (Hkeys : map fst (tbl_players (db st)) = map fst (player_cache st)).
    { clear Hpairs Hhash.
      induction Hp as [ | kq row pc rows [Hk _] _ IH ]; [ reflexivity | ].
      simpl. rewrite IH, Hk. reflexivity. }
    unfold rows_with_id.
    assert (Hlen : List.length (filter (fun r => py_eq (fst r) pid)
                                  (tbl_players (db st)))
                   = List.length (filter (fun k => py_eq k pid)
                                    (map fst (tbl_players (db st))))).
    { generalize (tbl_players (db st)) as rows.
      induction rows as [ | row rows IH]; simpl; [ reflexivity | ].
      destruct (py_eq (fst row) pid); simpl; rewrite IH; reflexivity. }
    rewrite Hlen, Hkeys, (count_unequal_keys pid _ Hpairs Hhash).
    destruct (existsb _ _); lia. }
  destruct (main to_date commit_error dir) as [ d out | e d out ];
    destruct H as (st & Hinv & <-); apply Hcount; exact Hinv.
Qed.

(** X13: the match a document step adds refers, as team1, team2 and toss
    winner, to the teams rows named as the first and second entry of
    info.teams and as toss.winner: the ids are cross-referenced to the right
    names. *)
Theorem team_references_named (pre : list (string * option value))
    (st st' : State) (file : string * option value) :
  process_files to_date commit_error (initial_state create_database) pre
    = Next st ->
  process_document to_date commit_error st file = Next st' ->
  exists m data info,
    session_new st' = [m] /\
    snd file = Some data /\
    getitem data "info" = Ok info /\
    names_row (db st') (team1_id m)
      (teams <- getitem info "teams" ;; getidx teams 0) /\
    names_row (db st') (team2_id m)
      (teams <- getitem info "teams" ;; getidx teams 1) /\
    names_row (db st') (toss_winner_id m)
      (toss <- getitem info "toss" ;; getitem toss "winner").
Proof.
  intros Hpre H.
  pose proof (process_files_store_inv pre _ initial_store_inv) as Hinv.
  rewrite Hpre in Hinv.
  pose proof (process_document_store_inv _ _ _ H Hinv) as (Ht & _).
  destruct (process_document_inv _ _ _ _ _ H)
    as (data & pc & tc & st2 & m & Hsome & _ & _ & Hasm & ->).
  simpl in Ht |- *.
  destruct (assemble_inv _ _ _ _ _ _ Hasm) as (info & m0 & inns & Hinfo & Hm0 & _ & _ & Hm).
  destruct (new_match_inv _ _ _ _ _ _ Hm0)
    as (o & name & _ & _ & _ & H1 & H2 & H3 & _).
  exists m, data, info.
  split; [ reflexivity | ]. split; [ exact Hsome | ]. split; [ exact Hinfo | ].
  rewrite Hm. cbn [with_innings team1_id team2_id toss_winner_id].
  split; [ apply (team_id_where_row _ _ _ _ Ht H1) | ].
  split; [ apply (team_id_where_row _ _ _ _ Ht H2) | ].
  apply (team_id_where_row _ _ _ _ Ht H3).
Qed.

End StoreInvariant.

Lemma team_references_named_witness :
  exists st st' m,
    process_files iso_date accepting (initial_state create_database)
      [("335982.json", Some two_balls)] = Next st /\
    process_document iso_date accepting st ("335986.json", Some two_innings)
      = Next st' /\
    session_new st' = [m] /\
    names_row (db st') (toss_winner_id m) (Ok (VStr "Chennai Super Kings")).
Proof.
  do 3 eexists. split; [ vm_compute; reflexivity | ].
  split; [ vm_compute; reflexivity | ].
  split; [ reflexivity | ].
  match goal with
  | |- names_row (db ?st') _ _ =>
      destruct (team_references_named iso_date accepting
                  [("335982.json", Some two_balls)] _ st'
                  ("335986.json", Some two_innings) eq_refl eq_refl)
        as (m & data & info & Hs & Hd & Hinfo & _ & _ & Htoss)
  end.
  simpl in Hs. injection Hs as <-.
  simpl in Hd. injection Hd as <-.
  vm_compute in Hinfo. injection Hinfo as <-.
  exact Htoss.
Defined.

(** * The query text of src/main.py *)

Lemma lstrip_split (s : list N) :
  exists l, s = l ++ lstrip s.
Proof.
  induction s as [ | c r [l IH] ]; [ exists []; reflexivity | ].
  simpl. destruct (isspace c).
  - exists (c :: l). simpl. f_equal. exact IH.
  - exists []. reflexivity.
Qed.

Lemma lstrip_head (s : list N) (c : N) (r : list N) :
  lstrip s = c :: r -> isspace c = false.
Proof.
  induction s as [ | x s IH]; simpl; intros H; [ discriminate H | ].
  destruct (isspace x) eqn:Ex; [ apply IH; exact H | ].
  injection H as <- _. exact Ex.
Qed.

Lemma lstrip_fixed (s : list N) :
  (forall c r, s = c :: r -> isspace c = false) -> lstrip s = s.
Proof.
  destruct s as [ | c r ]; intros H; [ reflexivity | ].
  simpl. rewrite (H c r eq_refl). reflexivity.
Qed.

Lemma strip_split (s : list N) : exists l r, s = l ++ strip s ++ r.
Proof.
  unfold strip, rstrip.
  destruct (lstrip_split (rev s)) as [l Hl].
  destruct (lstrip_split (rev (lstrip (rev s)))) as [l2 Hl2].
  exists l2, (rev l).
  rewrite app_assoc, <- Hl2, <- rev_app_distr, <- Hl, rev_involutive.
  reflexivity.
Qed.

Lemma strip_head (s : list N) (c : N) (r : list N) :
  strip s = c :: r -> isspace c = false.
Proof. unfold strip. apply lstrip_head. Qed.

Lemma strip_last (s front : list N) (c : N) :
  strip s = front ++ [c] -> isspace c = false.
Proof.
  unfold strip, rstrip. intros H.
  destruct (lstrip_split (rev (lstrip (rev s)))) as [l Hl].
  rewrite H in Hl.
  apply (f_equal (@rev N)) in Hl.
  rewrite rev_involutive, app_assoc, rev_app_distr in Hl. simpl in Hl.
  apply (lstrip_head _ _ _ Hl).
Qed.

Lemma strip_fixed (s : list N) :
  (forall c r, s = c :: r -> isspace c = false) ->
  (forall front c, s = front ++ [c] -> isspace c = false) ->
  strip s = s.
Proof.
  intros Hh Hl. unfold strip, rstrip.
  assert (Hr : lstrip (rev s) = rev s).
  { apply lstrip_fixed. intros c r Hc.
    apply (Hl (rev r) c).
    apply (f_equal (@rev N)) in Hc. rewrite rev_involutive in Hc. exact Hc. }
  rewrite Hr, rev_involutive. apply lstrip_fixed. exact Hh.
Qed.

Lemma replace_newline_map (s : list N) :
  forall fuel, (List.length s <= fuel)%nat ->
    replace_from fuel newline blank s
    = map (fun c => if N.eqb c 10 then 32%N else c) s.
Proof.
  induction s as [ | c r IH]; intros fuel Hf.
  - destruct fuel; reflexivity.
  - destruct fuel as [ | n ]; simpl in Hf; [ lia | ].
    cbn [replace_from map].
    change (startswith newline (c :: r)) with (N.eqb 10 c && true).
    rewrite andb_true_r, N.eqb_sym.
    destruct (N.eqb c 10); cbn [newline blank List.length skipn app];
      rewrite IH by lia; reflexivity.
Qed.

Lemma startswith_fence (s : list N) :
  startswith fence s = Nat.leb 3 (leading_ticks s).
Proof.
  destruct s as [ | a [ | b [ | c r ] ] ];
    cbn [startswith fence leading_ticks];
    rewrite ?(N.eqb_sym 96);
    repeat match goal with
           | |- context [N.eqb ?x 96] => destruct (N.eqb x 96)
           end;
    reflexivity.
Qed.

Lemma skip_fence (s : list N) :
  startswith fence s = true ->
  (List.length (skipn 3 s) + 3 = List.length s)%nat.
Proof.
  rewrite startswith_fence. intros H. apply Nat.leb_le in H.
  destruct s as [ | a [ | b [ | c r ] ] ]; cbn [leading_ticks] in H;
    repeat match type of H with
           | context [N.eqb ?x 96] => destruct (N.eqb x 96)
           end;
    try lia.
  all: cbn [skipn List.length]; lia.
Qed.

(** Removing the fences leaves fewer than three back quotes in front, keeps
    a front of fewer than three as it is, and leaves no fence anywhere. *)
Lemma replace_fence_spec :
  forall fuel s, (List.length s <= fuel)%nat ->
    (leading_ticks (replace_from fuel fence [] s) < 3)%nat /\
    ((leading_ticks s < 3)%nat ->
     leading_ticks (replace_from fuel fence [] s) = leading_ticks s) /\
    occurs fence (replace_from fuel fence [] s) = false.
Proof.
  induction fuel as [ | n IH]; intros s Hf.
  - destruct s; simpl in Hf; [ | lia ]. simpl. repeat split; lia.
  - destruct s as [ | c r ]; [ simpl; repeat split; lia | ].
    cbn [replace_from]. destruct (startswith fence (c :: r)) eqn:Es.
    + pose proof (skip_fence _ Es) as Hlen.
      change (List.length fence) with 3%nat.
      destruct (IH (skipn 3 (c :: r))) as (H1 & _ & H3); [ lia | ].
      rewrite app_nil_l. split; [ exact H1 | ]. split; [ | exact H3 ].
      intros Hlt. rewrite startswith_fence in Es.
      apply Nat.leb_le in Es. lia.
    + destruct (IH r) as (H1 & H2 & H3); [ simpl in Hf; lia | ].
      rewrite startswith_fence in Es. apply Nat.leb_gt in Es.
      assert (Hrun : leading_ticks (c :: replace_from n fence [] r)
                     = leading_ticks (c :: r)).
      { cbn [leading_ticks] in Es |- *. destruct (N.eqb c 96); [ | reflexivity ].
        rewrite H2 by lia. reflexivity. }
      split; [ lia | ]. split; [ intros _; exact Hrun | ].
      cbn [occurs]. rewrite H3, orb_false_r, startswith_fence.
      apply Nat.leb_gt. lia.
Qed.

Lemma startswith_self (pat b : list N) : startswith pat (pat ++ b) = true.
Proof.
  induction pat as [ | p pat IH]; [ reflexivity | ].
  simpl. rewrite N.eqb_refl. exact IH.
Qed.

Lemma startswith_app (pat s : list N) :
  startswith pat s = true -> exists b, s = pat ++ b.
Proof.
  revert s. induction pat as [ | p pat IH]; intros s H.
  - exists s. reflexivity.
  - destruct s as [ | c s ]; [ discriminate H | ].
    simpl in H. apply andb_true_iff in H. destruct H as [Hp Hs].
    apply N.eqb_eq in Hp. subst c.
    destruct (IH _ Hs) as [b ->]. exists b. reflexivity.
Qed.

Lemma occurs_start (pat s : list N) :
  startswith pat s = true -> occurs pat s = true.
Proof.
  intros H. destruct s as [ | c r ]; cbn [occurs]; [ exact H | ].
  rewrite H. reflexivity.
Qed.

Lemma occurs_app (pat a b : list N) : occurs pat (a ++ pat ++ b) = true.
Proof.
  induction a as [ | c a IH].
  - rewrite app_nil_l. apply occurs_start. apply startswith_self.
  - cbn [app occurs]. rewrite IH. apply orb_true_r.
Qed.

Lemma occurs_absent (pat s : list N) : occurs pat s = false -> absent pat s.
Proof.
  intros H a b ->. rewrite occurs_app in H. discriminate H.
Qed.

Lemma absent_strip (pat s : list N) : absent pat s -> absent pat (strip s).
Proof.
  intros H a b Hq. destruct (strip_split s) as (l & r & Hs).
  apply (H (l ++ a) (b ++ r)). rewrite Hs at 1. rewrite Hq.
  rewrite <- !app_assoc. reflexivity.
Qed.

Lemma absent_fence_map (s : list N) :
  absent fence s ->
  absent fence (map (fun c => if N.eqb c 10 then 32%N else c) s).
Proof.
  intros H a b Hq.
  apply map_eq_app in Hq. destruct Hq as (a' & r' & -> & _ & Hr).
  apply map_eq_app in Hr. destruct Hr as (f' & b' & -> & Hf & _).
  apply (H a' b'). f_equal. f_equal.
  destruct f' as [ | x [ | y [ | z [ | w f' ] ] ] ]; simpl in Hf;
    try discriminate Hf.
  injection Hf as Hx Hy Hz. unfold fence.
  assert (Hsub : forall c, (if N.eqb c 10 then 32%N else c) = 96%N -> c = 96%N).
  { intros c. destruct (N.eqb c 10); [ discriminate | auto ]. }
  rewrite (Hsub _ Hx), (Hsub _ Hy), (Hsub _ Hz). reflexivity.
Qed.

(** X14: whatever the model answers, the query handed on is a single trimmed
    line: it holds no line feed and neither starts nor ends with a white
    space character. *)
Theorem query_is_one_trimmed_line (text q : list N) :
  get_sql_from_llm (Some text) = Some q ->
  ~ In 10%N q /\
  (forall c r, q = c :: r -> isspace c = false) /\
  (forall front c, q = front ++ [c] -> isspace c = false).
Proof.
  unfold get_sql_from_llm. intros H. injection H as <-.
  split; [ | split ].
  - intros Hin.
    destruct (strip_split (replace newline blank
                (replace fence [] (replace sql_word [] (strip text)))))
      as (l & r & Hs).
    assert (Hin' : In 10%N (replace newline blank
                     (replace fence [] (replace sql_word [] (strip text))))).
    { rewrite Hs. apply in_or_app. right. apply in_or_app. left. exact Hin. }
    unfold replace at 1 in Hin'.
    rewrite replace_newline_map in Hin' by lia.
    apply in_map_iff in Hin'. destruct Hin' as (c & Hc & _).
    destruct (N.eqb c 10) eqn:Ec; [ discriminate Hc | ].
    apply N.eqb_neq in Ec. congruence.
  - intros c r. apply strip_head.
  - intros front c. apply strip_last.
Qed.

Lemma query_is_one_trimmed_line_witness :
  exists q, get_sql_from_llm (Some fenced_answer) = Some q /\ ~ In 10%N q.
Proof.
  eexists. split; [ vm_compute; reflexivity | ].
  match goal with
  | |- ~ In _ ?q =>
      destruct (query_is_one_trimmed_line fenced_answer q eq_refl) as (H & _)
  end.
  exact H.
Defined.

(** X15: whatever the model answers, the query handed on holds no code
    fence (three back quotes in a row). *)
Theorem query_has_no_fence (text q : list N) :
  get_sql_from_llm (Some text) = Some q -> absent fence q.
Proof.
  unfold get_sql_from_llm. intros H. injection H as <-.
  apply absent_strip. unfold replace at 1.
  rewrite replace_newline_map by lia.
  apply absent_fence_map. apply occurs_absent.
  unfold replace at 1. apply replace_fence_spec. lia.
Qed.

Lemma query_has_no_fence_witness :
  exists q, get_sql_from_llm (Some fenced_answer) = Some q /\ absent fence q.
Proof.
  eexists. split; [ vm_compute; reflexivity | ].
  apply (query_has_no_fence fenced_answer). vm_compute. reflexivity.
Defined.

Lemma replace_absent (old new : list N) :
  old <> [] ->
  forall s fuel, absent old s -> replace_from fuel old new s = s.
Proof.
  intros Hold. induction s as [ | c r IH]; intros fuel Habs.
  - destruct fuel; reflexivity.
  - destruct fuel as [ | n ]; [ reflexivity | ]. cbn [replace_from].
    destruct (startswith old (c :: r)) eqn:Es.
    + exfalso. destruct (startswith_app _ _ Es) as [b Hb].
      apply (Habs [] b). exact Hb.
    + f_equal. apply IH. intros a b Hr.
      apply (Habs (c :: a) b). rewrite Hr. reflexivity.
Qed.

(** X16: an answer that, once trimmed, holds neither the lower-case word
    sql, nor a code fence, nor a line feed is handed on trimmed and
    otherwise unchanged. *)
Theorem plain_query_passes_through (text : list N) :
  absent sql_word (strip text) ->
  absent fence (strip text) ->
  ~ In 10%N (strip text) ->
  get_sql_from_llm (Some text) = Some (strip text).
Proof.
  intros Hsql Hfence Hnl. unfold get_sql_from_llm. f_equal.
  unfold replace.
  rewrite (replace_absent sql_word [] ltac:(discriminate) _ _ Hsql).
  rewrite (replace_absent fence [] ltac:(discriminate) _ _ Hfence).
  rewrite replace_newline_map by lia.
  assert (Hmap : map (fun c => if N.eqb c 10 then 32%N else c) (strip text)
                 = strip text).
  { rewrite <- (map_id (strip text)) at 2. apply map_ext_in.
    intros c Hc. destruct (N.eqb c 10) eqn:Ec; [ | reflexivity ].
    apply N.eqb_eq in Ec. subst c. contradiction. }
  rewrite Hmap. apply strip_fixed.
  - intros c r. apply strip_head.
  - intros front c. apply strip_last.
Qed.

Lemma plain_query_passes_through_witness :
  get_sql_from_llm (Some plain_answer)
  = Some [83; 69; 76; 69; 67; 84; 32; 49; 59]%N.
Proof.
  rewrite (plain_query_passes_through plain_answer).
  - vm_compute. reflexivity.
  - apply occurs_absent. vm_compute. reflexivity.
  - apply occurs_absent. vm_compute. reflexivity.
  - vm_compute. intros H.
    repeat (destruct H as [ H | H ]; [ discriminate H | ]). exact H.
Defined.
